(** * Accounting-Referee: the persistence layer of [app/data_manager.py]

    A shallow embedding of [GameDataManager]: the per-season JSON files of
    the data directory, the [games] table reached through a DB-API
    connection, and the operations of the class, with Python's exceptions
    as an explicit [result] and the object's attributes as a record that
    is passed along.

    What lies outside the class is modelled as follows.  The data
    directory is a finite map from file names to parsed contents, and
    writing a file always succeeds.  The database is the list of rows of
    the [games] table, with the [UNIQUE(season, gameNumber)] constraint of
    the schema the class creates; a statement either runs or raises,
    as a schedule carried by the connection says, so that both a working
    database and one that fails at any point can be talked about.

    The engine is SQLite, the one the class opens itself when given a
    path.  Three of its habits show in what the class returns.  The
    constraint comes with an index on [(season, gameNumber)], and a query
    without [ORDER BY] that the index can answer is answered in index
    order: the rows of a season come by game number, not by age.  A REAL
    column keeps NaN as NULL and [-0.0] as [0.0].  A full scan of the table
    goes by rowid, which is the order of the list of rows.  The two kinds
    of connection the class tells apart (SQLite or not) differ for it in
    placeholder syntax and commit idiom only, which leave no trace here. *)

From Stdlib Require Import String Ascii List ZArith Lia Bool PrimFloat.
From stdpp Require Import base option list gmap strings sorting.
Import ListNotations.

Local Open Scope string_scope.
Local Open Scope list_scope.

(** ** Python values and exceptions *)

(** The outcome of a call: a value, or a raised exception with [str(exc)]. *)
Inductive result (A : Type) : Type :=
| Ok (a : A)
| Raise (msg : string).
Arguments Ok {A} a.
Arguments Raise {A} msg.

(** ** Strings: the few [str] methods the class uses *)

Module Str.

(** [c.lower()] on one ASCII character. *)
Definition lower_ascii (c : ascii) : ascii :=
  let n := nat_of_ascii c in
  if (65 <=? n)%nat && (n <=? 90)%nat then ascii_of_nat (n + 32) else c.

(** [s.lower()] *)
Fixpoint lower (s : string) : string :=
  match s with
  | EmptyString => EmptyString
  | String c r => String (lower_ascii c) (lower r)
  end.

(** [s.replace(a, b)] for one-character [a] and [b]. *)
Fixpoint replace (a b : ascii) (s : string) : string :=
  match s with
  | EmptyString => EmptyString
  | String c r => String (if Ascii.eqb c a then b else c) (replace a b r)
  end.

(** [s.startswith(p)] *)
Definition startswith (p s : string) : bool := String.prefix p s.

(** [s.endswith(p)] *)
Definition endswith (p s : string) : bool :=
  (String.length p <=? String.length s)%nat &&
  String.eqb (String.substring (String.length s - String.length p)
                               (String.length p) s) p.

(** [s[i:-j]] for a string at least [i + j] long. *)
Definition slice (i j : nat) (s : string) : string :=
  String.substring i (String.length s - i - j) s.

(** [q in s] *)
Fixpoint contains (q s : string) : bool :=
  String.prefix q s ||
  match s with
  | EmptyString => false
  | String _ r => contains q r
  end.

End Str.

(** ** Reading rows through an index

    An index holds the rows by key, and the rows of one key in the order
    of the table.  Reading a list through it is sorting the list by key
    without disturbing rows of equal keys. *)

Section IndexOrder.

Context {A K : Type}.
Variable key : A -> K.
Variable le : K -> K -> bool.

Fixpoint insert_by (x : A) (l : list A) : list A :=
  match l with
  | [] => [x]
  | y :: rest => if le (key x) (key y) then x :: l else y :: insert_by x rest
  end.

Fixpoint sort_by (l : list A) : list A :=
  match l with
  | [] => []
  | x :: rest => insert_by x (sort_by rest)
  end.

End IndexOrder.

(** ** Game records

    A game is a [dict]; the class reads it with [game.get(key)], which
    yields [None] for a missing key and for a null value alike, and, for the
    three amounts, with [game.get(key, 0)], where only a missing key yields
    the default.  Amounts are IEEE binary64 numbers, as Python's [float]. *)

Inductive money : Type :=
| Missing
| Null
| Amount (x : float).

Record game : Type := mk_game {
  season_key : option string;
  gameNumber : option string;
  date : option string;
  location : option string;
  transportation : money;
  food : money;
  gamePayment : money;
  paidStatus : option string;
  observations : option string;
  paymentDate : option string
}.

(** [game.get(key, 0)] for an amount, as bound to a REAL column: the
    integer default is stored as [0.0]. *)
Definition get_amount (m : money) : option float :=
  match m with
  | Missing => Some 0%float
  | Null => None
  | Amount x => Some x
  end.

(** ** The [games] table *)

Record row : Type := mk_row {
  row_id : Z;
  row_season : string;
  row_gameNumber : option string;
  row_date : option string;
  row_location : option string;
  row_transportation : option float;
  row_food : option float;
  row_gamePayment : option float;
  row_paidStatus : option string
}.

(** A DB-API connection: the kind of driver, the table's rows in table
    order (that of the rowids, which a full scan follows), the next value
    of the auto-increment column, and what the
    outside world does to the coming statements: [Some msg] makes the next
    statement raise [msg] (a lost connection, a locked file), [None] lets it
    through; an empty schedule lets every statement through. *)
Record connection : Type := mk_connection {
  sqlite : bool;
  table : list row;
  next_id : Z;
  faults : list (option string)
}.

Definition with_table (c : connection) (t : list row) : connection :=
  {| sqlite := sqlite c; table := t; next_id := next_id c; faults := faults c |}.

Definition with_faults (c : connection) (f : list (option string)) : connection :=
  {| sqlite := sqlite c; table := table c; next_id := next_id c; faults := f |}.

(** [cursor.execute(sql, params)] (with its commit): the statement [sem]
    runs unless the schedule makes it raise. *)
Definition execute {A} (sem : connection -> result A * connection)
    (c : connection) : result A * connection :=
  match faults c with
  | [] => sem c
  | None :: f => sem (with_faults c f)
  | Some msg :: f => (Raise msg, with_faults c f)
  end.


(** ** SQL statements on the table

    Comparisons follow SQL: a NULL column or a NULL parameter compares equal
    to nothing, and text compares byte for byte.  In an index NULL comes
    before any text. *)

Module Sql.

Definition eq_text (col param : option string) : bool :=
  match col, param with
  | Some a, Some b => String.eqb a b
  | _, _ => false
  end.

Definition in_season (s : string) (r : row) : bool := String.eqb (row_season r) s.

Definition has_key (s : string) (n : option string) (r : row) : bool :=
  in_season s r && eq_text (row_gameNumber r) n.

(** The order of a TEXT column in an index. *)
Definition text_le (a b : option string) : bool :=
  match a, b with
  | None, _ => true
  | Some _, None => false
  | Some x, Some y => String.leb x y
  end.

(** The rows of one season as the index on [(season, gameNumber)] gives
    them: by game number. *)
Definition by_number (rows : list row) : list row :=
  sort_by row_gameNumber text_le rows.

(** [SELECT * FROM games WHERE season = ?], answered from the index. *)
Definition select_season (s : string) (t : list row) : list row :=
  by_number (List.filter (in_season s) t).

(** [SELECT COUNT( * ) FROM games WHERE season = ?] *)
Definition count_season (s : string) (t : list row) : nat :=
  length (List.filter (in_season s) t).

(** What a REAL column keeps of a bound value: NULL for NULL and for NaN,
    [0.0] for either zero, and any other number as it is. *)
Definition real (x : option float) : option float :=
  match x with
  | None => None
  | Some v =>
      if PrimFloat.is_nan v then None
      else if PrimFloat.is_zero v then Some 0%float
      else Some v
  end.

(** [DELETE FROM games WHERE season = ?] *)
Definition delete_season (s : string) (t : list row) : list row :=
  List.filter (fun r => negb (in_season s r)) t.

(** [DELETE FROM games WHERE season = ? AND gameNumber = ?] *)
Definition delete_key (s : string) (n : option string) (t : list row) : list row :=
  List.filter (fun r => negb (has_key s n r)) t.

(** [DELETE FROM games WHERE id = ?] *)
Definition delete_id (i : Z) (t : list row) : list row :=
  List.filter (fun r => negb (Z.eqb (row_id r) i)) t.

(** The row an [INSERT INTO games(season, gameNumber, ...) VALUES (...)]
    builds from a record; [observations] and [paymentDate] have no column. *)
Definition new_row (i : Z) (s : string) (g : game) : row :=
  {| row_id := i;
     row_season := s;
     row_gameNumber := gameNumber g;
     row_date := date g;
     row_location := location g;
     row_transportation := real (get_amount (transportation g));
     row_food := real (get_amount (food g));
     row_gamePayment := real (get_amount (gamePayment g));
     row_paidStatus := paidStatus g |}.

(** The insert proper: [UNIQUE(season, gameNumber)] rejects a key that a
    row already carries (NULL keys never collide); the new row goes last
    and takes the next id. *)
Definition insert (s : string) (g : game) (c : connection) : result unit * connection :=
  if existsb (has_key s (gameNumber g)) (table c)
  then (Raise "UNIQUE constraint failed: games.season, games.gameNumber", c)
  else (Ok tt,
        {| sqlite := sqlite c;
           table := table c ++ [new_row (next_id c) s g];
           next_id := (next_id c + 1)%Z;
           faults := faults c |}).

(** [UPDATE games SET date=?, location=?, transportation=?, food=?,
    gamePayment=?, paidStatus=? WHERE season=? AND gameNumber=?] *)
Definition update_row (g : game) (r : row) : row :=
  {| row_id := row_id r;
     row_season := row_season r;
     row_gameNumber := row_gameNumber r;
     row_date := date g;
     row_location := location g;
     row_transportation := real (get_amount (transportation g));
     row_food := real (get_amount (food g));
     row_gamePayment := real (get_amount (gamePayment g));
     row_paidStatus := paidStatus g |}.

Definition update (s : string) (n : option string) (g : game) (t : list row) : list row :=
  List.map (fun r => if has_key s n r then update_row g r else r) t.

End Sql.

(** ** The manager object *)

(** A JSON value that Python cannot iterate over: [null], a number,
    [true] or [false]. *)
Inductive scalar : Type :=
| JNull
| JInt
| JFloat
| JBool.

(** [type(x).__name__] of what [json.load] makes of it. *)
Definition type_name (k : scalar) : string :=
  match k with
  | JNull => "NoneType"
  | JInt => "int"
  | JFloat => "float"
  | JBool => "bool"
  end.

(** The message of the [TypeError] that [for g in x] raises. *)
Definition not_iterable (k : scalar) : string :=
  ("'" ++ type_name k ++ "' object is not iterable")%string.

(** What a file of the data directory holds once parsed: a list of game
    objects (a season file or [all_games.json]), a list of season keys
    ([imported_seasons.json], read as the set it lists), a lone scalar, or
    nothing that [json.load] accepts. *)
Inductive json_file : Type :=
| JGames (gs : list game)
| JSeasons (s : gset string)
| JScalar (k : scalar)
| JCorrupt.

(** The attributes of a [GameDataManager]: [db_error] is [None] while the
    attribute has not been assigned, [Some None] when it holds Python's
    [None], [Some (Some msg)] when it holds a message. *)
Record manager : Type := mk_manager {
  data_dir : gmap string json_file;
  conn : option connection;
  db_error : option (option string)
}.

Definition set_conn (m : manager) (c : option connection) : manager :=
  {| data_dir := data_dir m; conn := c; db_error := db_error m |}.

Definition set_db_error (m : manager) (e : option string) : manager :=
  {| data_dir := data_dir m; conn := conn m; db_error := Some e |}.

Definition write_file (m : manager) (path : string) (f : json_file) : manager :=
  {| data_dir := <[path := f]> (data_dir m); conn := conn m; db_error := db_error m |}.

(** Reading the attribute, as [manager.db_error] does. *)
Definition read_db_error (m : manager) : result (option string) :=
  match db_error m with
  | Some e => Ok e
  | None => Raise "'GameDataManager' object has no attribute 'db_error'"
  end.

(** [os.listdir(self.data_dir)] *)
Definition listdir (d : gmap string json_file) : list string :=
  List.map fst (map_to_list d).

Definition is_season_file (fname : string) : bool :=
  Str.startswith "games_" fname && Str.endswith ".json" fname.

(** [fname[len('games_'):-5].replace('-', '/')] *)
Definition season_of_file (fname : string) : string :=
  Str.replace "-" "/" (Str.slice 6 5 fname).

Definition get_season_file (season : string) : string :=
  ("games_" ++ Str.replace "/" "-" season ++ ".json")%string.

Definition _row_to_game (r : row) : game :=
  {| season_key := Some (row_season r);
     gameNumber := row_gameNumber r;
     date := row_date r;
     location := row_location r;
     transportation := match row_transportation r with Some x => Amount x | None => Null end;
     food := match row_food r with Some x => Amount x | None => Null end;
     gamePayment := match row_gamePayment r with Some x => Amount x | None => Null end;
     paidStatus := row_paidStatus r;
     observations := None;
     paymentDate := None |}.

Definition _is_sqlite (m : manager) : bool :=
  match conn m with
  | Some c => sqlite c
  | None => false
  end.

Definition _db_load_games (c : connection) (season : string)
    : result (list game) * connection :=
  execute (fun c => (Ok (List.map _row_to_game (Sql.select_season season (table c))), c)) c.

(** The inserts of [_db_save_games], one statement per record. *)
Fixpoint insert_all (season : string) (gs : list game) (c : connection)
    : result unit * connection :=
  match gs with
  | [] => (Ok tt, c)
  | g :: gs' =>
      match execute (Sql.insert season g) c with
      | (Ok _, c') => insert_all season gs' c'
      | (Raise msg, c') => (Raise msg, c')
      end
  end.

(** [with self.conn:] commits when the block ends and rolls the table back
    when it raises; the statements that ran stay consumed. *)
Definition _db_save_games (c : connection) (season : string) (gs : list game)
    : result unit * connection :=
  match execute (fun c => (Ok tt, with_table c (Sql.delete_season season (table c)))) c with
  | (Raise msg, c') => (Raise msg, c')
  | (Ok _, c') =>
      match insert_all season gs c' with
      | (Ok _, c'') => (Ok tt, c'')
      | (Raise msg, c'') =>
          (Raise msg,
           {| sqlite := sqlite c; table := table c; next_id := next_id c;
              faults := faults c'' |})
      end
  end.

(** The games of every season file, file after file in listing order. *)
Definition scan_season_files (d : gmap string json_file) : list game :=
  List.concat
    (List.map
       (fun fname =>
          if is_season_file fname then
            match d !! fname with
            | Some (JGames gs) => gs
            | _ => []
            end
          else [])
       (listdir d)).

(** [_dump_all]: every row, or without a connection every season file,
    into [all_games.json]; a failing [SELECT] leaves the list empty. *)
Definition _dump_all (m : manager) : manager :=
  match conn m with
  | Some c =>
      match execute (fun c => (Ok (table c), c)) c with
      | (Ok rows, c') =>
          write_file (set_conn m (Some c')) "all_games.json"
                     (JGames (List.map _row_to_game rows))
      | (Raise _, c') =>
          write_file (set_conn m (Some c')) "all_games.json" (JGames [])
      end
  | None =>
      write_file m "all_games.json" (JGames (scan_season_files (data_dir m)))
  end.

(** [_dump_json]: the season's rows into its file, then [_dump_all];
    nothing at all if the rows cannot be read. *)
Definition _dump_json (m : manager) (season : string) : manager :=
  match conn m with
  | None => m
  | Some c =>
      match _db_load_games c season with
      | (Raise _, c') => set_conn m (Some c')
      | (Ok gs, c') =>
          _dump_all (write_file (set_conn m (Some c')) (get_season_file season) (JGames gs))
      end
  end.

(** [load_games]: the database only; the JSON files are never read. *)
Definition load_games (m : manager) (season : string) : list game * manager :=
  match conn m with
  | None => ([], set_db_error m (Some "no database connection"))
  | Some c =>
      match _db_load_games c season with
      | (Ok gs, c') => (gs, set_db_error (set_conn m (Some c')) None)
      | (Raise msg, c') => ([], set_db_error (set_conn m (Some c')) (Some msg))
      end
  end.

(** [save_games]: the table if there is a connection, else the season
    file and the combined export. *)
Definition save_games (m : manager) (season : string) (gs : list game)
    : result unit * manager :=
  match conn m with
  | Some c =>
      let '(r, c') := _db_save_games c season gs in (r, set_conn m (Some c'))
  | None =>
      (Ok tt, _dump_all (write_file m (get_season_file season) (JGames gs)))
  end.

(** [add_game]: the [DELETE] by key sits in [try ... except: pass], the
    [INSERT] re-raises; without a connection, load, append, save. *)
Definition add_game (m : manager) (season : string) (g : game)
    : result unit * manager :=
  match conn m with
  | Some c =>
      let '(_, c1) :=
        execute (fun c => (Ok tt, with_table c (Sql.delete_key season (gameNumber g) (table c)))) c in
      match execute (Sql.insert season g) c1 with
      | (Ok _, c2) => (Ok tt, _dump_json (set_conn m (Some c2)) season)
      | (Raise msg, c2) => (Raise msg, set_conn m (Some c2))
      end
  | None =>
      let '(gs, m1) := load_games m season in
      save_games m1 season (gs ++ [g])
  end.

(** [g['gameNumber'] == game_number] on a loaded record (one without the
    key would raise [KeyError]; the records scanned are those [load_games]
    returned). *)
Definition number_is (game_number : string) (g : game) : bool :=
  match gameNumber g with
  | Some n => String.eqb n game_number
  | None => false
  end.

(** The scan of [update_game]: the first match is replaced, then [break]. *)
Fixpoint replace_first (game_number : string) (updated : game) (gs : list game)
    : list game :=
  match gs with
  | [] => []
  | g :: rest =>
      if number_is game_number g then updated :: rest
      else g :: replace_first game_number updated rest
  end.

(** [update_game]: one [UPDATE] by key, then the backups; without a
    connection, load, replace the first match, save. *)
Definition update_game (m : manager) (season game_number : string) (updated : game)
    : result unit * manager :=
  match conn m with
  | Some c =>
      match execute (fun c => (Ok tt, with_table c
                       (Sql.update season (Some game_number) updated (table c)))) c with
      | (Ok _, c') => (Ok tt, _dump_json (set_conn m (Some c')) season)
      | (Raise msg, c') => (Raise msg, set_conn m (Some c'))
      end
  | None =>
      let '(gs, m1) := load_games m season in
      save_games m1 season (replace_first game_number updated gs)
  end.

(** [delete_game]: one [DELETE] by key, then the backups; without a
    connection, load, filter, save. *)
Definition delete_game (m : manager) (season game_number : string)
    : result unit * manager :=
  match conn m with
  | Some c =>
      match execute (fun c => (Ok tt, with_table c
                       (Sql.delete_key season (Some game_number) (table c)))) c with
      | (Ok _, c') => (Ok tt, _dump_json (set_conn m (Some c')) season)
      | (Raise msg, c') => (Raise msg, set_conn m (Some c'))
      end
  | None =>
      let '(gs, m1) := load_games m season in
      save_games m1 season (List.filter (fun g => negb (number_is game_number g)) gs)
  end.

Section Search.

(** [column LIKE pattern], as the database engine evaluates it. *)
Variable sql_like : option string -> string -> bool.

(** [query in g[field].lower()] on a loaded record. *)
Definition field_contains (query : string) (field : option string) : bool :=
  match field with
  | Some s => Str.contains query (Str.lower s)
  | None => false
  end.

(** [search_games]: the [SELECT], on the season and answered from the
    index like that of [load_games], is not inside any [try]. *)
Definition search_games (m : manager) (season query : string)
    : result (list game) * manager :=
  match conn m with
  | Some c =>
      let like := ("%" ++ query ++ "%")%string in
      let '(r, c') :=
        execute (fun c =>
          (Ok (List.map _row_to_game
                 (Sql.by_number
                    (List.filter
                       (fun r => Sql.in_season season r &&
                                 (sql_like (row_gameNumber r) like ||
                                  sql_like (row_location r) like ||
                                  sql_like (row_date r) like))
                       (table c)))), c)) c in
      (r, set_conn m (Some c'))
  | None =>
      let '(gs, m1) := load_games m season in
      let q := Str.lower query in
      (Ok (List.filter
             (fun g => field_contains q (gameNumber g) ||
                       field_contains q (location g) ||
                       field_contains q (date g)) gs), m1)
  end.

End Search.

(** ** Season summary *)

Record summary (F : Type) : Type := mk_summary {
  total_earnings : F;
  amount_left : F;
  games_count : nat
}.
Arguments mk_summary {F}.
Arguments total_earnings {F}.
Arguments amount_left {F}.
Arguments games_count {F}.

(** [(paid or "").lower() == 'yes'] *)
Definition is_paid (paid : option string) : bool :=
  String.eqb (Str.lower (match paid with Some s => s | None => "" end)) "yes".

(** The loop of [get_summary] over the fetched tuples
    [(transportation, food, gamePayment, paidStatus)], written once for any
    number type with an addition, a zero and a truth value; the program
    runs it over binary64. *)
Section Totals.

Context {F : Type}.
Variable fadd : F -> F -> F.
Variable fzero : F.
Variable ftruthy : F -> bool.

Definition cells : Type := (option F * option F * option F * option string)%type.

(** [float(x or 0)] *)
Definition float_or_0 (x : option F) : F :=
  match x with
  | Some v => if ftruthy v then v else fzero
  | None => fzero
  end.

(** [float(trans or 0) + float(food or 0) + float(pay or 0)] *)
Definition row_total (r : cells) : F :=
  let '(trans, fd, pay, _) := r in
  fadd (fadd (float_or_0 trans) (float_or_0 fd)) (float_or_0 pay).

Definition paid_of (r : cells) : option string := snd r.

Definition summary_step (acc : F * F) (r : cells) : F * F :=
  let '(total_paid, total_due_left) := acc in
  let total := row_total r in
  if is_paid (paid_of r) then (fadd total_paid total, total_due_left)
  else (total_paid, fadd total_due_left total).

Definition summarize (rows : list cells) : summary F :=
  let '(total_paid, total_due_left) := fold_left summary_step rows (fzero, fzero) in
  {| total_earnings := total_paid;
     amount_left := total_due_left;
     games_count := length rows |}.

(** A sum of row totals, added up in row order from zero. *)
Definition sum_totals (rows : list cells) : F :=
  fold_left (fun acc r => fadd acc (row_total r)) rows fzero.

End Totals.

(** Python's truth value of a float: false exactly for [0.0] and [-0.0]. *)
Definition float_truthy (x : float) : bool := negb (PrimFloat.eqb x 0%float).

Definition summarize64 : list (@cells float) -> summary float :=
  summarize PrimFloat.add 0%float float_truthy.

(** The four columns [get_summary] asks for. *)
Definition amounts_of_row (r : row) : @cells float :=
  (row_transportation r, row_food r, row_gamePayment r, row_paidStatus r).

(** [SELECT transportation, food, gamePayment, paidStatus FROM games
    WHERE season = ?] *)
Definition select_amounts (season : string) (t : list row) : list (@cells float) :=
  List.map amounts_of_row (Sql.select_season season t).

Definition zero_summary : summary float :=
  {| total_earnings := 0%float; amount_left := 0%float; games_count := 0 |}.

(** [get_summary]: the database only. *)
Definition get_summary (m : manager) (season : string) : summary float * manager :=
  match conn m with
  | None => (zero_summary, set_db_error m (Some "no database connection"))
  | Some c =>
      match execute (fun c => (Ok (select_amounts season (table c)), c)) c with
      | (Ok rows, c') => (summarize64 rows, set_db_error (set_conn m (Some c')) None)
      | (Raise msg, c') => (zero_summary, set_db_error (set_conn m (Some c')) (Some msg))
      end
  end.

(** ** Migration of the JSON files into the database *)

Definition marker_file : string := "imported_seasons.json".

Definition _read_markers (m : manager) : gset string :=
  match data_dir m !! marker_file with
  | Some (JSeasons s) => s
  | _ => ∅
  end.

Definition _write_markers (m : manager) (seasons : gset string) : manager :=
  write_file m marker_file (JSeasons seasons).

(** The game objects a file holds. *)
Definition read_games (m : manager) (fname : string) : list game :=
  match data_dir m !! fname with
  | Some (JGames gs) => gs
  | _ => []
  end.

(** What [for g in games] runs over, [games] being what [json.load] made
    of the season file, or [[]] when the file did not parse: the game
    objects of a list, and a [TypeError] when the file holds a scalar.  (An
    element that is no game object makes [add_game] raise before any
    statement is issued, which the loop catches: it adds nothing.) *)
Definition iterate (m : manager) (fname : string) : result (list game) :=
  match data_dir m !! fname with
  | Some (JScalar k) => Raise (not_iterable k)
  | _ => Ok (read_games m fname)
  end.

(** The marker check: [true] when the loop goes on to the next file. *)
Definition already_imported (m : manager) (markers : gset string) (season : string)
    : bool * manager :=
  if decide (season ∈ markers) then
    match conn m with
    | Some c =>
        match execute (fun c => (Ok (Sql.count_season season (table c)), c)) c with
        | (Ok n, c') => ((0 <? n)%nat, set_conn m (Some c'))
        | (Raise _, c') => (false, set_conn m (Some c'))
        end
    | None => (true, m)
    end
  else (false, m).

(** [DELETE FROM games WHERE season = ?] inside [try]. *)
Definition clear_season (m : manager) (season : string) : manager :=
  match conn m with
  | Some c =>
      set_conn m (Some (snd (execute
        (fun c => (Ok tt, with_table c (Sql.delete_season season (table c)))) c)))
  | None => m
  end.

(** [for g in games: try: self.add_game(season, g) except ...]: an add
    that raises is passed over (the [return] of the handler needs the
    connection to be gone, which no add brings about). *)
Definition add_all (m : manager) (season : string) (gs : list game) : manager :=
  fold_left (fun m g => snd (add_game m season g)) gs m.

(** One turn of the loop over the directory listing.  The statements sit
    in a [try] each; the [for] over what the file holds does not, and it
    comes after the season's rows were deleted. *)
Definition import_file (st : manager * gset string) (fname : string)
    : result unit * (manager * gset string) :=
  let '(m, markers) := st in
  if is_season_file fname then
    let season := season_of_file fname in
    let '(skip, m1) := already_imported m markers season in
    if skip then (Ok tt, (m1, markers))
    else
      let games := iterate m1 fname in
      let m2 := clear_season m1 season in
      match games with
      | Raise msg => (Raise msg, (m2, markers))
      | Ok gs =>
          let m3 := add_all m2 season gs in
          let markers' := {[season]} ∪ markers in
          (Ok tt, (_write_markers m3 markers', markers'))
      end
  else (Ok tt, st).

(** The loop: an exception ends it. *)
Fixpoint import_files (names : list string) (st : manager * gset string)
    : result unit * (manager * gset string) :=
  match names with
  | [] => (Ok tt, st)
  | fname :: rest =>
      match import_file st fname with
      | (Ok _, st') => import_files rest st'
      | (Raise msg, st') => (Raise msg, st')
      end
  end.

(** [import_json_to_db]: the loop over the listing, then [_dump_all]. *)
Definition import_json_to_db (m : manager) : result unit * manager :=
  match import_files (listdir (data_dir m)) (m, _read_markers m) with
  | (Ok _, (m', _)) => (Ok tt, _dump_all m')
  | (Raise msg, (m', _)) => (Raise msg, m')
  end.

(** ** Schema, deduplication and construction *)

(** [_ensure_schema]: [CREATE TABLE IF NOT EXISTS]; on an error the
    message is kept and the connection dropped. *)
Definition _ensure_schema (m : manager) : manager :=
  match conn m with
  | None => m
  | Some c =>
      match execute (fun c => (Ok tt, c)) c with
      | (Ok _, c') => set_conn m (Some c')
      | (Raise msg, _) => set_conn (set_db_error m (Some msg)) None
      end
  end.

Definition row_key (r : row) : string * option string :=
  (row_season r, row_gameNumber r).

(** The order of the index on [(season, gameNumber)]. *)
Definition key_le (a b : string * option string) : bool :=
  match String.compare (fst a) (fst b) with
  | Lt => true
  | Eq => Sql.text_le (snd a) (snd b)
  | Gt => false
  end.

(** [SELECT id, season, gameNumber FROM games]: the index holds the three
    columns, and the engine scans it rather than the table. *)
Definition scan_index (t : list row) : list row := sort_by row_key key_le t.

(** The scan of [_dedupe_db]: the ids of the rows whose key was seen. *)
Fixpoint to_delete (seen : gset (string * option string)) (rows : list row) : list Z :=
  match rows with
  | [] => []
  | r :: rest =>
      if decide (row_key r ∈ seen) then row_id r :: to_delete seen rest
      else to_delete ({[row_key r]} ∪ seen) rest
  end.

(** [DELETE FROM games WHERE id = ?] inside [try ... except: pass]. *)
Definition delete_by_id (c : connection) (i : Z) : connection :=
  snd (execute (fun c => (Ok tt, with_table c (Sql.delete_id i (table c)))) c).

(** [_dedupe_db]: the [SELECT] is not inside a [try], the deletes are. *)
Definition _dedupe_db (m : manager) : result unit * manager :=
  match conn m with
  | None => (Ok tt, m)
  | Some c =>
      match execute (fun c => (Ok (scan_index (table c)), c)) c with
      | (Raise msg, c') => (Raise msg, set_conn m (Some c'))
      | (Ok rows, c') =>
          (Ok tt, set_conn m (Some (fold_left delete_by_id (to_delete ∅ rows) c')))
      end
  end.

(** [GameDataManager(db_conn=...)], or [GameDataManager(db_path=...)] with
    [db] the connection that [sqlite3.connect] opens, or
    [GameDataManager()] with [db = None], on a data directory [files].  A
    migration that raises costs the connection and leaves its message in
    [db_error]; [_dedupe_db] is not inside any [try]. *)
Definition __init__ (files : gmap string json_file) (db : option connection)
    : result manager :=
  let m0 := {| data_dir := files; conn := None; db_error := None |} in
  let m1 := match db with
            | Some c => _ensure_schema (set_conn m0 (Some c))
            | None => m0
            end in
  let m2 := match conn m1 with
            | Some _ =>
                match import_json_to_db m1 with
                | (Ok _, m) => m
                | (Raise msg, m) => set_conn (set_db_error m (Some msg)) None
                end
            | None => m1
            end in
  match (match conn m2 with
         | Some _ => _dedupe_db m2
         | None => (Ok tt, m2)
         end) with
  | (Ok _, m3) => Ok (_dump_all m3)
  | (Raise msg, _) => Raise msg
  end.

(** ** The application window ([app/main.py]): what it reads off the manager *)

Definition default_season : string := "2025/2026".

(** The order of [sorted] on strings: code point by code point. *)
Definition string_le (a b : string) : Prop := String.leb a b = true.

#[global] Instance string_le_dec : RelDecision string_le :=
  fun a b => decide (String.leb a b = true).

(** [sorted(seasons)] *)
Definition sorted (seasons : list string) : list string :=
  merge_sort string_le seasons.

(** [if not seasons: seasons = ["2025/2026"]] *)
Definition or_default (seasons : list string) : list string :=
  match seasons with
  | [] => [default_season]
  | _ => seasons
  end.

(** [RefereeApp.get_seasons]: with a connection
    [SELECT DISTINCT season FROM games ORDER BY season], outside any [try];
    without one the seasons of the season files of the directory. *)
Definition get_seasons (m : manager) : result (list string) * manager :=
  match conn m with
  | Some c =>
      let '(r, c') :=
        execute (fun c => (Ok (remove_dups (List.map row_season (table c))), c)) c in
      (match r with
       | Ok seasons => Ok (sorted (or_default seasons))
       | Raise msg => Raise msg
       end,
       set_conn m (Some c'))
  | None =>
      (Ok (sorted (or_default
             (List.map season_of_file
                (List.filter is_season_file (listdir (data_dir m)))))),
       m)
  end.

(** The amounts [RefereeApp.refresh_table] shows for a record:
    [float(g.get(key, 0))] for the three amounts, where a null value makes
    [float] raise and the [except] branch sets the total to [0.0]. *)
Definition display_total (g : game) : float :=
  match get_amount (transportation g), get_amount (food g), get_amount (gamePayment g) with
  | Some t, Some f, Some p => (t + f + p)%float
  | _, _, _ => 0%float
  end.

(** [str(g.get('paidStatus', '')).lower() == 'yes'] (a missing key gives
    [''] and a null value ['None']: neither is "yes"). *)
Definition display_paid (g : game) : bool :=
  String.eqb (Str.lower (match paidStatus g with Some s => s | None => "None" end)) "yes".

(** The columns "totalEarnings" and "amountLeft" of a table line. *)
Definition display_row (g : game) : float * float :=
  let total := display_total g in
  (if display_paid g then total else 0%float,
   if display_paid g then 0%float else total).

(** * Vocabulary of the properties, and sample data *)

(** ** Statements and the state of the connection *)

(** The message the next statement raises, if the schedule makes it raise. *)
Definition next_fault (c : connection) : option string :=
  match faults c with
  | Some msg :: _ => Some msg
  | _ => None
  end.

(** The connection once one statement has been issued. *)
Definition advance (c : connection) : connection :=
  with_faults c (tl (faults c)).

Definition attached (m : manager) : Prop := is_Some (conn m).

(** [m'] still has a connection if [m] had one, and the same [db_error]. *)
Definition db_frame (m m' : manager) : Prop :=
  db_error m' = db_error m /\ (attached m -> attached m').

Definition healthy (m : manager) : Prop :=
  exists c, conn m = Some c /\ faults c = [].

(** The rows of the manager's table ([[]] without a connection). *)
Definition db_table (m : manager) : list row :=
  match conn m with
  | Some c => table c
  | None => []
  end.

(** The export of a table: what [_dump_all] writes. *)
Definition export_of (t : list row) : json_file := JGames (List.map _row_to_game t).

(** The backup of a season: what [_dump_json] writes. *)
Definition backup_of (season : string) (t : list row) : json_file :=
  JGames (List.map _row_to_game (Sql.select_season season t)).

(** What a delete-then-insert does to a working connection. *)
Definition upsert (season : string) (g : game) (c : connection) : connection :=
  {| sqlite := sqlite c;
     table := Sql.delete_key season (gameNumber g) (table c)
              ++ [Sql.new_row (next_id c) season g];
     next_id := (next_id c + 1)%Z;
     faults := faults c |}.

Definition no_db_error_attribute : string :=
  "'GameDataManager' object has no attribute 'db_error'".

(** ** Order *)

(** A list in the order of its keys. *)
Definition ordered {A K : Type} (key : A -> K) (le : K -> K -> bool) (l : list A) : Prop :=
  StronglySorted (fun x y => le (key x) (key y) = true) l.

(** ** Keys *)

Definition unique_keys (t : list row) : Prop := NoDup (row_key <$> t).

(** The table with, for each key, only the first row that carries it. *)
Fixpoint first_per_key (seen : gset (string * option string)) (rows : list row)
    : list row :=
  match rows with
  | [] => []
  | r :: rest =>
      if decide (row_key r ∈ seen) then first_per_key seen rest
      else r :: first_per_key ({[row_key r]} ∪ seen) rest
  end.

Definition not_listed (ids : list Z) (r : row) : bool :=
  negb (bool_decide (row_id r ∈ ids)).
Arguments not_listed : simpl never.

(** ** Sums of row totals *)

Definition sum_totals64 : list (@cells float) -> float :=
  sum_totals PrimFloat.add 0%float float_truthy.

(** Two binary64 numbers that are not the same number. *)
Definition differ (x y : float) : bool :=
  negb (PrimFloat.eqb x y) && PrimFloat.eqb y y.

Section TotalsVocabulary.

Context {F : Type}.
Variable fadd : F -> F -> F.
Variable fzero : F.
Variable ftruthy : F -> bool.

Definition paid_row (r : @cells F) : bool := is_paid (paid_of r).

Definition unpaid_row (r : @cells F) : bool := negb (is_paid (paid_of r)).

Definition add_total (acc : F) (r : @cells F) : F :=
  fadd acc (row_total fadd fzero ftruthy r).

End TotalsVocabulary.

(** ** Migration *)

(** No season file of the directory holds a scalar. *)
Definition iterable (d : gmap string json_file) : Prop :=
  forall fname k, is_season_file fname = true -> d !! fname <> Some (JScalar k).

(** Every file that holds a scalar in [d'] held it in [d]. *)
Definition no_new_scalar (d d' : gmap string json_file) : Prop :=
  forall fname k, d' !! fname = Some (JScalar k) -> d !! fname = Some (JScalar k).

(** A season file needs no further import: its season is marked, and the
    table holds rows for it or the file holds nothing to go through. *)
Definition settled (m : manager) (markers : gset string) (fname : string) : Prop :=
  (season_of_file fname ∈ markers) /\
  ((0 < Sql.count_season (season_of_file fname) (db_table m))%nat \/
   iterate m fname = Ok []).

(** The state of the loop with [names] still to visit. *)
Definition migrating (names : list string) (st : manager * gset string) : Prop :=
  healthy (fst st) /\
  _read_markers (fst st) = snd st /\
  (forall fname,
     is_Some (data_dir (fst st) !! fname) -> is_season_file fname = true ->
     (fname ∈ names) \/ settled (fst st) (snd st) fname).

(** ** Sample data *)

Definition season_2025 : string := "2025/2026".

(** [{gameNumber: "1", date: "2025-09-01", location: "Field A",
     transportation: 10, food: 5, gamePayment: 50, paidStatus: "No"}] *)
Definition field_a_game : game :=
  {| season_key := None;
     gameNumber := Some "1";
     date := Some "2025-09-01";
     location := Some "Field A";
     transportation := Amount 10;
     food := Amount 5;
     gamePayment := Amount 50;
     paidStatus := Some "No";
     observations := None;
     paymentDate := None |}.

Definition field_b_game : game :=
  {| season_key := None;
     gameNumber := Some "2";
     date := Some "2025-09-08";
     location := Some "Field B";
     transportation := Amount 12;
     food := Missing;
     gamePayment := Amount 40;
     paidStatus := Some "Yes";
     observations := Some "derby";
     paymentDate := None |}.

(** A record whose amounts are NaN, [-0.0] and missing. *)
Definition odd_amounts_game : game :=
  {| season_key := None;
     gameNumber := Some "3";
     date := Some "2025-09-15";
     location := Some "Field C";
     transportation := Amount PrimFloat.nan;
     food := Amount PrimFloat.neg_zero;
     gamePayment := Missing;
     paidStatus := Some "No";
     observations := None;
     paymentDate := None |}.

Definition empty_db (sq : bool) : connection :=
  {| sqlite := sq; table := []; next_id := 1; faults := [] |}.

(** A JSON-only manager whose season file already holds one record. *)
Definition json_manager_one_game : manager :=
  {| data_dir := {[ get_season_file season_2025 := JGames [field_a_game] ]};
     conn := None;
     db_error := None |}.

Definition db_manager_one_row : manager :=
  {| data_dir := ∅;
     conn := Some {| sqlite := true;
                     table := [Sql.new_row 1 season_2025 field_a_game];
                     next_id := 2;
                     faults := [] |};
     db_error := None |}.

(** A manager whose connection fails the next statement. *)
Definition locked_db_manager : manager :=
  {| data_dir := ∅;
     conn := Some {| sqlite := true;
                     table := [Sql.new_row 1 season_2025 field_a_game];
                     next_id := 2;
                     faults := [Some "database is locked"] |};
     db_error := None |}.

Definition two_game_directory : gmap string json_file :=
  {[ get_season_file season_2025 := JGames [field_a_game; field_b_game] ]}.

(** A database attached to a directory with one season file of two games. *)
Definition fresh_db_manager : manager :=
  {| data_dir := two_game_directory; conn := Some (empty_db true); db_error := None |}.

Definition summary_0_65_1 : summary float :=
  {| total_earnings := 0%float; amount_left := 65%float; games_count := 1 |}.

(** Four games of one season: 13.1 and 6.1 paid, 25.4 and 39.0 unpaid
    (the amounts are written as the binary64 numbers Python reads). *)
Definition rounding_table : list row :=
  [ {| row_id := 1; row_season := season_2025; row_gameNumber := Some "1";
       row_date := Some "2025-09-01"; row_location := Some "Field A";
       row_transportation := Some 0%float; row_food := Some 0%float;
       row_gamePayment := Some 0x1.a333333333333p+3%float;
       row_paidStatus := Some "Yes" |};
    {| row_id := 2; row_season := season_2025; row_gameNumber := Some "2";
       row_date := Some "2025-09-08"; row_location := Some "Field B";
       row_transportation := None; row_food := None;
       row_gamePayment := Some 0x1.8666666666666p+2%float;
       row_paidStatus := Some "yes" |};
    {| row_id := 3; row_season := season_2025; row_gameNumber := Some "3";
       row_date := Some "2025-09-15"; row_location := Some "Field C";
       row_transportation := None; row_food := None;
       row_gamePayment := Some 0x1.9666666666666p+4%float;
       row_paidStatus := Some "No" |};
    {| row_id := 4; row_season := season_2025; row_gameNumber := Some "4";
       row_date := Some "2025-09-22"; row_location := Some "Field D";
       row_transportation := None; row_food := None;
       row_gamePayment := Some 39%float;
       row_paidStatus := None |} ].

Definition rounding_manager : manager :=
  {| data_dir := ∅;
     conn := Some {| sqlite := true; table := rounding_table; next_id := 5; faults := [] |};
     db_error := None |}.

(** A table in which game "1" of the season was inserted twice. *)
Definition duplicated_table : list row :=
  [ Sql.new_row 1 season_2025 field_a_game;
    Sql.new_row 2 season_2025 field_a_game;
    Sql.new_row 3 season_2025 field_b_game ].

Definition duplicated_manager : manager :=
  {| data_dir := ∅;
     conn := Some {| sqlite := false; table := duplicated_table; next_id := 4; faults := [] |};
     db_error := None |}.

(** ** Records as the table gives them back *)

(** [a in s] for a character. *)
Fixpoint mentions (a : ascii) (s : string) : bool :=
  match s with
  | EmptyString => false
  | String c r => Ascii.eqb c a || mentions a r
  end.

(** What [load_games] returns for a record that was added to [season]. *)
Definition stored (season : string) (g : game) : game :=
  _row_to_game (Sql.new_row 0 season g).

(** What [load_games] returns for the record [old] once [update_game] has
    applied [g] to its row. *)
Definition edited (g old : game) : game :=
  {| season_key := season_key old;
     gameNumber := gameNumber old;
     date := date g;
     location := location g;
     transportation := transportation (stored "" g);
     food := food (stored "" g);
     gamePayment := gamePayment (stored "" g);
     paidStatus := paidStatus g;
     observations := None;
     paymentDate := None |}.

(** An amount once it went through a REAL column and came back: a missing
    one is [0.0], NaN is null, and [-0.0] is [0.0]. *)
Definition stored_amount (a : money) : money :=
  match a with
  | Missing => Amount 0%float
  | Null => Null
  | Amount x =>
      if negb (PrimFloat.eqb x x) then Null
      else if PrimFloat.eqb x 0%float then Amount 0%float
      else Amount x
  end.

(** Records in the order of their game numbers, those without a number
    first. *)
Definition in_number_order (gs : list game) : list game :=
  sort_by gameNumber Sql.text_le gs.

(** The rows that inserting [gs] one after the other gives, from id [i] on. *)
Fixpoint fresh_rows (i : Z) (season : string) (gs : list game) : list row :=
  match gs with
  | [] => []
  | g :: rest => Sql.new_row i season g :: fresh_rows (i + 1) season rest
  end.

(** No row of the table carries the key of one of the records. *)
Definition keys_free (season : string) (gs : list game) (t : list row) : Prop :=
  forall r g, In r t -> In g gs -> Sql.has_key season (gameNumber g) r = false.

(** The tuple [get_summary] fetches for a row, read off the record
    [load_games] returns for it. *)
Definition amount_cell (a : money) : option float :=
  match a with
  | Amount x => Some x
  | _ => None
  end.

Definition game_cells (g : game) : @cells float :=
  (amount_cell (transportation g), amount_cell (food g),
   amount_cell (gamePayment g), paidStatus g).

(** The ids of the table are distinct and below the next id to be given. *)
Definition ids_fresh (c : connection) : Prop :=
  NoDup (row_id <$> table c) /\
  (forall r, r ∈ table c -> (row_id r < next_id c)%Z).

(** A working database with fresh ids. *)
Definition well_kept (m : manager) : Prop :=
  exists c, conn m = Some c /\ faults c = [] /\ ids_fresh c.

(** A binary64 number that [x or 0] leaves as it is: any but [-0.0]. *)
Definition kept_by_or (x : float) : Prop :=
  float_or_0 0%float float_truthy (Some x) = x.

Definition row_total64 : @cells float -> float :=
  row_total PrimFloat.add 0%float float_truthy.

(** The connection of [locked_db_manager]. *)
Definition locked_db : connection :=
  {| sqlite := true;
     table := [Sql.new_row 1 season_2025 field_a_game];
     next_id := 2;
     faults := [Some "database is locked"] |}.

(** The connection of [db_manager_one_row]. *)
Definition one_row_db : connection :=
  {| sqlite := true;
     table := [Sql.new_row 1 season_2025 field_a_game];
     next_id := 2;
     faults := [] |}.

(** The connection of [duplicated_manager]. *)
Definition duplicated_db : connection :=
  {| sqlite := false; table := duplicated_table; next_id := 4; faults := [] |}.

Definition unique_violation : string :=
  "UNIQUE constraint failed: games.season, games.gameNumber".

(** A connection whose first two statements go through and whose third
    raises. *)
Definition third_statement_fails : connection :=
  {| sqlite := true;
     table := [Sql.new_row 1 season_2025 field_a_game];
     next_id := 2;
     faults := [None; None; Some "disk I/O error"] |}.

(** A connection whose [DELETE] goes through and whose [INSERT] raises. *)
Definition insert_fails : connection :=
  {| sqlite := true;
     table := [Sql.new_row 1 season_2025 field_a_game];
     next_id := 2;
     faults := [None; Some "disk I/O error"] |}.

(** * Properties *)

(** ** Statements and the fault schedule *)

Lemma with_faults_same (c : connection) : with_faults c (faults c) = c.
Proof. by destruct c. Qed.

Lemma execute_spec {A} (sem : connection -> result A * connection) (c : connection) :
  execute sem c =
  match next_fault c with
  | Some msg => (Raise msg, advance c)
  | None => sem (advance c)
  end.
Proof.
  unfold execute, next_fault, advance.
  destruct (faults c) as [|[msg|] f] eqn:E; simpl; try done.
  by rewrite <- E, with_faults_same.
Qed.

Lemma advance_healthy (c : connection) : faults c = [] -> advance c = c.
Proof. destruct c. unfold advance. simpl. by intros ->. Qed.

Lemma execute_healthy {A} (sem : connection -> result A * connection) (c : connection) :
  faults c = [] -> execute sem c = sem c.
Proof. intros E. unfold execute. by rewrite E. Qed.

(** ** Reading through an index *)

Section IndexOrderFacts.
Context {A K : Type}.
Variable key : A -> K.
Variable le : K -> K -> bool.

Lemma insert_by_Permutation (x : A) (l : list A) : insert_by key le x l ≡ₚ x :: l.
Proof.
  induction l as [|y l IH]; [done|]. simpl.
  destruct (le (key x) (key y)); [done|]. rewrite IH. apply Permutation_swap.
Qed.

Lemma sort_by_Permutation (l : list A) : sort_by key le l ≡ₚ l.
Proof.
  induction l as [|x l IH]; [done|]. simpl.
  by rewrite insert_by_Permutation, IH.
Qed.

Lemma sort_by_length (l : list A) : length (sort_by key le l) = length l.
Proof. apply Permutation_length, sort_by_Permutation. Qed.

Lemma sort_by_elem_of (x : A) (l : list A) : x ∈ sort_by key le l <-> x ∈ l.
Proof. by rewrite sort_by_Permutation. Qed.

Lemma sort_by_In (x : A) (l : list A) : In x (sort_by key le l) <-> In x l.
Proof. rewrite <- !list_elem_of_In. apply sort_by_elem_of. Qed.

Hypothesis le_total : forall a b, le a b = true \/ le b a = true.
Hypothesis le_trans : forall a b c, le a b = true -> le b c = true -> le a c = true.

Lemma insert_by_front (x : A) (l : list A) :
  Forall (fun y => le (key x) (key y) = true) l -> insert_by key le x l = x :: l.
Proof. destruct l as [|y l]; [done|]. simpl. intros F%Forall_cons_1. by destruct F as [-> _]. Qed.

Lemma insert_by_ordered (x : A) (l : list A) :
  ordered key le l -> ordered key le (insert_by key le x l).
Proof.
  induction 1 as [|y l S IH F]; simpl.
  - repeat constructor.
  - destruct (le (key x) (key y)) eqn:L.
    + constructor; [by constructor|]. constructor; [done|].
      eapply Forall_impl; [exact F|]. simpl. intros z Hz. by eapply le_trans.
    + constructor; [done|].
      rewrite insert_by_Permutation. constructor; [|done].
      destruct (le_total (key x) (key y)); congruence.
Qed.

Lemma sort_by_ordered (l : list A) : ordered key le (sort_by key le l).
Proof.
  induction l as [|x l IH]; [constructor|]. simpl. by apply insert_by_ordered.
Qed.

Lemma ordered_filter (p : A -> bool) (l : list A) :
  ordered key le l -> ordered key le (List.filter p l).
Proof.
  induction 1 as [|y l S IH F]; simpl; [constructor|].
  destruct (p y); [|done]. constructor; [done|].
  apply Forall_forall. intros z Hz. rewrite Forall_forall in F. apply F.
  apply list_elem_of_In. apply list_elem_of_In, List.filter_In in Hz. tauto.
Qed.

Lemma filter_insert_by (p : A -> bool) (x : A) (l : list A) :
  ordered key le l ->
  List.filter p (insert_by key le x l)
  = if p x then insert_by key le x (List.filter p l) else List.filter p l.
Proof.
  induction 1 as [|y l S IH F]; simpl.
  - by destruct (p x).
  - destruct (le (key x) (key y)) eqn:L.
    + simpl. destruct (p x); [|done].
      symmetry. apply insert_by_front.
      assert (Forall (fun z => le (key x) (key z) = true) (y :: l)) as F'.
      { constructor; [done|]. eapply Forall_impl; [exact F|]. simpl.
        intros z Hz. by eapply le_trans. }
      apply Forall_forall. intros z Hz. rewrite Forall_forall in F'. apply F'.
      apply list_elem_of_In. apply list_elem_of_In in Hz.
      change (In z (List.filter p (y :: l))) in Hz. apply List.filter_In in Hz. tauto.
    + simpl. rewrite IH. destruct (p y), (p x); simpl; rewrite ?L; done.
Qed.

(** The index keeps what a filter keeps: restricting the rows and reading
    them in index order is reading them in index order and restricting. *)
Lemma sort_by_filter (p : A -> bool) (l : list A) :
  sort_by key le (List.filter p l) = List.filter p (sort_by key le l).
Proof.
  induction l as [|x l IH]; [done|]. simpl.
  rewrite filter_insert_by by apply sort_by_ordered.
  destruct (p x); simpl; by rewrite IH.
Qed.

Lemma sort_by_of_ordered (l : list A) : ordered key le l -> sort_by key le l = l.
Proof.
  induction 1 as [|y l S IH F]; [done|]. simpl. rewrite IH. by apply insert_by_front.
Qed.

End IndexOrderFacts.

Lemma sort_by_map {A B K} (keyA : A -> K) (keyB : B -> K) (le : K -> K -> bool)
    (f : A -> B) (l : list A) :
  (forall x, keyB (f x) = keyA x) ->
  sort_by keyB le (List.map f l) = List.map f (sort_by keyA le l).
Proof.
  intros E. induction l as [|x l IH]; [done|]. simpl. rewrite IH.
  generalize (sort_by keyA le l). intros s.
  induction s as [|y s IHs]; [done|]. simpl. rewrite !E.
  destruct (le (keyA x) (keyA y)); [done|]. simpl. by rewrite IHs.
Qed.

(** The order of an index is a total preorder. *)
Lemma ascii_compare_refl (a : ascii) : Ascii.compare a a = Eq.
Proof. apply N.compare_refl. Qed.

Lemma string_compare_refl (s : string) : String.compare s s = Eq.
Proof. induction s as [|a s IH]; [done|]. simpl. by rewrite ascii_compare_refl. Qed.

Lemma string_compare_lt_trans (a b c : string) :
  String.compare a b = Lt -> String.compare b c = Lt -> String.compare a c = Lt.
Proof.
  revert b c. induction a as [|x a IH]; intros [|y b] [|z c]; simpl; try done.
  unfold Ascii.compare.
  destruct (N.compare_spec (N_of_ascii x) (N_of_ascii y)) as [E1|L1|G1]; try done;
  destruct (N.compare_spec (N_of_ascii y) (N_of_ascii z)) as [E2|L2|G2]; try done; intros H1 H2.
  - rewrite E1, E2, N.compare_refl. by eapply IH.
  - rewrite E1. by apply N.compare_lt_iff in L2 as ->.
  - rewrite <- E2. by apply N.compare_lt_iff in L1 as ->.
  - assert (N_of_ascii x < N_of_ascii z)%N as L by lia. by apply N.compare_lt_iff in L as ->.
Qed.

Lemma string_leb_trans (a b c : string) :
  String.leb a b = true -> String.leb b c = true -> String.leb a c = true.
Proof.
  unfold String.leb.
  destruct (String.compare a b) eqn:E1; [| |done];
  destruct (String.compare b c) eqn:E2; try done; intros _ _.
  - apply String.compare_eq_iff in E1, E2. subst. by rewrite string_compare_refl.
  - apply String.compare_eq_iff in E1. subst. by rewrite E2.
  - apply String.compare_eq_iff in E2. subst. by rewrite E1.
  - by rewrite (string_compare_lt_trans a b c).
Qed.

Lemma text_le_total (a b : option string) : Sql.text_le a b = true \/ Sql.text_le b a = true.
Proof. destruct a, b; simpl; auto. apply String.leb_total. Qed.

Lemma text_le_trans (a b c : option string) :
  Sql.text_le a b = true -> Sql.text_le b c = true -> Sql.text_le a c = true.
Proof. destruct a, b, c; simpl; try done. apply string_leb_trans. Qed.

Lemma text_le_refl (a : option string) : Sql.text_le a a = true.
Proof. by destruct (text_le_total a a). Qed.

Lemma key_le_total (a b : string * option string) : key_le a b = true \/ key_le b a = true.
Proof.
  unfold key_le. rewrite (String.compare_antisym (fst b)).
  destruct (String.compare a.1 b.1); simpl; auto. apply text_le_total.
Qed.

Lemma key_le_trans (a b c : string * option string) :
  key_le a b = true -> key_le b c = true -> key_le a c = true.
Proof.
  unfold key_le.
  destruct (String.compare a.1 b.1) eqn:E1; [| |done];
  destruct (String.compare b.1 c.1) eqn:E2; try done.
  - apply String.compare_eq_iff in E1, E2. rewrite E1, E2, string_compare_refl.
    apply text_le_trans.
  - apply String.compare_eq_iff in E1. by rewrite E1, E2.
  - apply String.compare_eq_iff in E2. by rewrite <- E2, E1.
  - by rewrite (string_compare_lt_trans _ _ _ E1 E2).
Qed.

Lemma by_number_filter (p : row -> bool) (l : list row) :
  Sql.by_number (List.filter p l) = List.filter p (Sql.by_number l).
Proof. apply sort_by_filter; [apply text_le_total | apply text_le_trans]. Qed.

Lemma by_number_map (f : row -> row) (l : list row) :
  (forall r, row_gameNumber (f r) = row_gameNumber r) ->
  Sql.by_number (List.map f l) = List.map f (Sql.by_number l).
Proof. apply sort_by_map. Qed.

Lemma select_season_Permutation (s : string) (t : list row) :
  Permutation (Sql.select_season s t) (List.filter (Sql.in_season s) t).
Proof. apply sort_by_Permutation. Qed.

Lemma select_season_In (r : row) (s : string) (t : list row) :
  In r (Sql.select_season s t) <-> In r t /\ Sql.in_season s r = true.
Proof. unfold Sql.select_season, Sql.by_number. by rewrite sort_by_In, List.filter_In. Qed.

Lemma select_season_length (s : string) (t : list row) :
  length (Sql.select_season s t) = Sql.count_season s t.
Proof. apply sort_by_length. Qed.

(** ** File names *)

Lemma season_file_not_export (season : string) :
  get_season_file season <> "all_games.json".
Proof. unfold get_season_file. simpl. discriminate. Qed.

(** ** JSON-only mode *)

Lemma load_games_json (m : manager) (season : string) :
  conn m = None ->
  load_games m season = ([], set_db_error m (Some "no database connection")).
Proof. intros E. unfold load_games. by rewrite E. Qed.

Lemma add_game_json (m : manager) (season : string) (g : game) :
  conn m = None ->
  add_game m season g =
  (Ok tt,
   _dump_all (write_file (set_db_error m (Some "no database connection"))
                         (get_season_file season) (JGames [g]))).
Proof.
  intros E. unfold add_game. rewrite E, (load_games_json _ _ E).
  unfold save_games. simpl. by rewrite E.
Qed.

Lemma dump_all_lookup (m : manager) (path : string) :
  path <> "all_games.json" ->
  data_dir (_dump_all m) !! path = data_dir m !! path.
Proof.
  intros N. unfold _dump_all.
  destruct (conn m) as [c|]; [destruct (execute _ c) as [[rows|msg] c']|];
    simpl; by rewrite lookup_insert_ne.
Qed.

Lemma add_game_json_overwrites_file (m : manager) (season : string) (g : game) :
  conn m = None ->
  exists m',
    add_game m season g = (Ok tt, m') /\
    conn m' = None /\
    data_dir m' !! get_season_file season = Some (JGames [g]).
Proof.
  intros E. eexists. split; [by apply add_game_json|]. split.
  - unfold _dump_all. simpl. by rewrite E.
  - rewrite dump_all_lookup by apply season_file_not_export.
    simpl. by rewrite lookup_insert_eq.
Qed.

(** C10: in JSON-only mode [add_game] leaves the season's file holding
    exactly the record just added, whatever the file held before, because
    the list it appends to is the empty list [load_games] returns without
    reading the file; the call raises nothing. *)
Theorem add_game_json_overwrites_season_file (m : manager) (season : string) (g : game) :
  conn m = None ->
  fst (load_games m season) = [] /\
  exists m',
    add_game m season g = (Ok tt, m') /\
    conn m' = None /\
    data_dir m' !! get_season_file season = Some (JGames [g]).
Proof.
  intros E. split.
  - by rewrite load_games_json.
  - by apply add_game_json_overwrites_file.
Qed.

(** The add of game "2" to a season file that held game "1". *)
Lemma add_game_json_overwrites_witness :
  data_dir json_manager_one_game !! get_season_file season_2025
    = Some (JGames [field_a_game]) /\
  exists m',
    add_game json_manager_one_game season_2025 field_b_game = (Ok tt, m') /\
    data_dir m' !! get_season_file season_2025 = Some (JGames [field_b_game]).
Proof.
  split; [reflexivity|].
  destruct (add_game_json_overwrites_season_file
              json_manager_one_game season_2025 field_b_game eq_refl)
    as [_ [m' [H1 [_ H3]]]].
  exists m'. split; assumption.
Defined.

(** ** [load_games] *)

Lemma load_games_db (m : manager) (c : connection) (season : string) :
  conn m = Some c ->
  load_games m season =
  match next_fault c with
  | None =>
      (List.map _row_to_game (Sql.select_season season (table c)),
       set_db_error (set_conn m (Some (advance c))) None)
  | Some msg => ([], set_db_error (set_conn m (Some (advance c))) (Some msg))
  end.
Proof.
  intros E. unfold load_games, _db_load_games. rewrite E, execute_spec.
  by destruct (next_fault c).
Qed.

(** C2, as stated, fails: with no connection and a season file holding one
    record, [load_games] returns the empty list, not the file's records. *)
Lemma load_games_json_ignores_file :
  conn json_manager_one_game = None /\
  read_games json_manager_one_game (get_season_file season_2025) = [field_a_game] /\
  fst (load_games json_manager_one_game season_2025)
    <> read_games json_manager_one_game (get_season_file season_2025).
Proof. repeat split. vm_compute. discriminate. Qed.

(** C2, amended: over a connection whose query goes through, [load_games]
    returns the records of the table's rows of that season, one for each
    row and no other, and sets [db_error] to [None]; with no connection it
    returns [[]] whether or not a season file exists, never reading it, and
    sets [db_error] to "no database connection". *)
Theorem load_games_returns_season_rows (m : manager) (season : string) :
  (forall c, conn m = Some c -> next_fault c = None ->
     Permutation (fst (load_games m season))
       (List.map _row_to_game (List.filter (Sql.in_season season) (table c))) /\
     (forall r, In r (table c) -> row_season r = season ->
        In (_row_to_game r) (fst (load_games m season))) /\
     db_error (snd (load_games m season)) = Some None) /\
  (conn m = None ->
     fst (load_games m season) = [] /\
     data_dir (snd (load_games m season)) = data_dir m /\
     db_error (snd (load_games m season)) = Some (Some "no database connection")).
Proof.
  split.
  - intros c E H. rewrite (load_games_db _ _ _ E), H. simpl.
    split; [apply Permutation_map, select_season_Permutation|]. split; [|done].
    intros r Hin Hs. apply in_map. apply select_season_In. split; [done|].
    unfold Sql.in_season. by apply String.eqb_eq.
  - intros E. by rewrite load_games_json.
Qed.

(** One row in the table and one record in a file nobody reads. *)
Lemma load_games_returns_season_rows_witness :
  fst (load_games db_manager_one_row season_2025)
    = [_row_to_game (Sql.new_row 1 season_2025 field_a_game)] /\
  fst (load_games json_manager_one_game season_2025) = [].
Proof.
  split.
  - destruct (load_games_returns_season_rows db_manager_one_row season_2025) as [H _].
    destruct (H _ eq_refl eq_refl) as [H1 _].
    apply Permutation_sym, Permutation_length_1_inv in H1. exact H1.
  - destruct (load_games_returns_season_rows json_manager_one_game season_2025) as [_ H].
    destruct (H eq_refl) as [H1 _]. exact H1.
Defined.

(** ** The scenario of the empty data directory *)

(** C3, as stated, fails: after the add in JSON-only mode [get_summary]
    does not return [{total_earnings: 0.0, amount_left: 65.0,
    games_count: 1}]. *)
Lemma json_scenario_summary_is_not_65 :
  exists m0 m1,
    __init__ ∅ None = Ok m0 /\
    add_game m0 season_2025 field_a_game = (Ok tt, m1) /\
    fst (get_summary m1 season_2025) <> summary_0_65_1.
Proof.
  do 2 eexists. split; [reflexivity|]. split; [reflexivity|].
  vm_compute. discriminate.
Qed.

(** C3, amended: from an empty data directory with no connection,
    [load_games] returns [[]]; after the add the season file holds the
    record, and [get_summary], which reads only the database, returns the
    all-zero summary and sets [db_error] to "no database connection".  The
    summary [{0.0, 65.0, 1}] is what the same add gives on an empty working
    database, of either kind. *)
Theorem empty_directory_scenario :
  (exists m0 m1,
     __init__ ∅ None = Ok m0 /\
     conn m0 = None /\
     fst (load_games m0 season_2025) = [] /\
     add_game m0 season_2025 field_a_game = (Ok tt, m1) /\
     data_dir m1 !! get_season_file season_2025 = Some (JGames [field_a_game]) /\
     fst (get_summary m1 season_2025) = zero_summary /\
     db_error (snd (get_summary m1 season_2025))
       = Some (Some "no database connection")) /\
  (forall sq, exists d0 d1,
     __init__ ∅ (Some (empty_db sq)) = Ok d0 /\
     fst (load_games d0 season_2025) = [] /\
     add_game d0 season_2025 field_a_game = (Ok tt, d1) /\
     fst (get_summary d1 season_2025) = summary_0_65_1).
Proof.
  split.
  - do 2 eexists. repeat split; reflexivity.
  - intros sq. do 2 eexists.
    destruct sq; (split; [reflexivity|]); (split; [reflexivity|]);
      (split; [reflexivity|]); vm_compute; reflexivity.
Qed.

(** ** What the operations leave alone: [db_error] and the connection *)

Lemma db_frame_refl (m : manager) : db_frame m m.
Proof. by split. Qed.

Lemma db_frame_trans (m1 m2 m3 : manager) :
  db_frame m1 m2 -> db_frame m2 m3 -> db_frame m1 m3.
Proof. intros [E1 A1] [E2 A2]. split; [congruence | auto]. Qed.

Ltac exec_cases :=
  repeat match goal with
         | |- context [execute ?sem ?c] =>
             rewrite (execute_spec sem c); destruct (next_fault c); simpl
         end.

Lemma dump_all_frame (m : manager) : db_frame m (_dump_all m).
Proof.
  unfold _dump_all, db_frame, attached.
  destruct (conn m) as [c|] eqn:E; exec_cases; (split; simpl; [done|]);
    rewrite ?E; eauto.
Qed.

Lemma dump_json_frame (m : manager) (season : string) : db_frame m (_dump_json m season).
Proof.
  unfold _dump_json, _db_load_games.
  destruct (conn m) as [c|] eqn:E; [|apply db_frame_refl].
  exec_cases.
  - split; simpl; [done | unfold attached; simpl; eauto].
  - eapply db_frame_trans; [|apply dump_all_frame].
    split; simpl; [done | unfold attached; simpl; eauto].
Qed.

Lemma add_game_frame (m : manager) (season : string) (g : game) :
  attached m -> db_frame m (snd (add_game m season g)).
Proof.
  intros [c E]. unfold add_game. rewrite E.
  destruct (execute _ c) as [r1 c1].
  destruct (execute (Sql.insert season g) c1) as [[u|msg] c2]; simpl.
  - eapply db_frame_trans; [|apply dump_json_frame].
    split; simpl; [done | unfold attached; simpl; eauto].
  - split; simpl; [done | unfold attached; simpl; eauto].
Qed.

Lemma update_game_frame (m : manager) (season n : string) (g : game) :
  attached m -> db_frame m (snd (update_game m season n g)).
Proof.
  intros [c E]. unfold update_game. rewrite E.
  destruct (execute _ c) as [[u|msg] c1]; simpl.
  - eapply db_frame_trans; [|apply dump_json_frame].
    split; simpl; [done | unfold attached; simpl; eauto].
  - split; simpl; [done | unfold attached; simpl; eauto].
Qed.

Lemma delete_game_frame (m : manager) (season n : string) :
  attached m -> db_frame m (snd (delete_game m season n)).
Proof.
  intros [c E]. unfold delete_game. rewrite E.
  destruct (execute _ c) as [[u|msg] c1]; simpl.
  - eapply db_frame_trans; [|apply dump_json_frame].
    split; simpl; [done | unfold attached; simpl; eauto].
  - split; simpl; [done | unfold attached; simpl; eauto].
Qed.

Lemma save_games_frame (m : manager) (season : string) (gs : list game) :
  attached m -> db_frame m (snd (save_games m season gs)).
Proof.
  intros [c E]. unfold save_games. rewrite E.
  destruct (_db_save_games c season gs) as [r c']. simpl.
  split; simpl; [done | unfold attached; simpl; eauto].
Qed.

Lemma search_games_frame (like : option string -> string -> bool)
    (m : manager) (season q : string) :
  attached m -> db_frame m (snd (search_games like m season q)).
Proof.
  intros [c E]. unfold search_games. rewrite E.
  destruct (execute _ c) as [r c']. simpl.
  split; simpl; [done | unfold attached; simpl; eauto].
Qed.

Lemma add_all_frame (season : string) (gs : list game) (m : manager) :
  attached m -> db_frame m (add_all m season gs).
Proof.
  revert m. induction gs as [|g gs IH]; intros m A; [apply db_frame_refl|].
  unfold add_all. simpl.
  pose proof (add_game_frame m season g A) as F.
  eapply db_frame_trans; [exact F|]. apply IH. by apply F.
Qed.

Lemma already_imported_frame (m : manager) (markers : gset string) (season : string) :
  db_frame m (snd (already_imported m markers season)).
Proof.
  unfold already_imported.
  destruct (decide (season ∈ markers)); [|apply db_frame_refl].
  destruct (conn m) as [c|] eqn:E; [|apply db_frame_refl].
  exec_cases; split; simpl; try done; unfold attached; simpl; eauto.
Qed.

Lemma clear_season_frame (m : manager) (season : string) :
  db_frame m (clear_season m season).
Proof.
  unfold clear_season. destruct (conn m) as [c|] eqn:E; [|apply db_frame_refl].
  split; simpl; [done | unfold attached; simpl; eauto].
Qed.

Lemma import_file_frame (st : manager * gset string) (fname : string) :
  attached (fst st) -> db_frame (fst st) (fst (snd (import_file st fname))).
Proof.
  destruct st as [m markers]. simpl. intros A. unfold import_file.
  destruct (is_season_file fname); [|apply db_frame_refl].
  pose proof (already_imported_frame m markers (season_of_file fname)) as F1.
  destruct (already_imported m markers (season_of_file fname)) as [skip m1].
  simpl in F1. destruct skip; simpl; [done|].
  pose proof (clear_season_frame m1 (season_of_file fname)) as F2.
  assert (attached (clear_season m1 (season_of_file fname))) as A2
    by (apply F2, F1, A).
  destruct (iterate m1 fname) as [gs|msg]; simpl.
  - eapply db_frame_trans; [exact F1|].
    eapply db_frame_trans; [exact F2|].
    pose proof (add_all_frame (season_of_file fname) gs _ A2) as F3.
    eapply db_frame_trans; [exact F3|].
    split; simpl; [done | unfold attached; simpl; eauto].
  - eapply db_frame_trans; [exact F1 | exact F2].
Qed.

Lemma import_files_frame (names : list string) (st : manager * gset string) :
  attached (fst st) -> db_frame (fst st) (fst (snd (import_files names st))).
Proof.
  revert st. induction names as [|f names IH]; intros st A; [apply db_frame_refl|].
  simpl. pose proof (import_file_frame st f A) as F.
  destruct (import_file st f) as [[u|msg] st']; [|exact F].
  eapply db_frame_trans; [exact F|]. apply IH. by apply F.
Qed.

Lemma import_json_to_db_frame (m : manager) :
  attached m -> db_frame m (snd (import_json_to_db m)).
Proof.
  intros A. unfold import_json_to_db.
  pose proof (import_files_frame (listdir (data_dir m)) (m, _read_markers m) A) as F.
  destruct (import_files _ _) as [[u|msg] [m' mk]]; simpl in *; [|exact F].
  eapply db_frame_trans; [exact F | apply dump_all_frame].
Qed.

Lemma dedupe_db_frame (m : manager) : db_frame m (snd (_dedupe_db m)).
Proof.
  unfold _dedupe_db. destruct (conn m) as [c|] eqn:E; [|apply db_frame_refl].
  exec_cases; split; simpl; try done; unfold attached; simpl; eauto.
Qed.

(** ** A working database: every statement goes through *)

Lemma healthy_attached (m : manager) : healthy m -> attached m.
Proof. intros (c & E & _). unfold attached. rewrite E. eauto. Qed.

Lemma set_conn_same (m : manager) (c : connection) :
  conn m = Some c -> set_conn m (Some c) = m.
Proof. destruct m. simpl. by intros ->. Qed.

Lemma with_table_same (c : connection) : with_table c (table c) = c.
Proof. by destruct c. Qed.

Lemma dump_all_healthy (m : manager) (c : connection) :
  conn m = Some c -> faults c = [] ->
  _dump_all m = write_file m "all_games.json" (export_of (table c)).
Proof.
  intros E H. unfold _dump_all. rewrite E, execute_healthy by done.
  by rewrite set_conn_same.
Qed.

Lemma dump_json_healthy (m : manager) (c : connection) (season : string) :
  conn m = Some c -> faults c = [] ->
  _dump_json m season =
  write_file (write_file m (get_season_file season) (backup_of season (table c)))
             "all_games.json" (export_of (table c)).
Proof.
  intros E H. unfold _dump_json, _db_load_games.
  rewrite E, execute_healthy by done. rewrite set_conn_same by done.
  by rewrite (dump_all_healthy _ c).
Qed.

Lemma key_gone_after_delete (s : string) (n : option string) (t : list row) :
  existsb (Sql.has_key s n) (Sql.delete_key s n t) = false.
Proof.
  unfold Sql.delete_key. induction t as [|r t IH]; [done|]. simpl.
  destruct (Sql.has_key s n r) eqn:K; simpl; [done|]. by rewrite K.
Qed.

Lemma add_game_healthy (m : manager) (c : connection) (season : string) (g : game) :
  conn m = Some c -> faults c = [] ->
  add_game m season g =
  (Ok tt, _dump_json (set_conn m (Some (upsert season g c))) season).
Proof.
  intros E H. unfold add_game. rewrite E.
  rewrite execute_healthy by done.
  rewrite execute_healthy by done.
  unfold Sql.insert. simpl. by rewrite key_gone_after_delete.
Qed.

Lemma add_game_healthy_conn (m : manager) (c : connection) (season : string) (g : game) :
  conn m = Some c -> faults c = [] ->
  conn (snd (add_game m season g)) = Some (upsert season g c).
Proof.
  intros E H. rewrite (add_game_healthy _ c) by done. simpl.
  by rewrite (dump_json_healthy _ (upsert season g c)).
Qed.

Lemma add_game_healthy_files (m : manager) (c : connection) (season : string) (g : game) :
  conn m = Some c -> faults c = [] ->
  data_dir (snd (add_game m season g)) =
  <["all_games.json" := export_of (table (upsert season g c))]>
    (<[get_season_file season := backup_of season (table (upsert season g c))]>
       (data_dir m)).
Proof.
  intros E H. rewrite (add_game_healthy _ c) by done. simpl.
  by rewrite (dump_json_healthy _ (upsert season g c)).
Qed.

Lemma add_game_keeps_healthy (m : manager) (season : string) (g : game) :
  healthy m -> healthy (snd (add_game m season g)).
Proof.
  intros (c & E & H). exists (upsert season g c). split; [|done].
  by apply add_game_healthy_conn.
Qed.

Lemma add_all_keeps_healthy (season : string) (gs : list game) (m : manager) :
  healthy m -> healthy (add_all m season gs).
Proof.
  revert m. induction gs as [|g gs IH]; intros m H; [done|].
  unfold add_all. simpl. apply IH. by apply add_game_keeps_healthy.
Qed.

Lemma clear_season_healthy (m : manager) (c : connection) (season : string) :
  conn m = Some c -> faults c = [] ->
  clear_season m season
    = set_conn m (Some (with_table c (Sql.delete_season season (table c)))).
Proof. intros E H. unfold clear_season. by rewrite E, execute_healthy. Qed.

Lemma already_imported_healthy (m : manager) (c : connection)
    (markers : gset string) (season : string) :
  conn m = Some c -> faults c = [] ->
  already_imported m markers season =
  (bool_decide (season ∈ markers) && (0 <? Sql.count_season season (table c))%nat, m).
Proof.
  intros E H. unfold already_imported.
  destruct (decide (season ∈ markers)) as [I|I].
  - rewrite E, execute_healthy by done. rewrite set_conn_same by done.
    by rewrite bool_decide_eq_true_2.
  - by rewrite bool_decide_eq_false_2.
Qed.

Lemma import_file_keeps_healthy (st : manager * gset string) (fname : string) :
  healthy (fst st) -> healthy (fst (snd (import_file st fname))).
Proof.
  destruct st as [m markers]. simpl. intros Hm.
  destruct Hm as (c & E & H). unfold import_file.
  destruct (is_season_file fname); [|by exists c].
  rewrite (already_imported_healthy _ c) by done.
  destruct (_ && _); [by exists c|]. simpl.
  assert (healthy (clear_season m (season_of_file fname))) as H2.
  { rewrite (clear_season_healthy _ c) by done. eexists. split; [reflexivity | done]. }
  destruct (iterate m fname) as [gs|msg]; simpl; [|exact H2].
  destruct (add_all_keeps_healthy (season_of_file fname) gs _ H2) as (c' & E' & H').
  by exists c'.
Qed.

Lemma import_files_keeps_healthy (names : list string) (st : manager * gset string) :
  healthy (fst st) -> healthy (fst (snd (import_files names st))).
Proof.
  revert st. induction names as [|f names IH]; intros st H; [done|].
  simpl. pose proof (import_file_keeps_healthy st f H) as H1.
  destruct (import_file st f) as [[u|msg] st']; [by apply IH | exact H1].
Qed.

Lemma dump_all_keeps_healthy (m : manager) : healthy m -> healthy (_dump_all m).
Proof.
  intros (c & E & H). rewrite (dump_all_healthy _ c) by done. by exists c.
Qed.

Lemma import_json_to_db_keeps_healthy (m : manager) :
  healthy m -> healthy (snd (import_json_to_db m)).
Proof.
  intros H. unfold import_json_to_db.
  pose proof (import_files_keeps_healthy (listdir (data_dir m)) (m, _read_markers m) H) as H1.
  destruct (import_files _ _) as [[u|msg] [m' mk]]; simpl in *; [|exact H1].
  by apply dump_all_keeps_healthy.
Qed.

Lemma delete_by_id_faults (c : connection) (i : Z) :
  faults c = [] -> faults (delete_by_id c i) = [].
Proof. intros H. unfold delete_by_id. by rewrite execute_healthy. Qed.

Lemma delete_ids_faults (ids : list Z) (c : connection) :
  faults c = [] -> faults (fold_left delete_by_id ids c) = [].
Proof.
  revert c. induction ids as [|i ids IH]; intros c H; [done|].
  simpl. apply IH. by apply delete_by_id_faults.
Qed.

Lemma dedupe_db_healthy (m : manager) (c : connection) :
  conn m = Some c -> faults c = [] ->
  _dedupe_db m =
  (Ok tt, set_conn m (Some (fold_left delete_by_id (to_delete ∅ (scan_index (table c))) c))).
Proof. intros E H. unfold _dedupe_db. by rewrite E, execute_healthy. Qed.

(** ** The constructor and the [db_error] attribute *)

Lemma ensure_schema_ok (m : manager) (c : connection) :
  conn m = Some c -> next_fault c = None ->
  _ensure_schema m = set_conn m (Some (advance c)).
Proof. intros E H. unfold _ensure_schema. by rewrite E, execute_spec, H. Qed.

(** What the constructor makes of a migration: its manager if it
    returned, and a manager without connection that keeps the message if
    it raised. *)
Lemma init_with_schema (files : gmap string json_file) (c : connection) :
  next_fault c = None ->
  __init__ files (Some c) =
  let m2 := match import_json_to_db
                    {| data_dir := files; conn := Some (advance c); db_error := None |} with
            | (Ok _, m) => m
            | (Raise msg, m) => set_conn (set_db_error m (Some msg)) None
            end in
  match (match conn m2 with
         | Some _ => _dedupe_db m2
         | None => (Ok tt, m2)
         end) with
  | (Ok _, m3) => Ok (_dump_all m3)
  | (Raise msg, _) => Raise msg
  end.
Proof.
  intros H. unfold __init__.
  rewrite (ensure_schema_ok _ c) by done. reflexivity.
Qed.

Lemma init_frame (files : gmap string json_file) (c : connection) (m : manager) :
  next_fault c = None ->
  __init__ files (Some c) = Ok m ->
  fst (import_json_to_db {| data_dir := files; conn := Some (advance c); db_error := None |})
    = Ok tt ->
  db_error m = None /\ attached m.
Proof.
  intros H. rewrite init_with_schema by done. cbv zeta.
  set (m1 := {| data_dir := files; conn := Some (advance c); db_error := None |}).
  assert (attached m1) as A1 by (unfold attached; simpl; eauto).
  pose proof (import_json_to_db_frame m1 A1) as [E2 A2].
  specialize (A2 A1).
  destruct (import_json_to_db m1) as [[u|msg] m2]; [|discriminate 2].
  simpl in E2, A2. destruct A2 as [c2 Ec2]. rewrite Ec2.
  pose proof (dedupe_db_frame m2) as [E3 A3].
  destruct (_dedupe_db m2) as [[u'|msg] m3]; [|discriminate].
  intros [= <-] _. simpl in E3, A3.
  pose proof (dump_all_frame m3) as [E4 A4].
  split; [by rewrite E4, E3, E2 | apply A4, A3; unfold attached; rewrite Ec2; eauto].
Qed.

Lemma init_migration_raised (files : gmap string json_file) (c : connection)
    (m : manager) (msg : string) :
  next_fault c = None ->
  __init__ files (Some c) = Ok m ->
  fst (import_json_to_db {| data_dir := files; conn := Some (advance c); db_error := None |})
    = Raise msg ->
  conn m = None /\ db_error m = Some (Some msg).
Proof.
  intros H. rewrite init_with_schema by done. cbv zeta.
  destruct (import_json_to_db _) as [[u|msg'] m2]; [discriminate 2|].
  simpl. intros [= <-] [= ->]. unfold _dump_all. by simpl.
Qed.

(** ** Season files that hold a scalar *)

Lemma no_new_scalar_refl (d : gmap string json_file) : no_new_scalar d d.
Proof. by intros f k. Qed.

Lemma no_new_scalar_trans (d1 d2 d3 : gmap string json_file) :
  no_new_scalar d1 d2 -> no_new_scalar d2 d3 -> no_new_scalar d1 d3.
Proof. intros N1 N2 f k L. by apply N1, N2. Qed.

Lemma no_new_scalar_games (d : gmap string json_file) (path : string) (gs : list game) :
  no_new_scalar d (<[path := JGames gs]> d).
Proof.
  intros f k. destruct (decide (path = f)) as [->|N].
  - by rewrite lookup_insert_eq.
  - by rewrite lookup_insert_ne.
Qed.

Lemma no_new_scalar_seasons (d : gmap string json_file) (path : string) (ss : gset string) :
  no_new_scalar d (<[path := JSeasons ss]> d).
Proof.
  intros f k. destruct (decide (path = f)) as [->|N].
  - by rewrite lookup_insert_eq.
  - by rewrite lookup_insert_ne.
Qed.

Lemma dump_all_scalars (m : manager) : no_new_scalar (data_dir m) (data_dir (_dump_all m)).
Proof.
  unfold _dump_all. destruct (conn m) as [c|]; [destruct (execute _ c) as [[rows|msg] c']|];
    simpl; apply no_new_scalar_games.
Qed.

Lemma dump_json_scalars (m : manager) (season : string) :
  no_new_scalar (data_dir m) (data_dir (_dump_json m season)).
Proof.
  unfold _dump_json. destruct (conn m) as [c|]; [|apply no_new_scalar_refl].
  destruct (_db_load_games c season) as [[gs|msg] c']; [|apply no_new_scalar_refl].
  eapply no_new_scalar_trans; [|apply dump_all_scalars]. simpl. apply no_new_scalar_games.
Qed.

Lemma add_game_scalars (m : manager) (season : string) (g : game) :
  no_new_scalar (data_dir m) (data_dir (snd (add_game m season g))).
Proof.
  unfold add_game. destruct (conn m) as [c|] eqn:E.
  - destruct (execute _ c) as [r1 c1].
    destruct (execute (Sql.insert season g) c1) as [[u|msg] c2]; simpl;
      [|apply no_new_scalar_refl].
    eapply no_new_scalar_trans; [|apply dump_json_scalars]. apply no_new_scalar_refl.
  - rewrite (load_games_json _ _ E). unfold save_games. simpl. rewrite E. simpl.
    eapply no_new_scalar_trans; [|apply dump_all_scalars]. simpl. apply no_new_scalar_games.
Qed.

Lemma add_all_scalars (season : string) (gs : list game) (m : manager) :
  no_new_scalar (data_dir m) (data_dir (add_all m season gs)).
Proof.
  revert m. induction gs as [|g gs IH]; intros m; [apply no_new_scalar_refl|].
  unfold add_all. simpl. eapply no_new_scalar_trans; [apply add_game_scalars | apply IH].
Qed.

Lemma already_imported_files (m : manager) (markers : gset string) (season : string) :
  data_dir (snd (already_imported m markers season)) = data_dir m.
Proof.
  unfold already_imported. destruct (decide (season ∈ markers)); [|done].
  destruct (conn m) as [c|]; [|done]. by destruct (execute _ c) as [[n|msg] c'].
Qed.

Lemma clear_season_files (m : manager) (season : string) :
  data_dir (clear_season m season) = data_dir m.
Proof. unfold clear_season. by destruct (conn m). Qed.

Lemma import_file_scalars (st : manager * gset string) (fname : string) :
  no_new_scalar (data_dir (fst st)) (data_dir (fst (snd (import_file st fname)))).
Proof.
  destruct st as [m markers]. unfold import_file. cbn [fst].
  destruct (is_season_file fname); [|apply no_new_scalar_refl].
  pose proof (already_imported_files m markers (season_of_file fname)) as F1.
  destruct (already_imported m markers (season_of_file fname)) as [skip m1].
  simpl in F1. rewrite <- F1.
  destruct skip; [apply no_new_scalar_refl|].
  destruct (iterate m1 fname) as [gs|msg]; cbn [fst snd].
  - eapply no_new_scalar_trans; [|apply no_new_scalar_seasons].
    rewrite <- (clear_season_files m1 (season_of_file fname)). apply add_all_scalars.
  - rewrite clear_season_files. apply no_new_scalar_refl.
Qed.

Lemma iterable_kept (d d' : gmap string json_file) :
  no_new_scalar d d' -> iterable d -> iterable d'.
Proof. intros N I f k SF L. apply (I f k SF). by apply N. Qed.

Lemma iterate_iterable (m : manager) (fname : string) :
  iterable (data_dir m) -> is_season_file fname = true ->
  iterate m fname = Ok (read_games m fname).
Proof.
  intros I SF. unfold iterate.
  destruct (data_dir m !! fname) as [[gs|ss|k|]|] eqn:L; try done.
  by destruct (I fname k SF).
Qed.

(** Over a directory whose season files hold no scalar a turn of the loop
    returns, and so does the loop. *)
Lemma import_file_returns (st : manager * gset string) (fname : string) :
  iterable (data_dir (fst st)) -> fst (import_file st fname) = Ok tt.
Proof.
  destruct st as [m markers]. cbn [fst]. intros I. unfold import_file.
  destruct (is_season_file fname) eqn:SF; [|done].
  pose proof (already_imported_files m markers (season_of_file fname)) as F1.
  destruct (already_imported m markers (season_of_file fname)) as [skip m1].
  simpl in F1. destruct skip; [done|].
  rewrite iterate_iterable; [done | by rewrite F1 | done].
Qed.

Lemma import_files_return (names : list string) (st : manager * gset string) :
  iterable (data_dir (fst st)) -> fst (import_files names st) = Ok tt.
Proof.
  revert st. induction names as [|f names IH]; intros st I; [done|]. simpl.
  pose proof (import_file_returns st f I) as R.
  pose proof (import_file_scalars st f) as N.
  destruct (import_file st f) as [[u|msg] st']; [|discriminate R].
  apply IH. by apply (iterable_kept _ _ N).
Qed.

Lemma import_json_to_db_returns (m : manager) :
  iterable (data_dir m) -> fst (import_json_to_db m) = Ok tt.
Proof.
  intros I. unfold import_json_to_db.
  pose proof (import_files_return (listdir (data_dir m)) (m, _read_markers m) I) as R.
  by destruct (import_files _ _) as [[u|msg] [m' mk]].
Qed.

Lemma init_healthy (files : gmap string json_file) (c : connection) :
  faults c = [] -> iterable files ->
  exists m, __init__ files (Some c) = Ok m /\ healthy m.
Proof.
  intros H I. assert (next_fault c = None) as N by (unfold next_fault; by rewrite H).
  rewrite init_with_schema by done. cbv zeta.
  rewrite (advance_healthy c) by done.
  set (m1 := {| data_dir := files; conn := Some c; db_error := None |}).
  assert (healthy m1) as H1 by (by exists c).
  pose proof (import_json_to_db_keeps_healthy m1 H1) as H2.
  pose proof (import_json_to_db_returns m1 I) as R.
  destruct (import_json_to_db m1) as [[u|msg] m2]; [|discriminate R].
  destruct H2 as (c2 & E2 & H2). simpl in E2.
  rewrite E2, (dedupe_db_healthy _ c2) by done.
  eexists. split; [reflexivity|]. apply dump_all_keeps_healthy.
  eexists. split; [reflexivity|]. by apply delete_ids_faults.
Qed.

(** C9: on the success path the constructor never assigns [db_error]:
    when the schema statement goes through and the migration returns, a
    constructed manager has no such attribute, so reading it raises
    [AttributeError]; the writes leave it unassigned, and only [load_games]
    and [get_summary] assign it.  When the migration raises, the
    constructor assigns the message and gives up the connection.  Over a
    working database and a directory whose season files hold no scalar the
    migration returns and the constructor does too. *)
Theorem init_leaves_db_error_unassigned
    (files : gmap string json_file) (c : connection) :
  next_fault c = None ->
  let migration :=
    import_json_to_db {| data_dir := files; conn := Some (advance c); db_error := None |} in
  (forall m, __init__ files (Some c) = Ok m -> fst migration = Ok tt ->
     db_error m = None /\
     read_db_error m = Raise no_db_error_attribute /\
     (forall season g, read_db_error (snd (add_game m season g))
                       = Raise no_db_error_attribute) /\
     (forall season n g, read_db_error (snd (update_game m season n g))
                         = Raise no_db_error_attribute) /\
     (forall season n, read_db_error (snd (delete_game m season n))
                       = Raise no_db_error_attribute) /\
     (forall season, exists e, read_db_error (snd (load_games m season)) = Ok e) /\
     (forall season, exists e, read_db_error (snd (get_summary m season)) = Ok e)) /\
  (forall m msg, __init__ files (Some c) = Ok m -> fst migration = Raise msg ->
     conn m = None /\ read_db_error m = Ok (Some msg)) /\
  (faults c = [] -> iterable files ->
     fst migration = Ok tt /\
     exists m, __init__ files (Some c) = Ok m /\ healthy m).
Proof.
  intros H migration. split; [|split].
  - intros m Hm R. destruct (init_frame files c m H Hm R) as [E A].
    assert (forall m', db_frame m m' -> read_db_error m' = Raise no_db_error_attribute) as R'.
    { intros m' [E' _]. unfold read_db_error. by rewrite E', E. }
    split; [done|]. split; [by apply R', db_frame_refl|].
    split; [intros; by apply R', add_game_frame|].
    split; [intros; by apply R', update_game_frame|].
    split; [intros; by apply R', delete_game_frame|].
    destruct A as [c' Ec']. split; intros season.
    + unfold load_games, _db_load_games. rewrite Ec'. exec_cases; eauto.
    + unfold get_summary. rewrite Ec'. exec_cases; eauto.
  - intros m msg Hm R. destruct (init_migration_raised files c m msg H Hm R) as [C E].
    split; [done|]. unfold read_db_error. by rewrite E.
  - intros F I. split; [by apply import_json_to_db_returns | by apply init_healthy].
Qed.

(** Construction over an empty SQLite database and one season file. *)
Lemma init_leaves_db_error_unassigned_witness :
  exists m,
    __init__ two_game_directory (Some (empty_db true)) = Ok m /\
    db_error m = None /\
    read_db_error m = Raise no_db_error_attribute.
Proof.
  destruct (init_leaves_db_error_unassigned two_game_directory (empty_db true) eq_refl)
    as (H1 & _ & H3).
  assert (iterable two_game_directory) as I.
  { intros f k _ L. unfold two_game_directory in L.
    apply lookup_singleton_Some in L as [_ L]. discriminate L. }
  destruct (H3 eq_refl I) as (R & m & Hm & _).
  exists m. split; [exact Hm|].
  destruct (H1 m Hm R) as (E & A & _). split; assumption.
Defined.

(** ** Database errors in reads and writes *)

Lemma get_summary_db (m : manager) (c : connection) (season : string) :
  conn m = Some c ->
  get_summary m season =
  match next_fault c with
  | None =>
      (summarize64 (select_amounts season (table c)),
       set_db_error (set_conn m (Some (advance c))) None)
  | Some msg =>
      (zero_summary, set_db_error (set_conn m (Some (advance c))) (Some msg))
  end.
Proof.
  intros E. unfold get_summary. rewrite E, execute_spec.
  by destruct (next_fault c).
Qed.

Lemma search_games_db (like : option string -> string -> bool)
    (m : manager) (c : connection) (season q : string) :
  conn m = Some c ->
  forall msg, next_fault c = Some msg ->
  search_games like m season q = (Raise msg, set_conn m (Some (advance c))).
Proof.
  intros E msg H. unfold search_games. by rewrite E, execute_spec, H.
Qed.

(** C7 holds for [load_games] and [get_summary] and fails for
    [search_games]: when the statement raises, the two former return an
    empty result and record the message, while [search_games], which has no
    [try], raises it to the caller and records nothing. *)
Theorem search_games_raises_database_error (like : option string -> string -> bool) :
  (fst (load_games locked_db_manager season_2025) = [] /\
   db_error (snd (load_games locked_db_manager season_2025))
     = Some (Some "database is locked")) /\
  (fst (get_summary locked_db_manager season_2025) = zero_summary /\
   db_error (snd (get_summary locked_db_manager season_2025))
     = Some (Some "database is locked")) /\
  (fst (search_games like locked_db_manager season_2025 "Field")
     = Raise "database is locked" /\
   db_error (snd (search_games like locked_db_manager season_2025 "Field")) = None).
Proof. repeat split. Qed.

(** C8, as stated, fails: after a read that failed, a successful
    [add_game] leaves the old message in [db_error] instead of [None]. *)
Lemma add_game_success_keeps_old_error :
  let m1 := snd (load_games locked_db_manager season_2025) in
  db_error m1 = Some (Some "database is locked") /\
  fst (add_game m1 season_2025 field_b_game) = Ok tt /\
  db_error (snd (add_game m1 season_2025 field_b_game)) <> Some None.
Proof. repeat split. vm_compute. discriminate. Qed.

(** C8, amended: on a connection, [load_games] and [get_summary] set
    [db_error] to [None] when their query goes through and to the
    exception's message when it raises; [save_games], [add_game],
    [update_game] and [delete_game] never assign [db_error], whether they
    succeed or fail.  A statement of [save_games], [update_game] or
    [delete_game] that raises is raised to the caller, and so is the
    [INSERT] of [add_game]; the [DELETE] of [add_game] is not: when it
    raises, the add goes on to its [INSERT]. *)
Theorem db_error_follows_reads_only (m : manager) (c : connection) :
  conn m = Some c ->
  (forall season,
     db_error (snd (load_games m season)) = Some (next_fault c) /\
     db_error (snd (get_summary m season)) = Some (next_fault c)) /\
  (forall season g,
     db_error (snd (add_game m season g)) = db_error m /\
     (forall msg, next_fault c = None -> next_fault (advance c) = Some msg ->
        fst (add_game m season g) = Raise msg) /\
     (forall msg, next_fault c = Some msg -> next_fault (advance c) = None ->
        existsb (Sql.has_key season (gameNumber g)) (table c) = false ->
        fst (add_game m season g) = Ok tt)) /\
  (forall season n g,
     db_error (snd (update_game m season n g)) = db_error m /\
     (forall msg, next_fault c = Some msg ->
        fst (update_game m season n g) = Raise msg)) /\
  (forall season n,
     db_error (snd (delete_game m season n)) = db_error m /\
     (forall msg, next_fault c = Some msg ->
        fst (delete_game m season n) = Raise msg)) /\
  (forall season gs,
     db_error (snd (save_games m season gs)) = db_error m /\
     (forall msg, next_fault c = Some msg ->
        fst (save_games m season gs) = Raise msg)).
Proof.
  intros E. assert (attached m) as A by (unfold attached; rewrite E; eauto).
  split; [|split; [|split; [|split]]].
  - intros season. rewrite (load_games_db _ c), (get_summary_db _ c) by done.
    by destruct (next_fault c).
  - intros season g. split; [by apply add_game_frame|]. split.
    + intros msg F1 F2. unfold add_game. rewrite E.
      rewrite (execute_spec _ c), F1.
      rewrite (execute_spec (Sql.insert season g)).
      assert (next_fault (with_table (advance c)
                            (Sql.delete_key season (gameNumber g) (table (advance c))))
              = Some msg) as -> by exact F2.
      done.
    + intros msg F1 F2 X. unfold add_game. rewrite E.
      rewrite (execute_spec _ c), F1.
      rewrite (execute_spec (Sql.insert season g)), F2.
      unfold Sql.insert.
      assert (table (advance (advance c)) = table c) as -> by done.
      by rewrite X.
  - intros. split; [by apply update_game_frame|].
    intros msg H. unfold update_game. by rewrite E, execute_spec, H.
  - intros. split; [by apply delete_game_frame|].
    intros msg H. unfold delete_game. by rewrite E, execute_spec, H.
  - intros. split; [by apply save_games_frame|].
    intros msg H. unfold save_games, _db_save_games. by rewrite E, execute_spec, H.
Qed.

(** A read that fails, a read that succeeds, a write, and an add whose
    [DELETE] fails. *)
Lemma db_error_follows_reads_only_witness :
  db_error (snd (load_games locked_db_manager season_2025))
    = Some (Some "database is locked") /\
  db_error (snd (load_games db_manager_one_row season_2025)) = Some None /\
  db_error (snd (add_game db_manager_one_row season_2025 field_b_game)) = None /\
  fst (add_game locked_db_manager season_2025 field_b_game) = Ok tt.
Proof.
  split; [|split; [|split]].
  - destruct (db_error_follows_reads_only locked_db_manager _ eq_refl) as [H _].
    destruct (H season_2025) as [H1 _]. exact H1.
  - destruct (db_error_follows_reads_only db_manager_one_row _ eq_refl) as [H _].
    destruct (H season_2025) as [H1 _]. exact H1.
  - destruct (db_error_follows_reads_only db_manager_one_row _ eq_refl) as [_ [H _]].
    exact (proj1 (H season_2025 field_b_game)).
  - destruct (db_error_follows_reads_only locked_db_manager _ eq_refl) as [_ [H _]].
    destruct (H season_2025 field_b_game) as (_ & _ & S).
    exact (S "database is locked" eq_refl eq_refl eq_refl).
Defined.

(** ** Deleting a game that is not there *)

Lemma delete_key_absent (s : string) (n : option string) (t : list row) :
  existsb (Sql.has_key s n) t = false -> Sql.delete_key s n t = t.
Proof.
  unfold Sql.delete_key. induction t as [|r t IH]; [done|]. simpl.
  destruct (Sql.has_key s n r); simpl; [done|]. intros H. by rewrite IH.
Qed.

(** On a working database the delete of an absent key raises nothing and
    leaves the table as it was. *)
Lemma delete_absent_game_db (m : manager) (c : connection) (season n : string) :
  conn m = Some c -> faults c = [] ->
  existsb (Sql.has_key season (Some n)) (table c) = false ->
  fst (delete_game m season n) = Ok tt /\
  conn (snd (delete_game m season n)) = Some c.
Proof.
  intros E H K. unfold delete_game. rewrite E, execute_healthy by done.
  rewrite delete_key_absent, with_table_same by done. simpl.
  split; [done|]. rewrite set_conn_same by done.
  by rewrite (dump_json_healthy _ c).
Qed.

(** Without a connection the season file is rewritten from the empty
    list, whatever it held and whatever number is deleted. *)
Lemma delete_game_json (m : manager) (season n : string) :
  conn m = None ->
  delete_game m season n =
  (Ok tt,
   _dump_all (write_file (set_db_error m (Some "no database connection"))
                         (get_season_file season) (JGames []))).
Proof.
  intros E. unfold delete_game. rewrite E, (load_games_json _ _ E).
  unfold save_games. simpl. by rewrite E.
Qed.

(** C6 fails in JSON-only mode: deleting game "999" from a season whose
    file holds only game "1" raises nothing, but the file is rewritten
    from the empty list [load_games] returns, and game "1" is gone. *)
Theorem delete_absent_game_json_empties_file :
  conn json_manager_one_game = None /\
  read_games json_manager_one_game (get_season_file season_2025) = [field_a_game] /\
  number_is "999" field_a_game = false /\
  exists m',
    delete_game json_manager_one_game season_2025 "999" = (Ok tt, m') /\
    data_dir m' !! get_season_file season_2025 = Some (JGames []) /\
    read_games m' (get_season_file season_2025) = [].
Proof.
  split; [reflexivity|]. split; [reflexivity|]. split; [reflexivity|].
  eexists. split; [reflexivity|]. split; reflexivity.
Qed.

(** ** [get_summary] *)

Section TotalsFacts.

Context {F : Type}.
Variable fadd : F -> F -> F.
Variable fzero : F.
Variable ftruthy : F -> bool.

Lemma summary_loop_splits (rows : list (@cells F)) (p d : F) :
  fold_left (summary_step fadd fzero ftruthy) rows (p, d) =
  (fold_left (add_total fadd fzero ftruthy) (List.filter paid_row rows) p,
   fold_left (add_total fadd fzero ftruthy) (List.filter unpaid_row rows) d).
Proof.
  revert p d. induction rows as [|r rows IH]; intros p d; [done|].
  simpl. unfold paid_row, unpaid_row.
  destruct (is_paid (paid_of r)) eqn:P; simpl; by rewrite IH.
Qed.

Lemma summarize_parts (rows : list (@cells F)) :
  total_earnings (summarize fadd fzero ftruthy rows)
    = sum_totals fadd fzero ftruthy (List.filter paid_row rows) /\
  amount_left (summarize fadd fzero ftruthy rows)
    = sum_totals fadd fzero ftruthy (List.filter unpaid_row rows) /\
  games_count (summarize fadd fzero ftruthy rows) = length rows.
Proof. unfold summarize. by rewrite summary_loop_splits. Qed.

(** A NULL amount and an amount of zero give the same row total. *)
Lemma null_amount_counts_as_zero (x y : option F) (paid : option string) :
  row_total fadd fzero ftruthy (None, x, y, paid)
    = row_total fadd fzero ftruthy (Some fzero, x, y, paid) /\
  row_total fadd fzero ftruthy (x, None, y, paid)
    = row_total fadd fzero ftruthy (x, Some fzero, y, paid) /\
  row_total fadd fzero ftruthy (x, y, None, paid)
    = row_total fadd fzero ftruthy (x, y, Some fzero, paid).
Proof. unfold row_total, float_or_0. by destruct (ftruthy fzero). Qed.

End TotalsFacts.

Lemma differ_neq (x y : float) : differ x y = true -> x <> y.
Proof.
  unfold differ. intros H ->. destruct (PrimFloat.eqb y y); discriminate.
Qed.

(** C4, as stated, fails on its last equation: for the four games above
    [total_earnings + amount_left] is 83.60000000000001, which no order of
    adding up the four row totals yields. *)
Lemma summary_parts_do_not_add_up :
  let s := fst (get_summary rounding_manager season_2025) in
  ~ exists rows,
      Permutation (select_amounts season_2025 rounding_table) rows /\
      (total_earnings s + amount_left s)%float = sum_totals64 rows.
Proof.
  intros s (rows & P & E). revert E. apply differ_neq.
  apply permutations_Permutation in P.
  assert (forallb (fun l => differ (total_earnings s + amount_left s)%float (sum_totals64 l))
            (permutations (select_amounts season_2025 rounding_table)) = true) as A
    by (vm_compute; reflexivity).
  rewrite forallb_forall in A. apply A. by apply list_elem_of_In.
Qed.

(** C4, amended: when the query goes through, [total_earnings] is the
    sum of [transportation + food + gamePayment] over the season's rows
    whose [paidStatus] is "yes" in any letter case, [amount_left] the same
    sum over the other rows, both added up in binary64 in the order in
    which the query returns the rows, and [games_count] is the number of
    rows; an amount missing from an added record is stored as zero and a
    NULL amount counts as zero. *)
Theorem get_summary_splits_season_totals (m : manager) (c : connection) (season : string) :
  conn m = Some c -> next_fault c = None ->
  let rows := select_amounts season (table c) in
  let s := fst (get_summary m season) in
  Permutation rows
    (List.map amounts_of_row (List.filter (Sql.in_season season) (table c))) /\
  total_earnings s = sum_totals64 (List.filter paid_row rows) /\
  amount_left s = sum_totals64 (List.filter unpaid_row rows) /\
  games_count s = Sql.count_season season (table c) /\
  (forall x y paid,
     row_total PrimFloat.add 0%float float_truthy (None, x, y, paid)
       = row_total PrimFloat.add 0%float float_truthy (Some 0%float, x, y, paid) /\
     row_total PrimFloat.add 0%float float_truthy (x, None, y, paid)
       = row_total PrimFloat.add 0%float float_truthy (x, Some 0%float, y, paid) /\
     row_total PrimFloat.add 0%float float_truthy (x, y, None, paid)
       = row_total PrimFloat.add 0%float float_truthy (x, y, Some 0%float, paid)) /\
  (forall i s g,
     (transportation g = Missing ->
        row_transportation (Sql.new_row i s g) = Some 0%float) /\
     (food g = Missing -> row_food (Sql.new_row i s g) = Some 0%float) /\
     (gamePayment g = Missing ->
        row_gamePayment (Sql.new_row i s g) = Some 0%float)).
Proof.
  intros E H rows s.
  assert (s = summarize64 rows) as ->
    by (unfold s; by rewrite (get_summary_db _ c), H).
  unfold summarize64, sum_totals64.
  destruct (summarize_parts PrimFloat.add 0%float float_truthy rows) as (P1 & P2 & P3).
  split; [apply Permutation_map, select_season_Permutation|].
  split; [exact P1|]. split; [exact P2|]. split.
  - rewrite P3. unfold rows, select_amounts.
    by rewrite length_map, select_season_length.
  - split; [intros; apply null_amount_counts_as_zero|].
    intros; simpl; repeat split; by intros ->.
Qed.

(** The summary of the four games. *)
Lemma get_summary_splits_season_totals_witness :
  fst (get_summary rounding_manager season_2025)
    = {| total_earnings := 0x1.3333333333333p+4%float;
         amount_left := 0x1.019999999999ap+6%float;
         games_count := 4 |}.
Proof.
  destruct (get_summary_splits_season_totals rounding_manager _ season_2025
              eq_refl eq_refl) as (_ & P1 & P2 & P3 & _).
  destruct (fst (get_summary rounding_manager season_2025)) as [te al gc].
  simpl in P1, P2, P3. rewrite P1, P2, P3. vm_compute. reflexivity.
Defined.

(** ** One record per [(season, gameNumber)] *)

Lemma has_key_row_key (s : string) (n : string) (r : row) :
  Sql.has_key s (Some n) r = true <-> row_key r = (s, Some n).
Proof.
  unfold Sql.has_key, Sql.in_season, Sql.eq_text, row_key.
  destruct (row_gameNumber r) as [k|]; split.
  - intros [H1 H2]%andb_true_iff.
    apply String.eqb_eq in H1, H2. by subst.
  - intros [= -> ->]. by rewrite !String.eqb_refl.
  - by rewrite andb_false_r.
  - discriminate.
Qed.

Lemma filter_twice {A} (p : A -> bool) (l : list A) :
  List.filter p (List.filter p l) = List.filter p l.
Proof.
  induction l as [|x l IH]; [done|]. simpl.
  destruct (p x) eqn:E; simpl; rewrite ?E, IH; done.
Qed.

Lemma filter_keeps_unique {A} (f : row -> A) (p : row -> bool) (t : list row) :
  NoDup (f <$> t) -> NoDup (f <$> List.filter p t).
Proof.
  induction t as [|r t IH]; [done|]. simpl. rewrite NoDup_cons.
  intros [N1 N2]. destruct (p r); [|by apply IH].
  simpl. rewrite NoDup_cons. split; [|by apply IH].
  intros (r' & E & I)%list_elem_of_fmap. apply N1.
  apply list_elem_of_fmap. exists r'. split; [done|].
  apply list_elem_of_In. apply list_elem_of_In, List.filter_In in I. tauto.
Qed.

Lemma upsert_one_row_per_key (season n : string) (g : game) (c : connection) :
  gameNumber g = Some n ->
  List.filter (Sql.has_key season (Some n)) (table (upsert season g c))
    = [Sql.new_row (next_id c) season g] /\
  List.filter (fun r => negb (Sql.has_key season (Some n) r)) (table (upsert season g c))
    = List.filter (fun r => negb (Sql.has_key season (Some n) r)) (table c) /\
  (unique_keys (table c) -> unique_keys (table (upsert season g c))).
Proof.
  intros G. unfold upsert. simpl. rewrite G.
  assert (Sql.has_key season (Some n) (Sql.new_row (next_id c) season g) = true) as K
    by (apply has_key_row_key; unfold row_key; simpl; by rewrite G).
  assert (forall r, In r (Sql.delete_key season (Some n) (table c)) ->
                    Sql.has_key season (Some n) r = false) as D.
  { intros r [_ I]%List.filter_In. by apply negb_true_iff. }
  split; [|split].
  - rewrite List.filter_app. simpl. rewrite K.
    replace (List.filter _ (Sql.delete_key season (Some n) (table c))) with (@nil row); [done|].
    symmetry.
    induction (Sql.delete_key season (Some n) (table c)) as [|r t IH]; [done|].
    simpl. rewrite (D r) by (by left). apply IH. intros r' I. apply D. by right.
  - rewrite List.filter_app. simpl. rewrite K. simpl. rewrite app_nil_r.
    unfold Sql.delete_key. apply filter_twice.
  - unfold unique_keys. intros U. rewrite fmap_app. apply NoDup_app.
    split; [by apply filter_keeps_unique|]. split; [|apply NoDup_singleton].
    intros k (r & -> & I)%list_elem_of_fmap. simpl. rewrite list_elem_of_singleton.
    intros E. apply list_elem_of_In, D in I.
    assert (Sql.has_key season (Some n) r = true); [|congruence].
    apply has_key_row_key. rewrite E. unfold row_key. simpl. by rewrite G.
Qed.

Lemma delete_by_id_healthy (c : connection) (i : Z) :
  faults c = [] ->
  delete_by_id c i = with_table c (Sql.delete_id i (table c)).
Proof. intros H. unfold delete_by_id. by rewrite execute_healthy. Qed.

Lemma not_listed_cons (i : Z) (ids : list Z) (t : list row) :
  List.filter (not_listed ids) (Sql.delete_id i t) = List.filter (not_listed (i :: ids)) t.
Proof.
  unfold Sql.delete_id. induction t as [|r t IH]; [done|]. simpl.
  destruct (Z.eqb_spec (row_id r) i) as [E|E]; simpl.
  - assert (not_listed (i :: ids) r = false) as ->.
    { unfold not_listed. rewrite bool_decide_eq_true_2; [done | rewrite E; by left]. }
    apply IH.
  - assert (not_listed (i :: ids) r = not_listed ids r) as ->.
    { unfold not_listed. f_equal. apply bool_decide_ext. rewrite elem_of_cons. tauto. }
    destruct (not_listed ids r); by rewrite IH.
Qed.

Lemma not_listed_nil (t : list row) : List.filter (not_listed []) t = t.
Proof.
  induction t as [|r t IH]; [done|]. simpl.
  by rewrite IH.
Qed.

Lemma delete_ids_table (ids : list Z) (c : connection) :
  faults c = [] ->
  table (fold_left delete_by_id ids c) = List.filter (not_listed ids) (table c).
Proof.
  revert c. induction ids as [|i ids IH]; intros c H; simpl.
  - by rewrite not_listed_nil.
  - rewrite IH by (by apply delete_by_id_faults).
    rewrite delete_by_id_healthy by done. simpl. apply not_listed_cons.
Qed.

Lemma to_delete_ids (seen : gset (string * option string)) (rows : list row) (i : Z) :
  i ∈ to_delete seen rows -> i ∈ row_id <$> rows.
Proof.
  revert seen. induction rows as [|r rows IH]; intros seen; simpl; [done|].
  destruct (decide (row_key r ∈ seen)).
  - rewrite !elem_of_cons. intros [->|I]; [by left | right; by eapply IH].
  - intros I. rewrite elem_of_cons. right. by eapply IH.
Qed.

Lemma dedupe_keeps_first (seen : gset (string * option string)) (rows : list row) :
  NoDup (row_id <$> rows) ->
  List.filter (not_listed (to_delete seen rows)) rows = first_per_key seen rows.
Proof.
  revert seen. induction rows as [|r rows IH]; intros seen; [done|].
  rewrite fmap_cons, NoDup_cons. intros [N1 N2]. simpl.
  destruct (decide (row_key r ∈ seen)) as [S|S].
  - assert (not_listed (row_id r :: to_delete seen rows) r = false) as ->.
    { unfold not_listed. rewrite bool_decide_eq_true_2; [done | by left]. }
    rewrite <- (IH seen N2). apply List.filter_ext_in. intros r' I.
    unfold not_listed. f_equal. apply bool_decide_ext. rewrite elem_of_cons.
    split; [|tauto]. intros [E|]; [|done]. exfalso. apply N1. rewrite <- E.
    apply list_elem_of_fmap. exists r'. split; [done | by apply list_elem_of_In].
  - assert (not_listed (to_delete ({[row_key r]} ∪ seen) rows) r = true) as ->.
    { unfold not_listed. rewrite bool_decide_eq_false_2; [done|].
      intros I. apply to_delete_ids in I. by apply N1. }
    f_equal. by apply IH.
Qed.

Lemma not_listed_same_ids (ids ids' : list Z) (t : list row) :
  (forall i, i ∈ ids <-> i ∈ ids') ->
  List.filter (not_listed ids) t = List.filter (not_listed ids') t.
Proof.
  intros S. apply List.filter_ext. intros r. unfold not_listed. f_equal.
  apply bool_decide_ext, S.
Qed.

(** The rows that the scan keeps are the heads of their keys. *)
Lemma first_per_key_head (seen : gset (string * option string)) (l : list row) (r : row) :
  r ∈ first_per_key seen l <->
  (row_key r ∉ seen) /\
  head (List.filter (fun x => bool_decide (row_key x = row_key r)) l) = Some r.
Proof.
  revert seen. induction l as [|x l IH]; intros seen; simpl.
  - rewrite elem_of_nil. split; [done | by intros [_ ?]].
  - destruct (decide (row_key x ∈ seen)) as [I|I].
    + rewrite IH. split; intros [N Hd]; (split; [done|]).
      * rewrite bool_decide_eq_false_2; [done|]. intros Q. apply N. by rewrite <- Q.
      * rewrite bool_decide_eq_false_2 in Hd; [done|]. intros Q. apply N. by rewrite <- Q.
    + rewrite elem_of_cons, IH.
      destruct (decide (row_key x = row_key r)) as [Q|Q].
      * rewrite bool_decide_eq_true_2 by done. simpl. split.
        -- intros [->|[N _]]; [done|]. exfalso. apply N, elem_of_union. left.
           by apply elem_of_singleton.
        -- intros [N [= ->]]. by left.
      * rewrite bool_decide_eq_false_2 by done. split.
        -- intros [->|[N Hd]]; [done|]. split; [|done].
           intros S. apply N, elem_of_union. by right.
        -- intros [N Hd]. right. split; [|done].
           intros [S%elem_of_singleton|S]%elem_of_union; [by apply Q | done].
Qed.

Lemma ordered_same_key (k : string * option string) (l : list row) :
  (forall r, r ∈ l -> row_key r = k) -> ordered row_key key_le l.
Proof.
  induction l as [|x l IH]; intros S; [constructor|].
  constructor.
  - apply IH. intros r I. apply S. by right.
  - apply Forall_forall. intros y I.
    rewrite (S x) by (by left). rewrite (S y) by (by right).
    by destruct (key_le_total k k).
Qed.

(** In the index, the rows of one key come in the order of the table. *)
Lemma scan_index_same_key (k : string * option string) (t : list row) :
  List.filter (fun x => bool_decide (row_key x = k)) (scan_index t)
  = List.filter (fun x => bool_decide (row_key x = k)) t.
Proof.
  unfold scan_index.
  rewrite <- (sort_by_filter row_key key_le key_le_total key_le_trans).
  apply (sort_by_of_ordered row_key key_le), (ordered_same_key k).
  intros r I. apply list_elem_of_In, List.filter_In in I as [_ I].
  by apply bool_decide_eq_true in I.
Qed.

Lemma first_per_key_fresh (seen : gset (string * option string)) (rows : list row) (r : row) :
  r ∈ first_per_key seen rows -> (row_key r ∉ seen) /\ (r ∈ rows).
Proof.
  revert seen. induction rows as [|r0 rows IH]; intros seen; simpl; [by rewrite elem_of_nil|].
  destruct (decide (row_key r0 ∈ seen)).
  - intros I. apply IH in I as [? ?]. split; [done | by right].
  - rewrite elem_of_cons. intros [->|I]; [split; [done | by left]|].
    apply IH in I as [N ?]. split; [|by right].
    intros S. apply N, elem_of_union. by right.
Qed.

Lemma to_delete_rows (seen : gset (string * option string)) (l : list row) (i : Z) :
  NoDup (row_id <$> l) ->
  i ∈ to_delete seen l <->
  exists r, r ∈ l /\ row_id r = i /\ (r ∉ first_per_key seen l).
Proof.
  intros N. pose proof (dedupe_keeps_first seen l N) as K. split.
  - intros I. pose proof (to_delete_ids _ _ _ I) as (r & -> & Ir)%list_elem_of_fmap.
    exists r. split; [done|]. split; [done|]. rewrite <- K. intros F.
    apply list_elem_of_In, List.filter_In in F as [_ F].
    unfold not_listed in F. apply negb_true_iff, bool_decide_eq_false in F. by apply F.
  - intros (r & Ir & <- & F). destruct (decide (row_id r ∈ to_delete seen l)) as [?|D]; [done|].
    exfalso. apply F. rewrite <- K. apply list_elem_of_In, List.filter_In.
    split; [by apply list_elem_of_In|]. unfold not_listed.
    by apply negb_true_iff, bool_decide_eq_false.
Qed.

(** What the scan of [_dedupe_db] lists does not depend on its going
    through the index rather than through the table. *)
Lemma to_delete_scan_index (t : list row) (i : Z) :
  NoDup (row_id <$> t) ->
  i ∈ to_delete ∅ (scan_index t) <-> i ∈ to_delete ∅ t.
Proof.
  intros N.
  assert (scan_index t ≡ₚ t) as P by apply sort_by_Permutation.
  assert (NoDup (row_id <$> scan_index t)) as N' by (by rewrite P).
  rewrite !to_delete_rows by done.
  split; intros (r & I & Q & F); exists r.
  - rewrite P in I. split; [done|]. split; [done|].
    rewrite first_per_key_head in *. by rewrite scan_index_same_key in F.
  - rewrite <- P in I. split; [done|]. split; [done|].
    rewrite first_per_key_head in *. by rewrite scan_index_same_key.
Qed.

Lemma dedupe_scan_keeps_first (t : list row) :
  NoDup (row_id <$> t) ->
  List.filter (not_listed (to_delete ∅ (scan_index t))) t = first_per_key ∅ t.
Proof.
  intros N. rewrite <- (dedupe_keeps_first ∅ t N).
  apply not_listed_same_ids. intros i. by apply to_delete_scan_index.
Qed.

Lemma first_per_key_unique (seen : gset (string * option string)) (rows : list row) :
  unique_keys (first_per_key seen rows).
Proof.
  unfold unique_keys. revert seen.
  induction rows as [|r rows IH]; intros seen; simpl; [apply NoDup_nil_2|].
  destruct (decide (row_key r ∈ seen)); [apply IH|].
  rewrite fmap_cons. apply NoDup_cons. split; [|apply IH].
  intros (r' & E & I)%list_elem_of_fmap.
  apply first_per_key_fresh in I as [N _].
  apply N, elem_of_union. left. by apply elem_of_singleton.
Qed.

Lemma first_per_key_keeps_keys (seen : gset (string * option string)) (rows : list row)
    (r : row) :
  r ∈ rows -> (row_key r ∈ seen) \/ (row_key r ∈ row_key <$> first_per_key seen rows).
Proof.
  revert seen. induction rows as [|r0 rows IH]; intros seen; [by rewrite elem_of_nil|].
  rewrite elem_of_cons. simpl. intros [->|I].
  - destruct (decide (row_key r0 ∈ seen)); [by left|].
    right. rewrite fmap_cons. by left.
  - destruct (decide (row_key r0 ∈ seen)); [by apply IH|].
    destruct (IH ({[row_key r0]} ∪ seen) I) as [S|S].
    + apply elem_of_union in S as [S|S]; [|by left].
      right. rewrite fmap_cons. apply elem_of_singleton in S. rewrite S. by left.
    + right. rewrite fmap_cons. by right.
Qed.

(** The table after a statement that may or may not have run. *)
Lemma execute_table {A} (sem : connection -> result A * connection) (c : connection)
    (P : list row -> Prop) :
  P (table c) ->
  (forall c0, table c0 = table c -> P (table (snd (sem c0)))) ->
  P (table (snd (execute sem c))).
Proof.
  intros H0 H1. rewrite execute_spec. destruct (next_fault c); [done|].
  by apply H1.
Qed.

Lemma dump_all_table (m : manager) : db_table (_dump_all m) = db_table m.
Proof.
  unfold _dump_all, db_table. destruct (conn m) as [c|] eqn:E.
  - by exec_cases.
  - simpl. by rewrite E.
Qed.

Lemma dump_json_table (m : manager) (season : string) :
  db_table (_dump_json m season) = db_table m.
Proof.
  unfold _dump_json, _db_load_games. destruct (conn m) as [c|] eqn:E; [|done].
  rewrite execute_spec. destruct (next_fault c); simpl.
  - unfold db_table. simpl. by rewrite E.
  - rewrite dump_all_table. unfold db_table. simpl. by rewrite E.
Qed.

Lemma insert_keeps_unique (season n : string) (g : game) (c : connection) :
  gameNumber g = Some n -> unique_keys (table c) ->
  unique_keys (table (snd (Sql.insert season g c))).
Proof.
  intros G U. unfold Sql.insert. rewrite G.
  destruct (existsb (Sql.has_key season (Some n)) (table c)) eqn:X; [done|].
  simpl. unfold unique_keys. rewrite fmap_app. apply NoDup_app.
  split; [done|]. split; [|apply NoDup_singleton].
  intros k (r & -> & I)%list_elem_of_fmap. simpl. rewrite list_elem_of_singleton.
  intros K. assert (existsb (Sql.has_key season (Some n)) (table c) = true); [|congruence].
  apply existsb_exists. exists r. split; [by apply list_elem_of_In|].
  apply has_key_row_key. rewrite K. unfold row_key. simpl. by rewrite G.
Qed.

Lemma update_keeps_keys (season : string) (n : option string) (g : game) (t : list row) :
  row_key <$> Sql.update season n g t = row_key <$> t.
Proof.
  unfold Sql.update. induction t as [|r t IH]; [done|].
  cbn [List.map]. rewrite !fmap_cons. f_equal; [|exact IH].
  by destruct (Sql.has_key season n r).
Qed.

(** Whatever the statements do, the writes keep the keys of the table
    unique. *)
Lemma writes_keep_unique_keys (m : manager) (season n : string) (g : game) :
  attached m -> unique_keys (db_table m) ->
  (gameNumber g = Some n -> unique_keys (db_table (snd (add_game m season g)))) /\
  unique_keys (db_table (snd (update_game m season n g))) /\
  unique_keys (db_table (snd (delete_game m season n))).
Proof.
  intros [c E] U. unfold db_table in U. rewrite E in U. split; [|split].
  - intros G. unfold add_game. rewrite E.
    pose proof (execute_table
      (fun c => (Ok tt, with_table c (Sql.delete_key season (gameNumber g) (table c))))
      c unique_keys U) as U1.
    destruct (execute _ c) as [r1 c1]. simpl in U1.
    assert (unique_keys (table c1)) as U1'.
    { apply U1. intros c0 ->. simpl. by apply filter_keeps_unique. }
    pose proof (execute_table (Sql.insert season g) c1 unique_keys U1') as U2.
    destruct (execute (Sql.insert season g) c1) as [[u|msg] c2]; simpl in *.
    + rewrite dump_json_table. unfold db_table. simpl. apply U2.
      intros c0 E0. apply (insert_keeps_unique season n); [done | by rewrite E0].
    + unfold db_table. simpl. apply U2.
      intros c0 E0. apply (insert_keeps_unique season n); [done | by rewrite E0].
  - unfold update_game. rewrite E.
    pose proof (execute_table
      (fun c => (Ok tt, with_table c (Sql.update season (Some n) g (table c))))
      c unique_keys U) as U1.
    assert (unique_keys (table (snd (execute
      (fun c => (Ok tt, with_table c (Sql.update season (Some n) g (table c)))) c)))) as U1'.
    { apply U1. intros c0 E0. simpl. unfold unique_keys.
      by rewrite update_keeps_keys, E0. }
    destruct (execute _ c) as [[u|msg] c1]; simpl in *.
    + rewrite dump_json_table. unfold db_table. by simpl.
    + unfold db_table. by simpl.
  - unfold delete_game. rewrite E.
    pose proof (execute_table
      (fun c => (Ok tt, with_table c (Sql.delete_key season (Some n) (table c))))
      c unique_keys U) as U1.
    assert (unique_keys (table (snd (execute
      (fun c => (Ok tt, with_table c (Sql.delete_key season (Some n) (table c)))) c)))) as U1'.
    { apply U1. intros c0 E0. simpl. rewrite E0. by apply filter_keeps_unique. }
    destruct (execute _ c) as [[u|msg] c1]; simpl in *.
    + rewrite dump_json_table. unfold db_table. by simpl.
    + unfold db_table. by simpl.
Qed.

(** A record without a game number has no key in SQL's sense: NULL equals
    nothing, so the delete removes no row and the constraint admits the
    insert; each such add is one more row. *)
Remark add_game_without_number (m : manager) (c : connection) (season : string) (g : game) :
  conn m = Some c -> faults c = [] -> gameNumber g = None ->
  db_table (snd (add_game m season g)) = table c ++ [Sql.new_row (next_id c) season g].
Proof.
  intros E H G. unfold db_table. rewrite (add_game_healthy_conn m c) by done.
  unfold upsert. simpl. rewrite G. f_equal.
  apply delete_key_absent. induction (table c) as [|r t IH]; [done|]. simpl.
  rewrite IH, orb_false_r. unfold Sql.has_key, Sql.eq_text.
  destruct (row_gameNumber r); apply andb_false_r.
Qed.

(** C1: the store keeps one record per [(season, gameNumber)].  On a
    working database, [add_game] of a record that carries a game number
    raises nothing and leaves exactly one row with its key, the new one,
    the other rows as they were, and a table with unique keys if it had
    them; in JSON-only mode it leaves the season file holding the one
    record; [_dedupe_db] leaves, of the rows of each key, the first one
    in table order, so that all keys are unique and none is lost; and
    whether their statements go through or raise, [add_game],
    [update_game] and [delete_game] keep the keys of the table unique. *)
Theorem one_record_per_season_and_number :
  (forall (m : manager) (c : connection) (season n : string) (g : game),
     conn m = Some c -> faults c = [] -> gameNumber g = Some n ->
     exists m' c',
       add_game m season g = (Ok tt, m') /\
       conn m' = Some c' /\
       List.filter (Sql.has_key season (Some n)) (table c')
         = [Sql.new_row (next_id c) season g] /\
       List.filter (fun r => negb (Sql.has_key season (Some n) r)) (table c')
         = List.filter (fun r => negb (Sql.has_key season (Some n) r)) (table c) /\
       (unique_keys (table c) -> unique_keys (table c'))) /\
  (forall (m : manager) (season : string) (g : game),
     conn m = None ->
     exists m',
       add_game m season g = (Ok tt, m') /\
       read_games m' (get_season_file season) = [g]) /\
  (forall (m : manager) (c : connection),
     conn m = Some c -> faults c = [] -> NoDup (row_id <$> table c) ->
     exists m' c',
       _dedupe_db m = (Ok tt, m') /\
       conn m' = Some c' /\
       table c' = first_per_key ∅ (table c) /\
       unique_keys (table c') /\
       (forall r, r ∈ table c -> row_key r ∈ row_key <$> table c')) /\
  (forall (m : manager) (season n : string) (g : game),
     attached m -> unique_keys (db_table m) ->
     (gameNumber g = Some n -> unique_keys (db_table (snd (add_game m season g)))) /\
     unique_keys (db_table (snd (update_game m season n g))) /\
     unique_keys (db_table (snd (delete_game m season n)))).
Proof.
  split; [|split; [|split]]; [| | |apply writes_keep_unique_keys].
  - intros m c season n g E H G.
    exists (snd (add_game m season g)), (upsert season g c).
    split; [by rewrite (add_game_healthy _ c)|].
    split; [by apply add_game_healthy_conn|].
    by apply upsert_one_row_per_key.
  - intros m season g E.
    destruct (add_game_json_overwrites_file m season g E) as (m' & A & _ & L).
    exists m'. split; [done|]. unfold read_games. by rewrite L.
  - intros m c E H N. do 2 eexists.
    split; [by apply dedupe_db_healthy|]. split; [reflexivity|].
    rewrite delete_ids_table, dedupe_scan_keeps_first by done.
    split; [done|]. split; [apply first_per_key_unique|].
    intros r I. destruct (first_per_key_keeps_keys ∅ _ r I) as [S|S]; [|done].
    by apply elem_of_empty in S.
Qed.

(** ** Season files and their names *)

Lemma length_append_json (y : string) :
  String.length (y ++ ".json")%string = (String.length y + 5)%nat.
Proof. induction y as [|a y IH]; simpl; [done | by rewrite IH]. Qed.

Lemma substring_append_json (y : string) :
  String.substring 0 (String.length y) (y ++ ".json")%string = y.
Proof. induction y as [|a y IH]; simpl; [done | by rewrite IH]. Qed.

Lemma slice_season_file (y : string) :
  Str.slice 6 5 ("games_" ++ y ++ ".json")%string = y.
Proof.
  unfold Str.slice. simpl.
  change (String.append "" (y ++ ".json")%string) with (y ++ ".json")%string.
  rewrite length_append_json.
  replace (String.length y + 5 - 0 - 5)%nat with (String.length y) by lia.
  apply substring_append_json.
Qed.

Lemma replace_there_and_back (x : string) :
  Str.replace "-" "/" (Str.replace "/" "-" (Str.replace "-" "/" x))
    = Str.replace "-" "/" x.
Proof.
  induction x as [|a x IH]; simpl; [done|]. rewrite IH. f_equal.
  destruct (Ascii.eqb_spec a "-") as [->|N]; [done|].
  destruct (Ascii.eqb_spec a "/") as [->|N']; [done|].
  destruct (Ascii.eqb_spec a "-"); done.
Qed.

(** The backup of a season that came from a file name is a file of that
    same season. *)
Lemma season_of_backup_file (fname : string) :
  season_of_file (get_season_file (season_of_file fname)) = season_of_file fname.
Proof.
  unfold get_season_file. unfold season_of_file at 1.
  rewrite slice_season_file. unfold season_of_file. apply replace_there_and_back.
Qed.

(** ** What an import does to the other seasons and the other files *)

Lemma delete_season_empty (s : string) (t : list row) :
  Sql.count_season s t = 0%nat -> Sql.delete_season s t = t.
Proof.
  unfold Sql.count_season, Sql.delete_season.
  induction t as [|r t IH]; [done|]. simpl.
  destruct (Sql.in_season s r); simpl; [discriminate|]. intros H. by rewrite IH.
Qed.

Lemma in_season_other (s s' : string) (r : row) :
  s' <> s -> Sql.in_season s' r = true -> Sql.in_season s r = false.
Proof.
  unfold Sql.in_season. intros N H. apply String.eqb_eq in H.
  apply String.eqb_neq. congruence.
Qed.

Lemma select_after_filter (s' : string) (p : row -> bool) (t : list row) :
  (forall r, Sql.in_season s' r = true -> p r = true) ->
  Sql.select_season s' (List.filter p t) = Sql.select_season s' t.
Proof.
  intros H. unfold Sql.select_season. f_equal.
  induction t as [|r t IH]; [done|]. simpl.
  destruct (p r) eqn:P; simpl; rewrite IH; [done|].
  destruct (Sql.in_season s' r) eqn:S; [|done]. apply H in S. congruence.
Qed.

Lemma select_other_after_clear (s s' : string) (t : list row) :
  s' <> s -> Sql.select_season s' (Sql.delete_season s t) = Sql.select_season s' t.
Proof.
  intros N. apply select_after_filter. intros r H.
  by rewrite (in_season_other s s' r).
Qed.

Lemma select_other_after_upsert (s s' : string) (g : game) (c : connection) :
  s' <> s ->
  Sql.select_season s' (table (upsert s g c)) = Sql.select_season s' (table c).
Proof.
  intros N. unfold upsert. simpl. unfold Sql.select_season at 1.
  rewrite List.filter_app. simpl.
  replace (Sql.in_season s' (Sql.new_row (next_id c) s g)) with false.
  - rewrite app_nil_r. apply (select_after_filter s'). intros r H.
    unfold Sql.has_key. by rewrite (in_season_other s s' r).
  - symmetry. unfold Sql.in_season. simpl. apply String.eqb_neq. congruence.
Qed.

Lemma count_after_upsert (s : string) (g : game) (c : connection) :
  (0 < Sql.count_season s (table (upsert s g c)))%nat.
Proof.
  unfold upsert, Sql.count_season. simpl.
  rewrite List.filter_app, length_app. simpl.
  unfold Sql.in_season at 2. simpl. rewrite String.eqb_refl. simpl. lia.
Qed.

Lemma add_all_effect (season : string) (gs : list game) (m : manager) :
  healthy m ->
  (forall s', s' <> season ->
     Sql.select_season s' (db_table (add_all m season gs))
       = Sql.select_season s' (db_table m)) /\
  (forall path, path <> get_season_file season -> path <> "all_games.json" ->
     data_dir (add_all m season gs) !! path = data_dir m !! path) /\
  (gs <> [] -> (0 < Sql.count_season season (db_table (add_all m season gs)))%nat).
Proof.
  revert m. induction gs as [|g gs IH]; intros m H; [done|].
  destruct H as (c & E & H).
  pose proof (add_game_healthy_conn m c season g E H) as E1.
  pose proof (add_game_healthy_files m c season g E H) as F1.
  assert (healthy (snd (add_game m season g))) as H1 by (by exists (upsert season g c)).
  destruct (IH _ H1) as (IH1 & IH2 & IH3).
  unfold add_all in *. simpl. split; [|split].
  - intros s' N. rewrite IH1 by done. unfold db_table. rewrite E1, E.
    by apply select_other_after_upsert.
  - intros path N1 N2. rewrite IH2 by done. rewrite F1.
    by rewrite !lookup_insert_ne.
  - intros _. destruct gs as [|g' gs].
    + simpl. unfold db_table. rewrite E1. apply count_after_upsert.
    + by apply IH3.
Qed.

(** ** Migration: the loop and its invariant *)

Lemma read_games_ext (m m' : manager) (fname : string) :
  data_dir m' !! fname = data_dir m !! fname -> read_games m' fname = read_games m fname.
Proof. unfold read_games. by intros ->. Qed.

Lemma iterate_ext (m m' : manager) (fname : string) :
  data_dir m' !! fname = data_dir m !! fname -> iterate m' fname = iterate m fname.
Proof. unfold iterate, read_games. by intros ->. Qed.

Lemma iterate_games (m : manager) (fname : string) (gs : list game) :
  iterate m fname = Ok gs -> gs = read_games m fname.
Proof.
  unfold iterate. destruct (data_dir m !! fname) as [[l|ss|k|]|] eqn:L;
    intros [= <-]; done.
Qed.

Lemma import_file_healthy (m : manager) (c : connection) (markers : gset string)
    (fname : string) :
  conn m = Some c -> faults c = [] ->
  import_file (m, markers) fname =
  if is_season_file fname then
    let season := season_of_file fname in
    if bool_decide (season ∈ markers) && (0 <? Sql.count_season season (table c))%nat
    then (Ok tt, (m, markers))
    else
      match iterate m fname with
      | Ok gs =>
          (Ok tt,
           (_write_markers (add_all (clear_season m season) season gs)
                           ({[season]} ∪ markers),
            {[season]} ∪ markers))
      | Raise msg => (Raise msg, (clear_season m season, markers))
      end
  else (Ok tt, (m, markers)).
Proof.
  intros E H. unfold import_file. destruct (is_season_file fname); [|done].
  rewrite (already_imported_healthy _ c) by done. cbv zeta.
  by destruct (_ && _).
Qed.

Lemma season_file_is_not_markers (fname : string) :
  is_season_file fname = true -> fname <> marker_file.
Proof. intros H ->. vm_compute in H. discriminate. Qed.

Lemma season_file_is_not_export (fname : string) :
  is_season_file fname = true -> fname <> "all_games.json".
Proof. intros H ->. vm_compute in H. discriminate. Qed.

Lemma import_file_step (fname : string) (names : list string) (st : manager * gset string) :
  migrating (fname :: names) st -> fst (import_file st fname) = Ok tt ->
  migrating names (snd (import_file st fname)).
Proof.
  destruct st as [m markers]. intros (H & R & S). simpl in H, R, S.
  destruct H as (c & E & Hc).
  rewrite (import_file_healthy m c) by done.
  destruct (is_season_file fname) eqn:SF.
  2: { intros _. split; [by exists c|]. split; [done|]. simpl. intros f' I SF'.
       destruct (S f' I SF') as [[->|?]%elem_of_cons|?];
         [congruence | by left | by right]. }
  cbv zeta. set (s := season_of_file fname).
  destruct (bool_decide (s ∈ markers) && (0 <? Sql.count_season s (table c))%nat) eqn:SK.
  - intros _. apply andb_true_iff in SK as [I1 I2].
    apply bool_decide_eq_true in I1. apply Nat.ltb_lt in I2.
    split; [by exists c|]. split; [done|]. simpl. intros f' I SF'.
    destruct (S f' I SF') as [[->|?]%elem_of_cons|?]; [|by left | by right].
    right. split; [done|]. left. unfold db_table. by rewrite E.
  - destruct (iterate m fname) as [gs|msg] eqn:G; [intros _ | discriminate 1].
    cbn [snd]. set (m2 := clear_season m s).
    assert (m2 = set_conn m (Some (with_table c (Sql.delete_season s (table c))))) as Em2
      by (by apply clear_season_healthy).
    assert (healthy m2) as H2
      by (rewrite Em2; eexists; split; [reflexivity | done]).
    assert (db_table m2 = Sql.delete_season s (table c)) as T2 by (by rewrite Em2).
    assert (data_dir m2 = data_dir m) as D2 by (by rewrite Em2).
    destruct (add_all_effect s gs m2 H2) as (A1 & A2 & A3).
    pose proof (add_all_keeps_healthy s gs m2 H2) as (c3 & E3 & H3).
    set (m3 := add_all m2 s gs) in *.
    split; [by exists c3|]. split.
    { unfold _read_markers, _write_markers. simpl. by rewrite lookup_insert_eq. }
    simpl. intros f' I SF'.
    pose proof (season_file_is_not_markers f' SF') as NM.
    pose proof (season_file_is_not_export f' SF') as NX.
    rewrite lookup_insert_ne in I by done.
    assert (iterate (_write_markers m3 ({[s]} ∪ markers)) f' = iterate m3 f') as RG
      by (apply iterate_ext; simpl; by rewrite lookup_insert_ne).
    unfold settled. rewrite RG.
    replace (db_table (_write_markers m3 ({[s]} ∪ markers))) with (db_table m3)
      by reflexivity.
    destruct (decide (season_of_file f' = s)) as [Es|Ns].
    + rewrite Es. destruct gs as [|g gs].
      * assert (m3 = m2) as -> by reflexivity.
        rewrite D2 in I.
        destruct (S f' I SF') as [[->|?]%elem_of_cons|[M [C|RF]]]; [| by left | |].
        -- right. split; [apply elem_of_union; left; by apply elem_of_singleton|].
           right. by rewrite (iterate_ext m m2) by (by rewrite D2).
        -- exfalso. rewrite Es in M, C. unfold db_table in C. rewrite E in C.
           apply Nat.ltb_lt in C. rewrite C, andb_true_r in SK.
           by apply bool_decide_eq_false in SK.
        -- right. split; [apply elem_of_union; right; by rewrite <- Es|]. right.
           by rewrite (iterate_ext m m2) by (by rewrite D2).
      * right. split; [apply elem_of_union; left; by apply elem_of_singleton|].
        left. by apply A3.
    + assert (f' <> get_season_file s) as NB.
      { intros ->. apply Ns. apply season_of_backup_file. }
      rewrite A2, D2 in I by done.
      rewrite (iterate_ext m m3) by (rewrite A2, D2; done).
      assert (Sql.count_season (season_of_file f') (db_table m3)
              = Sql.count_season (season_of_file f') (table c)) as CN.
      { rewrite <- !select_season_length. rewrite A1, T2 by done.
        by rewrite select_other_after_clear. }
      rewrite CN.
      destruct (S f' I SF') as [[->|?]%elem_of_cons|[M [C|RF]]]; [done | by left | |].
      * right. split; [apply elem_of_union; by right|]. left.
        unfold db_table in C. by rewrite E in C.
      * right. split; [apply elem_of_union; by right|]. by right.
Qed.

Lemma import_files_inv (names : list string) (st : manager * gset string) :
  migrating names st -> fst (import_files names st) = Ok tt ->
  migrating [] (snd (import_files names st)).
Proof.
  revert st. induction names as [|f names IH]; intros st M; [done|]. simpl.
  pose proof (import_file_step f names st M) as Step.
  destruct (import_file st f) as [[[]|msg] st']; [|simpl; discriminate 1].
  apply IH. by apply Step.
Qed.

Lemma write_file_same (m : manager) (path : string) (f : json_file) :
  data_dir m !! path = Some f -> write_file m path f = m.
Proof. destruct m. unfold write_file. simpl. intros L. by rewrite insert_id. Qed.

Lemma markers_file_of_read (m : manager) (markers : gset string) (s : string) :
  _read_markers m = markers -> s ∈ markers ->
  data_dir m !! marker_file = Some (JSeasons markers).
Proof.
  unfold _read_markers. intros R I.
  destruct (data_dir m !! marker_file) as [[gs|ss|k|]|]; subst;
    try (by apply elem_of_empty in I). done.
Qed.

(** Once every season file is settled, a turn of the loop changes nothing. *)
Lemma import_file_settled (m : manager) (markers : gset string) (fname : string) :
  healthy m -> _read_markers m = markers ->
  (is_season_file fname = true -> settled m markers fname) ->
  import_file (m, markers) fname = (Ok tt, (m, markers)).
Proof.
  intros (c & E & H) R S. rewrite (import_file_healthy m c) by done.
  destruct (is_season_file fname); [|done]. cbv zeta.
  destruct (S eq_refl) as [M C]. unfold db_table in C. rewrite E in C.
  rewrite bool_decide_eq_true_2 by done. simpl.
  destruct (Nat.ltb_spec 0 (Sql.count_season (season_of_file fname) (table c)))
    as [P|Z]; [done|].
  destruct C as [C|C]; [lia|]. rewrite C.
  assert ({[season_of_file fname]} ∪ markers = markers) as ->.
  { apply subseteq_union_1_L. by apply singleton_subseteq_l. }
  rewrite (clear_season_healthy _ c) by done.
  rewrite delete_season_empty by lia.
  rewrite with_table_same, set_conn_same by done.
  unfold add_all. simpl. unfold _write_markers.
  rewrite write_file_same; [done|]. by eapply markers_file_of_read.
Qed.

Lemma import_files_settled (names : list string) (m : manager) (markers : gset string) :
  healthy m -> _read_markers m = markers ->
  (forall fname, fname ∈ names -> is_season_file fname = true -> settled m markers fname) ->
  import_files names (m, markers) = (Ok tt, (m, markers)).
Proof.
  intros H R. induction names as [|f names IH]; intros S; [done|].
  cbn [import_files].
  rewrite import_file_settled; [|done|done|apply S; by left].
  apply IH. intros f' I. apply S. by right.
Qed.

Lemma listdir_lookup (d : gmap string json_file) (fname : string) :
  fname ∈ listdir d <-> is_Some (d !! fname).
Proof.
  unfold listdir. split.
  - intros I. apply list_elem_of_In, in_map_iff in I as ([k v] & <- & I).
    apply list_elem_of_In, elem_of_map_to_list in I. simpl. eauto.
  - intros [v L]. apply list_elem_of_In, in_map_iff. exists (fname, v).
    split; [done|]. by apply list_elem_of_In, elem_of_map_to_list.
Qed.

(** After a migration that returned, every season file of the directory is
    settled. *)
Lemma import_json_to_db_settles (m : manager) :
  healthy m -> fst (import_json_to_db m) = Ok tt ->
  let m1 := snd (import_json_to_db m) in
  healthy m1 /\
  (forall fname, fname ∈ listdir (data_dir m1) -> is_season_file fname = true ->
     settled m1 (_read_markers m1) fname) /\
  exists c1, conn m1 = Some c1 /\ faults c1 = [] /\
             data_dir m1 !! "all_games.json" = Some (export_of (table c1)).
Proof.
  intros H. cbv zeta. unfold import_json_to_db.
  assert (migrating (listdir (data_dir m)) (m, _read_markers m)) as M0.
  { split; [done|]. split; [done|]. simpl. intros f I _. left. by apply listdir_lookup. }
  pose proof (import_files_inv _ _ M0) as M1.
  destruct (import_files (listdir (data_dir m)) (m, _read_markers m)) as [[[]|msg] [mL mk]];
    [intros _ | simpl; discriminate 1].
  destruct (M1 eq_refl) as ((c & E & Hc) & R & S). simpl in E, R, S. cbn [fst snd].
  rewrite (dump_all_healthy _ c) by done.
  split; [by exists c|]. split.
  - intros f I SF. apply listdir_lookup in I. simpl in I.
    pose proof (season_file_is_not_export f SF) as NX.
    rewrite lookup_insert_ne in I by done.
    destruct (S f I SF) as [N|[M C]]; [by apply elem_of_nil in N|].
    assert (_read_markers (write_file mL "all_games.json" (export_of (table c))) = mk) as ->.
    { rewrite <- R. unfold _read_markers. simpl. by rewrite lookup_insert_ne. }
    split; [done|].
    rewrite (iterate_ext mL) by (simpl; by rewrite lookup_insert_ne). exact C.
  - exists c. split; [done|]. split; [done|]. simpl. by rewrite lookup_insert_eq.
Qed.

Lemma import_json_to_db_twice (m : manager) :
  healthy m -> fst (import_json_to_db m) = Ok tt ->
  import_json_to_db (snd (import_json_to_db m)) = import_json_to_db m.
Proof.
  intros H R. destruct (import_json_to_db_settles m H R) as (H1 & S1 & c1 & E1 & F1 & X1).
  destruct (import_json_to_db m) as [r m1] eqn:Q. simpl in *. subst r.
  unfold import_json_to_db at 1.
  rewrite (import_files_settled _ m1 (_read_markers m1)) by done.
  rewrite (dump_all_healthy _ c1) by done. f_equal. by apply write_file_same.
Qed.

(** ** Migration: a season that is marked and has rows is left alone *)

Lemma import_file_keeps_season (st : manager * gset string) (fname s : string) :
  healthy (fst st) -> s ∈ snd st ->
  (0 < Sql.count_season s (db_table (fst st)))%nat ->
  (s ∈ snd (snd (import_file st fname))) /\
  Sql.select_season s (db_table (fst (snd (import_file st fname))))
    = Sql.select_season s (db_table (fst st)).
Proof.
  destruct st as [m markers]. cbn [fst snd]. intros (c & E & H) M C.
  rewrite (import_file_healthy m c) by done.
  destruct (is_season_file fname); [|done]. cbv zeta.
  destruct (bool_decide (season_of_file fname ∈ markers) &&
            (0 <? Sql.count_season (season_of_file fname) (table c))%nat) eqn:SK; [done|].
  assert (s <> season_of_file fname) as N.
  { intros ->. unfold db_table in C. rewrite E in C. apply Nat.ltb_lt in C.
    rewrite C, andb_true_r in SK. by apply bool_decide_eq_false in SK. }
  set (s0 := season_of_file fname) in *.
  assert (clear_season m s0 = set_conn m (Some (with_table c (Sql.delete_season s0 (table c)))))
    as Em2 by (by apply clear_season_healthy).
  assert (Sql.select_season s (db_table (clear_season m s0))
          = Sql.select_season s (db_table m)) as T2.
  { rewrite Em2. unfold db_table. simpl. rewrite E. by apply select_other_after_clear. }
  destruct (iterate m fname) as [gs|msg]; cbn [fst snd]; [|done].
  split; [apply elem_of_union; by right|].
  assert (healthy (clear_season m s0)) as H2
    by (rewrite Em2; eexists; split; [reflexivity | done]).
  destruct (add_all_effect s0 gs _ H2) as (A1 & _).
  replace (db_table (_write_markers (add_all (clear_season m s0) s0 gs) ({[s0]} ∪ markers)))
    with (db_table (add_all (clear_season m s0) s0 gs)) by reflexivity.
  by rewrite A1.
Qed.

Lemma import_files_keeps_season (names : list string) (st : manager * gset string)
    (s : string) :
  healthy (fst st) -> s ∈ snd st ->
  (0 < Sql.count_season s (db_table (fst st)))%nat ->
  Sql.select_season s (db_table (fst (snd (import_files names st))))
    = Sql.select_season s (db_table (fst st)).
Proof.
  revert st. induction names as [|f names IH]; intros st H M C; [done|]. simpl.
  destruct (import_file_keeps_season st f s H M C) as [M1 T1].
  pose proof (import_file_keeps_healthy st f H) as H1.
  destruct (import_file st f) as [[u|msg] st']; cbn [fst snd] in *; [|done].
  rewrite IH; [done | done | done |].
  by rewrite <- select_season_length, T1, select_season_length.
Qed.

Lemma import_json_to_db_keeps_season (m : manager) (s : string) :
  healthy m -> s ∈ _read_markers m ->
  (0 < Sql.count_season s (db_table m))%nat ->
  Sql.select_season s (db_table (snd (import_json_to_db m)))
    = Sql.select_season s (db_table m).
Proof.
  intros H M C. unfold import_json_to_db.
  pose proof (import_files_keeps_season (listdir (data_dir m)) (m, _read_markers m) s H M C)
    as T.
  destruct (import_files _ _) as [[u|msg] [m' mk]]; cbn [fst snd] in *; [|done].
  by rewrite dump_all_table.
Qed.

(** ** Re-import: every game of the file gets a row *)

Lemma eq_text_true (a b : option string) : Sql.eq_text a b = true -> a = b.
Proof.
  destruct a as [x|], b as [y|]; simpl; try discriminate.
  intros H. apply String.eqb_eq in H. by subst.
Qed.

Lemma upsert_keeps_key (s : string) (k : option string) (g : game) (c : connection) :
  (exists r, r ∈ table c /\ row_key r = (s, k)) ->
  exists r, r ∈ table (upsert s g c) /\ row_key r = (s, k).
Proof.
  intros (r & I & K). unfold upsert. simpl.
  destruct (Sql.has_key s (gameNumber g) r) eqn:HK.
  - exists (Sql.new_row (next_id c) s g). split.
    + apply elem_of_app. right. by apply list_elem_of_singleton.
    + apply andb_true_iff in HK as [_ T]. apply eq_text_true in T.
      unfold row_key in *. simpl. congruence.
  - exists r. split; [|done]. apply elem_of_app. left.
    apply list_elem_of_In, List.filter_In. split; [by apply list_elem_of_In|].
    by rewrite HK.
Qed.

Lemma add_all_keeps_key (s : string) (k : option string) (gs : list game) (m : manager) :
  healthy m ->
  (exists r, r ∈ db_table m /\ row_key r = (s, k)) ->
  exists r, r ∈ db_table (add_all m s gs) /\ row_key r = (s, k).
Proof.
  revert m. induction gs as [|g gs IH]; intros m H X; [done|].
  destruct H as (c & E & H). unfold add_all. simpl. apply IH.
  - apply add_game_keeps_healthy. by exists c.
  - unfold db_table in *. rewrite (add_game_healthy_conn m c) by done.
    rewrite E in X. by apply upsert_keeps_key.
Qed.

Lemma add_all_adds_every_game (s : string) (gs : list game) (m : manager) (g : game) :
  healthy m -> g ∈ gs ->
  exists r, r ∈ db_table (add_all m s gs) /\ row_key r = (s, gameNumber g).
Proof.
  revert m. induction gs as [|g0 gs IH]; intros m H I; [by apply elem_of_nil in I|].
  apply elem_of_cons in I as [->|I].
  - destruct H as (c & E & H). unfold add_all. simpl. apply add_all_keeps_key.
    + apply add_game_keeps_healthy. by exists c.
    + unfold db_table. rewrite (add_game_healthy_conn m c) by done.
      exists (Sql.new_row (next_id c) s g0). split; [|done].
      unfold upsert. simpl. apply elem_of_app. right. by apply list_elem_of_singleton.
  - unfold add_all. simpl. apply IH; [|done]. by apply add_game_keeps_healthy.
Qed.

(** C5: migration is idempotent per season.  In the loop, a file whose
    season is marked is passed over when the count of the season's rows
    comes back as one or more, and is imported again when it comes back as
    zero: every game of the file gets a row with its game number, and the
    rows of the other seasons stay as they are.  Over a working database,
    a migration that returned (as it does when no season file holds a
    scalar) is not changed by a second one: the manager after the second
    run, and so the rows of every season in count and content, are those
    after the first; and whether or not the first run returned, a season
    that it left marked and with rows has the same rows after the
    second. *)
Theorem migration_is_idempotent (m : manager) (c : connection) :
  conn m = Some c ->
  (forall (markers : gset string) (fname : string),
     is_season_file fname = true ->
     season_of_file fname ∈ markers ->
     next_fault c = None ->
     ((0 < Sql.count_season (season_of_file fname) (table c))%nat ->
        import_file (m, markers) fname
          = (Ok tt, (set_conn m (Some (advance c)), markers))) /\
     (Sql.count_season (season_of_file fname) (table c) = 0%nat ->
      faults c = [] ->
      (forall k, data_dir m !! fname <> Some (JScalar k)) ->
        fst (import_file (m, markers) fname) = Ok tt /\
        (forall g, g ∈ read_games m fname ->
           exists r, r ∈ db_table (fst (snd (import_file (m, markers) fname))) /\
                     row_key r = (season_of_file fname, gameNumber g)) /\
        (forall s', s' <> season_of_file fname ->
           Sql.select_season s' (db_table (fst (snd (import_file (m, markers) fname))))
             = Sql.select_season s' (table c)) /\
        (season_of_file fname ∈ snd (snd (import_file (m, markers) fname))))) /\
  (faults c = [] ->
   let first := import_json_to_db m in
   let second := import_json_to_db (snd first) in
   (iterable (data_dir m) -> fst first = Ok tt) /\
   (fst first = Ok tt -> second = first) /\
   (forall season,
      season ∈ _read_markers (snd first) ->
      (0 < Sql.count_season season (db_table (snd first)))%nat ->
      Sql.select_season season (db_table (snd second))
        = Sql.select_season season (db_table (snd first)))).
Proof.
  intros E. split.
  - intros markers fname SF M F. split.
    + intros P. unfold import_file, already_imported. rewrite SF.
      destruct (decide (season_of_file fname ∈ markers)); [|done].
      rewrite E, execute_spec, F. change (table (advance c)) with (table c).
      apply Nat.ltb_lt in P. by rewrite P.
    + intros Z H NS. rewrite (import_file_healthy m c) by done. rewrite SF. cbv zeta.
      rewrite bool_decide_eq_true_2 by done. rewrite Z. simpl.
      assert (iterate m fname = Ok (read_games m fname)) as ->.
      { unfold iterate. destruct (data_dir m !! fname) as [[gs|ss|k|]|] eqn:L; try done.
        by destruct (NS k). }
      cbn [fst snd].
      assert (clear_season m (season_of_file fname) = m) as ->.
      { rewrite (clear_season_healthy _ c) by done.
        rewrite delete_season_empty by done.
        by rewrite with_table_same, set_conn_same. }
      assert (healthy m) as Hm by (by exists c).
      replace (db_table (_write_markers
                 (add_all m (season_of_file fname) (read_games m fname))
                 ({[season_of_file fname]} ∪ markers)))
        with (db_table (add_all m (season_of_file fname) (read_games m fname)))
        by reflexivity.
      split; [done|]. split; [|split].
      * intros g I. by apply add_all_adds_every_game.
      * intros s' N.
        destruct (add_all_effect (season_of_file fname) (read_games m fname) m Hm)
          as (A1 & _). rewrite A1 by done. unfold db_table. by rewrite E.
      * apply elem_of_union. left. by apply elem_of_singleton.
  - intros H first second. assert (healthy m) as Hm by (by exists c).
    split; [apply import_json_to_db_returns|]. split.
    + intros R. by apply import_json_to_db_twice.
    + intros season M P. apply import_json_to_db_keeps_season; [|done|done].
      by apply import_json_to_db_keeps_healthy.
Qed.

(** ** Worked examples *)

(** Two migrations of one season file of two games into an empty table. *)
Lemma migration_is_idempotent_witness :
  import_json_to_db (snd (import_json_to_db fresh_db_manager))
    = import_json_to_db fresh_db_manager /\
  List.map row_gameNumber (db_table (snd (import_json_to_db fresh_db_manager)))
    = [Some "1"; Some "2"] /\
  _read_markers (snd (import_json_to_db fresh_db_manager)) = {[ season_2025 ]}.
Proof.
  split; [|split].
  - destruct (migration_is_idempotent fresh_db_manager (empty_db true) eq_refl)
      as (_ & Twice).
    destruct (Twice eq_refl) as (_ & Same & _). apply Same.
    vm_compute. reflexivity.
  - vm_compute. reflexivity.
  - vm_compute. reflexivity.
Defined.

(** Deduplication of the table above, and a second add of game "1". *)
Lemma one_record_per_season_and_number_witness :
  (exists m' c',
     _dedupe_db duplicated_manager = (Ok tt, m') /\
     conn m' = Some c' /\
     List.map row_id (table c') = [1%Z; 3%Z]) /\
  (exists m' c',
     add_game db_manager_one_row season_2025 field_a_game = (Ok tt, m') /\
     conn m' = Some c' /\
     List.map row_id (table c') = [2%Z]).
Proof.
  destruct one_record_per_season_and_number as (A & _ & D & _). split.
  - assert (NoDup (row_id <$> duplicated_table)) as N
      by (apply (bool_decide_unpack _); vm_compute; reflexivity).
    destruct (D duplicated_manager _ eq_refl eq_refl N) as (m' & c' & R & C & T & _).
    exists m', c'. split; [exact R|]. split; [exact C|]. rewrite T. vm_compute. reflexivity.
  - destruct (A db_manager_one_row _ season_2025 "1" field_a_game eq_refl eq_refl eq_refl)
      as (m' & c' & R & C & _).
    exists m', c'. split; [exact R|]. split; [exact C|].
    assert (m' = snd (add_game db_manager_one_row season_2025 field_a_game)) as E
      by (rewrite R; reflexivity).
    rewrite E in C. vm_compute in C. injection C as <-. reflexivity.
Defined.

(** * Further properties of the class *)

(** ** File names of seasons *)

Lemma endswith_json (y : string) : Str.endswith ".json" (y ++ ".json")%string = true.
Proof.
  unfold Str.endswith. rewrite length_append_json.
  replace (String.length y + 5 - String.length ".json")%nat with (String.length y)
    by (simpl; lia).
  replace (String.length ".json" <=? String.length y + 5)%nat with true
    by (symmetry; apply Nat.leb_le; simpl; lia).
  simpl. apply String.eqb_eq.
  induction y as [|a y IH]; [done|]. exact IH.
Qed.

Lemma replace_same_iff (s : string) :
  Str.replace "-" "/" s = s <-> mentions "-" s = false.
Proof.
  induction s as [|a s IH]; simpl; [done|].
  destruct (Ascii.eqb_spec a "-") as [->|N]; simpl.
  - split; [intros [= ?] | discriminate].
  - rewrite <- IH. split; [by intros [= ?] | by intros ->].
Qed.

Lemma replace_to_dash (s : string) :
  Str.replace "/" "-" (Str.replace "-" "/" s) = Str.replace "/" "-" s.
Proof.
  induction s as [|a s IH]; simpl; [done|]. rewrite IH. f_equal.
  destruct (Ascii.eqb_spec a "-") as [->|N]; [done|].
  by destruct (Ascii.eqb_spec a "/").
Qed.

Lemma season_file_is_season_file (season : string) :
  is_season_file (get_season_file season) = true.
Proof.
  unfold is_season_file, get_season_file. apply andb_true_iff. split.
  { unfold Str.startswith.
    by destruct (Str.replace "/" "-" season ++ ".json")%string. }
  change ("games_" ++ Str.replace "/" "-" season ++ ".json")%string
    with (("games_" ++ Str.replace "/" "-" season) ++ ".json")%string.
  apply endswith_json.
Qed.

(** X1: the file of a season is a season file, and reading the season
    back off its name gives the season with every "-" turned into "/": it
    is the season itself exactly when the season has no "-", and in any
    case a season that names the same file. *)
Theorem season_file_name_round_trip (season : string) :
  is_season_file (get_season_file season) = true /\
  season_of_file (get_season_file season) = Str.replace "-" "/" season /\
  (season_of_file (get_season_file season) = season <-> mentions "-" season = false) /\
  get_season_file (season_of_file (get_season_file season)) = get_season_file season.
Proof.
  assert (season_of_file (get_season_file season) = Str.replace "-" "/" season) as E.
  { unfold season_of_file, get_season_file. rewrite slice_season_file.
    induction season as [|a s IH]; simpl; [done|]. rewrite IH. f_equal.
    destruct (Ascii.eqb_spec a "/") as [->|N]; [done|].
    by destruct (Ascii.eqb_spec a "-"). }
  split; [|split; [exact E|split]].
  - unfold is_season_file, get_season_file. apply andb_true_iff. split.
    { unfold Str.startswith.
      by destruct (Str.replace "/" "-" season ++ ".json")%string. }
    change ("games_" ++ Str.replace "/" "-" season ++ ".json")%string
      with (("games_" ++ Str.replace "/" "-" season) ++ ".json")%string.
    apply endswith_json.
  - rewrite E. apply replace_same_iff.
  - rewrite E. unfold get_season_file. by rewrite replace_to_dash.
Qed.

(** ** Writes on a working database, as [load_games] sees them *)

Lemma filter_of_map {A B} (p : B -> bool) (f : A -> B) (l : list A) :
  List.filter p (List.map f l) = List.map f (List.filter (fun x => p (f x)) l).
Proof.
  induction l as [|x l IH]; [done|]. simpl.
  destruct (p (f x)); simpl; by rewrite IH.
Qed.

Lemma filter_of_filter {A} (p q : A -> bool) (l : list A) :
  List.filter p (List.filter q l) = List.filter (fun x => q x && p x) l.
Proof.
  induction l as [|x l IH]; [done|]. simpl.
  destruct (q x); simpl; [|done]. destruct (p x); by rewrite IH.
Qed.

Lemma number_is_row (n : string) (r : row) :
  number_is n (_row_to_game r) = Sql.eq_text (row_gameNumber r) (Some n).
Proof. unfold number_is. simpl. by destruct (row_gameNumber r). Qed.

Lemma load_games_healthy (m : manager) (c : connection) (season : string) :
  conn m = Some c -> faults c = [] ->
  load_games m season =
  (List.map _row_to_game (Sql.select_season season (table c)), set_db_error m None).
Proof.
  intros E H. rewrite (load_games_db _ c) by done.
  assert (next_fault c = None) as -> by (unfold next_fault; by rewrite H).
  by rewrite advance_healthy, set_conn_same.
Qed.

Lemma update_game_healthy (m : manager) (c : connection) (season n : string) (g : game) :
  conn m = Some c -> faults c = [] ->
  update_game m season n g =
  (Ok tt,
   _dump_json (set_conn m (Some (with_table c (Sql.update season (Some n) g (table c)))))
              season).
Proof. intros E H. unfold update_game. by rewrite E, execute_healthy. Qed.

Lemma delete_game_healthy (m : manager) (c : connection) (season n : string) :
  conn m = Some c -> faults c = [] ->
  delete_game m season n =
  (Ok tt,
   _dump_json (set_conn m (Some (with_table c (Sql.delete_key season (Some n) (table c)))))
              season).
Proof. intros E H. unfold delete_game. by rewrite E, execute_healthy. Qed.

(** The manager once a write has left the connection as [c'] and the
    backups have been brought up to date. *)
Lemma dump_json_after_write (m : manager) (c' : connection) (season : string) :
  faults c' = [] ->
  conn (_dump_json (set_conn m (Some c')) season) = Some c' /\
  db_error (_dump_json (set_conn m (Some c')) season) = db_error m /\
  data_dir (_dump_json (set_conn m (Some c')) season)
    = <["all_games.json" := export_of (table c')]>
        (<[get_season_file season := backup_of season (table c')]> (data_dir m)).
Proof.
  intros H. by rewrite (dump_json_healthy _ c').
Qed.

Lemma stored_amount_real (a : money) :
  match Sql.real (get_amount a) with Some x => Amount x | None => Null end
  = stored_amount a.
Proof.
  destruct a as [| |x]; [reflexivity | reflexivity |].
  unfold stored_amount, get_amount, Sql.real, PrimFloat.is_nan, PrimFloat.is_zero.
  change PrimFloat.zero with 0%float.
  destruct (PrimFloat.eqb x x); simpl; [|done]. by destruct (PrimFloat.eqb x 0).
Qed.

Lemma stored_fields (season : string) (g : game) :
  stored season g =
  {| season_key := Some season;
     gameNumber := gameNumber g;
     date := date g;
     location := location g;
     transportation := stored_amount (transportation g);
     food := stored_amount (food g);
     gamePayment := stored_amount (gamePayment g);
     paidStatus := paidStatus g;
     observations := None;
     paymentDate := None |}.
Proof. unfold stored, _row_to_game. simpl. by rewrite !stored_amount_real. Qed.

Lemma new_row_record (i : Z) (season : string) (g : game) :
  _row_to_game (Sql.new_row i season g) = stored season g.
Proof. reflexivity. Qed.

Lemma season_rows_by_number (p : row -> bool) (season : string) (t : list row) :
  List.filter p (Sql.select_season season t)
  = Sql.by_number (List.filter (fun r => Sql.in_season season r && p r) t).
Proof.
  unfold Sql.select_season. by rewrite <- by_number_filter, filter_of_filter.
Qed.

(** X2: on a working SQLite database a record added with a game number
    comes back from [load_games] exactly once under that number: with its
    season filled in, a missing amount as 0.0, an amount that is NaN as
    null and one that is -0.0 as 0.0, and without its [observations] and
    [paymentDate], which the table has no column for; the records of the
    season with other numbers are those from before. *)
Theorem add_game_then_load_games
    (m : manager) (c : connection) (season n : string) (g : game) :
  conn m = Some c -> faults c = [] -> sqlite c = true -> gameNumber g = Some n ->
  let after := fst (load_games (snd (add_game m season g)) season) in
  List.filter (number_is n) after
    = [ {| season_key := Some season;
           gameNumber := Some n;
           date := date g;
           location := location g;
           transportation := stored_amount (transportation g);
           food := stored_amount (food g);
           gamePayment := stored_amount (gamePayment g);
           paidStatus := paidStatus g;
           observations := None;
           paymentDate := None |} ] /\
  List.filter (fun g' => negb (number_is n g')) after
    = List.filter (fun g' => negb (number_is n g')) (fst (load_games m season)).
Proof.
  intros E H _ G after.
  destruct (upsert_one_row_per_key season n g c G) as (U1 & U2 & _).
  assert (after = List.map _row_to_game
                    (Sql.select_season season (table (upsert season g c)))) as ->.
  { unfold after. rewrite (add_game_healthy m c) by done. cbn [snd].
    destruct (dump_json_after_write m (upsert season g c) season H) as (C & _ & _).
    by rewrite (load_games_healthy _ _ _ C H). }
  rewrite (load_games_healthy m c) by done. cbn [fst].
  rewrite !filter_of_map, !season_rows_by_number. split.
  - rewrite (List.filter_ext _ (Sql.has_key season (Some n)))
      by (intros r; by rewrite number_is_row).
    rewrite U1. cbn [Sql.by_number sort_by insert_by List.map].
    rewrite new_row_record, stored_fields. by rewrite G.
  - f_equal. f_equal.
    assert (forall t, List.filter (fun r => Sql.in_season season r &&
                                            negb (number_is n (_row_to_game r))) t
                      = List.filter (Sql.in_season season)
                          (List.filter (fun r => negb (Sql.has_key season (Some n) r)) t)) as S.
    { intros t. rewrite !filter_of_filter. apply List.filter_ext. intros r.
      rewrite number_is_row. unfold Sql.has_key.
      destruct (Sql.in_season season r); simpl; [|done]. by rewrite andb_true_r. }
    by rewrite !S, U2.
Qed.

Lemma backups_after_write (m : manager) (c' : connection) (season : string) :
  faults c' = [] ->
  let m' := _dump_json (set_conn m (Some c')) season in
  data_dir m' !! get_season_file season = Some (JGames (fst (load_games m' season))) /\
  data_dir m' !! "all_games.json" = Some (JGames (List.map _row_to_game (db_table m'))) /\
  (forall path, path <> get_season_file season -> path <> "all_games.json" ->
     data_dir m' !! path = data_dir m !! path).
Proof.
  intros H m'. destruct (dump_json_after_write m c' season H) as (C & _ & D).
  fold m' in C, D. rewrite (load_games_healthy m' c') by done.
  unfold db_table. rewrite C, D. split; [|split].
  - rewrite lookup_insert_ne by (apply not_eq_sym, season_file_not_export).
    by rewrite lookup_insert_eq.
  - by rewrite lookup_insert_eq.
  - intros path N1 N2. by rewrite !lookup_insert_ne.
Qed.

(** X3: on a working database every write is written through to the JSON
    files: after [add_game], [update_game] or [delete_game] the season's
    file holds what [load_games] returns for the season, [all_games.json]
    holds every row of the table, and no other file has changed. *)
Theorem writes_refresh_the_backups
    (m : manager) (c : connection) (season n : string) (g : game) :
  conn m = Some c -> faults c = [] ->
  forall m',
    m' = snd (add_game m season g) \/
    m' = snd (update_game m season n g) \/
    m' = snd (delete_game m season n) ->
    data_dir m' !! get_season_file season = Some (JGames (fst (load_games m' season))) /\
    data_dir m' !! "all_games.json" = Some (JGames (List.map _row_to_game (db_table m'))) /\
    (forall path, path <> get_season_file season -> path <> "all_games.json" ->
       data_dir m' !! path = data_dir m !! path).
Proof.
  intros E H m' [-> | [-> | ->]].
  - rewrite (add_game_healthy m c) by done. by apply backups_after_write.
  - rewrite (update_game_healthy m c) by done. by apply backups_after_write.
  - rewrite (delete_game_healthy m c) by done. by apply backups_after_write.
Qed.

Lemma season_rows_after_delete (season n : string) (t : list row) :
  List.map _row_to_game (Sql.select_season season (Sql.delete_key season (Some n) t))
  = List.filter (fun g => negb (number_is n g))
      (List.map _row_to_game (Sql.select_season season t)).
Proof.
  rewrite filter_of_map. f_equal. rewrite season_rows_by_number.
  unfold Sql.select_season, Sql.delete_key. f_equal.
  rewrite !filter_of_filter. apply List.filter_ext. intros r.
  rewrite number_is_row. unfold Sql.has_key.
  destruct (Sql.in_season season r); simpl; [|done]. by rewrite andb_true_r.
Qed.

Lemma other_season_after_delete (season s' : string) (k : option string) (t : list row) :
  s' <> season ->
  Sql.select_season s' (Sql.delete_key season k t) = Sql.select_season s' t.
Proof.
  intros N. apply select_after_filter. intros r I.
  unfold Sql.has_key. by rewrite (in_season_other season s' r).
Qed.

(** X4: on a working database [delete_game] raises nothing and removes from
    what [load_games] returns for the season exactly the records with that
    game number; the other seasons are as before, and deleting once more
    changes nothing. *)
Theorem delete_game_then_load_games
    (m : manager) (c : connection) (season n : string) :
  conn m = Some c -> faults c = [] ->
  let m' := snd (delete_game m season n) in
  fst (delete_game m season n) = Ok tt /\
  fst (load_games m' season)
    = List.filter (fun g => negb (number_is n g)) (fst (load_games m season)) /\
  (forall s', s' <> season -> fst (load_games m' s') = fst (load_games m s')) /\
  db_table (snd (delete_game m' season n)) = db_table m'.
Proof.
  intros E H m'.
  set (c' := with_table c (Sql.delete_key season (Some n) (table c))).
  assert (faults c' = []) as H' by done.
  assert (m' = _dump_json (set_conn m (Some c')) season) as Em'
    by (unfold m'; by rewrite (delete_game_healthy m c)).
  destruct (dump_json_after_write m c' season H') as (C & _ & _).
  rewrite <- Em' in C.
  split; [by rewrite (delete_game_healthy m c)|].
  rewrite (load_games_healthy m c), (load_games_healthy m' c') by done. cbn [fst].
  split; [apply season_rows_after_delete|]. split.
  - intros s' N. rewrite (load_games_healthy m c), (load_games_healthy m' c') by done.
    cbn [fst]. f_equal. by apply other_season_after_delete.
  - rewrite (delete_game_healthy m' c') by done. cbn [snd].
    rewrite dump_json_table. unfold db_table. simpl. rewrite C.
    unfold c'. simpl. apply filter_twice.
Qed.

Lemma update_keeps_season (s season : string) (k : option string) (g : game) (t : list row) :
  List.filter (Sql.in_season s) (Sql.update season k g t)
  = List.map (fun r => if Sql.has_key season k r then Sql.update_row g r else r)
      (List.filter (Sql.in_season s) t).
Proof.
  unfold Sql.update. induction t as [|r t IH]; [done|]. cbn [List.map List.filter].
  assert (Sql.in_season s (if Sql.has_key season k r then Sql.update_row g r else r)
          = Sql.in_season s r) as -> by (by destruct (Sql.has_key season k r)).
  destruct (Sql.in_season s r); cbn [List.map]; by rewrite IH.
Qed.

Lemma season_rows_after_update (season n : string) (g : game) (t : list row) :
  List.map _row_to_game (Sql.select_season season (Sql.update season (Some n) g t))
  = List.map (fun old => if number_is n old then edited g old else old)
      (List.map _row_to_game (Sql.select_season season t)).
Proof.
  unfold Sql.select_season. rewrite update_keeps_season.
  rewrite by_number_map by (intros r; by destruct (Sql.has_key season (Some n) r)).
  rewrite !List.map_map. apply List.map_ext_in. intros r I.
  apply (proj1 (select_season_In r season t)) in I as [_ S].
  rewrite number_is_row. unfold Sql.has_key. rewrite S. simpl.
  by destruct (Sql.eq_text (row_gameNumber r) (Some n)).
Qed.

Lemma other_season_after_update (season s' : string) (k : option string) (g : game)
    (t : list row) :
  s' <> season ->
  Sql.select_season s' (Sql.update season k g t) = Sql.select_season s' t.
Proof.
  intros N. unfold Sql.select_season. rewrite update_keeps_season. f_equal.
  etransitivity; [|apply List.map_id]. apply List.map_ext_in. intros r I.
  apply List.filter_In in I as [_ S'].
  destruct (Sql.has_key season k r) eqn:K; [|done].
  apply andb_true_iff in K as [S _]. by rewrite (in_season_other season s' r) in S.
Qed.

(** X5: on a working database [update_game] raises nothing and changes, in
    what [load_games] returns for the season, exactly the records with that
    game number: each takes the date, location, amounts and paid status of
    the record passed in and keeps its own season and game number, so the
    game numbers of the season never change; with no such record the season
    is as before, and the other seasons always are. *)
Theorem update_game_then_load_games
    (m : manager) (c : connection) (season n : string) (g : game) :
  conn m = Some c -> faults c = [] ->
  let m' := snd (update_game m season n g) in
  fst (update_game m season n g) = Ok tt /\
  fst (load_games m' season)
    = List.map (fun old => if number_is n old then edited g old else old)
        (fst (load_games m season)) /\
  List.map gameNumber (fst (load_games m' season))
    = List.map gameNumber (fst (load_games m season)) /\
  ((forall old, In old (fst (load_games m season)) -> number_is n old = false) ->
     fst (load_games m' season) = fst (load_games m season)) /\
  (forall s', s' <> season -> fst (load_games m' s') = fst (load_games m s')).
Proof.
  intros E H m'.
  set (c' := with_table c (Sql.update season (Some n) g (table c))).
  assert (faults c' = []) as H' by done.
  assert (m' = _dump_json (set_conn m (Some c')) season) as Em'
    by (unfold m'; by rewrite (update_game_healthy m c)).
  destruct (dump_json_after_write m c' season H') as (C & _ & _).
  rewrite <- Em' in C.
  split; [by rewrite (update_game_healthy m c)|].
  rewrite (load_games_healthy m c), (load_games_healthy m' c') by done. cbn [fst].
  unfold c'. cbn [with_table table]. rewrite season_rows_after_update.
  split; [done|]. split; [|split].
  - rewrite List.map_map. apply List.map_ext. intros old.
    by destruct (number_is n old).
  - intros A. etransitivity; [|apply List.map_id].
    apply List.map_ext_in. intros old I. by rewrite (A old I).
  - intros s' N. rewrite (load_games_healthy m c), (load_games_healthy m' c') by done.
    cbn [fst]. f_equal. by apply other_season_after_update.
Qed.

(** ** Replacing a season with [save_games] *)

Lemma fresh_rows_records (i : Z) (season : string) (gs : list game) :
  List.map _row_to_game (fresh_rows i season gs) = List.map (stored season) gs.
Proof.
  revert i. induction gs as [|g gs IH]; intros i; [done|].
  simpl. by rewrite IH.
Qed.

Lemma fresh_rows_in_season (i : Z) (season : string) (gs : list game) :
  List.filter (Sql.in_season season) (fresh_rows i season gs) = fresh_rows i season gs.
Proof.
  revert i. induction gs as [|g gs IH]; intros i; [done|]. simpl.
  unfold Sql.in_season at 1. simpl. rewrite String.eqb_refl. by rewrite IH.
Qed.

Lemma fresh_rows_other_season (i : Z) (season s' : string) (gs : list game) :
  s' <> season -> List.filter (Sql.in_season s') (fresh_rows i season gs) = [].
Proof.
  intros N. revert i. induction gs as [|g gs IH]; intros i; [done|]. simpl.
  unfold Sql.in_season at 1. simpl.
  replace (String.eqb season s') with false
    by (symmetry; apply String.eqb_neq; congruence).
  apply IH.
Qed.

Lemma keys_free_absent (season : string) (g : game) (gs : list game) (t : list row) :
  keys_free season (g :: gs) t -> existsb (Sql.has_key season (gameNumber g)) t = false.
Proof.
  intros K. destruct (existsb _ t) eqn:X; [|done].
  apply existsb_exists in X as (r & I & HK).
  rewrite (K r g I) in HK; [done | by left].
Qed.

Lemma keys_free_step (season : string) (i : Z) (g : game) (gs : list game) (t : list row) :
  NoDup (gameNumber <$> g :: gs) -> keys_free season (g :: gs) t ->
  keys_free season gs (t ++ [Sql.new_row i season g]).
Proof.
  rewrite fmap_cons, NoDup_cons. intros [N _] K r g' I I'.
  apply in_app_or in I as [I|[<-|[]]].
  - apply K; [done | by right].
  - destruct (Sql.has_key season (gameNumber g') (Sql.new_row i season g)) eqn:HK; [|done].
    exfalso. apply N. apply andb_true_iff in HK as [_ T]. apply eq_text_true in T.
    simpl in T. rewrite T. apply list_elem_of_fmap. exists g'.
    split; [done | by apply list_elem_of_In].
Qed.

Lemma keys_free_cleared (season : string) (gs : list game) (t : list row) :
  keys_free season gs (Sql.delete_season season t).
Proof.
  intros r g [_ I]%List.filter_In _. unfold Sql.has_key.
  apply negb_true_iff in I. by rewrite I.
Qed.

Lemma insert_all_fresh (season : string) (gs : list game) (c : connection) :
  faults c = [] -> NoDup (gameNumber <$> gs) -> keys_free season gs (table c) ->
  exists c',
    insert_all season gs c = (Ok tt, c') /\
    table c' = table c ++ fresh_rows (next_id c) season gs /\
    faults c' = [].
Proof.
  revert c. induction gs as [|g gs IH]; intros c H N K.
  - exists c. simpl. by rewrite app_nil_r.
  - simpl. rewrite execute_healthy by done. unfold Sql.insert.
    rewrite (keys_free_absent season g gs) by done.
    set (c1 := {| sqlite := sqlite c;
                  table := table c ++ [Sql.new_row (next_id c) season g];
                  next_id := (next_id c + 1)%Z;
                  faults := faults c |}).
    destruct (IH c1) as (c' & E & T & F).
    + done.
    + rewrite fmap_cons in N. by apply NoDup_cons in N as [_ ?].
    + exact (keys_free_step season (next_id c) g gs (table c) N K).
    + exists c'. split; [exact E|]. split; [|exact F].
      rewrite T. simpl. by rewrite <- app_assoc.
Qed.

(** A record whose number an earlier record of the list, or a row of the
    table, already carries makes the inserts raise. *)
Lemma insert_all_taken (season n : string) (gs : list game) (c : connection) (g : game) :
  faults c = [] -> In g gs -> gameNumber g = Some n ->
  existsb (Sql.has_key season (Some n)) (table c) = true ->
  exists msg c', insert_all season gs c = (Raise msg, c').
Proof.
  revert c. induction gs as [|g0 gs IH]; intros c H I G X; [done|].
  simpl. rewrite execute_healthy by done. unfold Sql.insert.
  destruct (existsb (Sql.has_key season (gameNumber g0)) (table c)) eqn:X0; [by eauto|].
  destruct I as [->|I]; [rewrite G in X0; congruence|].
  apply (IH _); [done | done | done |]. simpl.
  rewrite existsb_app, X. done.
Qed.

Lemma insert_all_repeated (season n : string) (l1 l2 l3 : list game) (g1 g2 : game)
    (c : connection) :
  faults c = [] -> gameNumber g1 = Some n -> gameNumber g2 = Some n ->
  exists msg c', insert_all season (l1 ++ g1 :: l2 ++ g2 :: l3) c = (Raise msg, c').
Proof.
  revert c. induction l1 as [|g0 l1 IH]; intros c H G1 G2.
  - simpl. rewrite execute_healthy by done. unfold Sql.insert.
    destruct (existsb (Sql.has_key season (gameNumber g1)) (table c)) eqn:X0; [by eauto|].
    apply (insert_all_taken season n _ _ g2); [done | | done |].
    + apply in_or_app. right. by left.
    + simpl. rewrite existsb_app. simpl.
      replace (Sql.has_key season (Some n) (Sql.new_row (next_id c) season g1)) with true.
      * by rewrite orb_true_r.
      * symmetry. apply has_key_row_key. unfold row_key. simpl. by rewrite G1.
  - simpl. rewrite execute_healthy by done. unfold Sql.insert.
    destruct (existsb (Sql.has_key season (gameNumber g0)) (table c)); [by eauto|].
    by apply IH.
Qed.

Lemma select_cleared (season : string) (t : list row) :
  List.filter (Sql.in_season season) (Sql.delete_season season t) = [].
Proof.
  unfold Sql.delete_season. rewrite filter_of_filter.
  induction t as [|r t IH]; [done|]. simpl.
  destruct (Sql.in_season season r); simpl; exact IH.
Qed.

(** The table once a season was cleared and the records [gs] inserted with
    fresh ids: the season is the records as stored, as the index gives
    them, and the other seasons are as before. *)
Lemma season_replaced (season : string) (i : Z) (gs : list game) (t : list row) :
  List.map _row_to_game
    (Sql.select_season season (Sql.delete_season season t ++ fresh_rows i season gs))
  = in_number_order (List.map (stored season) gs) /\
  (forall s', s' <> season ->
     Sql.select_season s' (Sql.delete_season season t ++ fresh_rows i season gs)
     = Sql.select_season s' t).
Proof.
  unfold Sql.select_season. split.
  - rewrite List.filter_app, select_cleared, fresh_rows_in_season. cbn [app].
    rewrite <- (fresh_rows_records i). symmetry.
    unfold in_number_order, Sql.by_number. by apply sort_by_map.
  - intros s' N. rewrite List.filter_app, fresh_rows_other_season, app_nil_r by done.
    by apply (select_other_after_clear season s').
Qed.

Lemma save_games_db (m : manager) (c : connection) (season : string) (gs : list game) :
  conn m = Some c ->
  save_games m season gs =
  (fst (_db_save_games c season gs), set_conn m (Some (snd (_db_save_games c season gs)))).
Proof.
  intros E. unfold save_games. rewrite E. by destruct (_db_save_games c season gs).
Qed.

(** X6: [save_games] on an SQLite connection replaces the season as one
    transaction and touches no file.  If it raises, for whatever reason,
    the table is as before.  On a working database a list without a
    repeated game number becomes the season: [load_games] returns its
    records as stored, in the order of their game numbers whatever their
    order in the list, while the other seasons stay; and a list that
    repeats a game number raises and leaves the table as it was. *)
Theorem save_games_replaces_the_season
    (m : manager) (c : connection) (season : string) (gs : list game) :
  conn m = Some c -> sqlite c = true ->
  let m' := snd (save_games m season gs) in
  data_dir m' = data_dir m /\
  (forall msg, fst (save_games m season gs) = Raise msg -> db_table m' = table c) /\
  (faults c = [] -> NoDup (gameNumber <$> gs) ->
     fst (save_games m season gs) = Ok tt /\
     fst (load_games m' season) = in_number_order (List.map (stored season) gs) /\
     (forall s', s' <> season -> fst (load_games m' s') = fst (load_games m s'))) /\
  (faults c = [] ->
   forall l1 l2 l3 g1 g2 n,
     gs = l1 ++ g1 :: l2 ++ g2 :: l3 ->
     gameNumber g1 = Some n -> gameNumber g2 = Some n ->
     (exists msg, fst (save_games m season gs) = Raise msg) /\ db_table m' = table c).
Proof.
  intros E _ m'. unfold m'. rewrite (save_games_db m c) by done. cbn [fst snd].
  assert (forall msg, fst (_db_save_games c season gs) = Raise msg ->
                      table (snd (_db_save_games c season gs)) = table c) as Atomic.
  { intros msg. unfold _db_save_games. rewrite execute_spec.
    destruct (next_fault c); [done|]. cbn [fst snd].
    destruct (insert_all season gs _) as [[u|msg'] c'']; [discriminate | done]. }
  split; [done|]. split; [|split].
  - intros msg R. unfold db_table. simpl. by apply (Atomic msg).
  - intros H N.
    destruct (insert_all_fresh season gs
                (with_table c (Sql.delete_season season (table c))) H N
                (keys_free_cleared season gs (table c))) as (c' & I & T & F).
    assert (_db_save_games c season gs = (Ok tt, c')) as S.
    { unfold _db_save_games. rewrite execute_healthy by done. by rewrite I. }
    rewrite S. cbn [fst snd]. split; [done|].
    assert (conn (set_conn m (Some c')) = Some c') as C by done.
    simpl in T.
    destruct (season_replaced season (next_id c) gs (table c)) as [R1 R2].
    split.
    + rewrite (load_games_healthy _ c') by done. cbn [fst]. by rewrite T.
    + intros s' Ns. rewrite (load_games_healthy _ c'), (load_games_healthy m c) by done.
      cbn [fst]. f_equal. rewrite T. by apply R2.
  - intros H l1 l2 l3 g1 g2 n -> G1 G2.
    destruct (insert_all_repeated season n l1 l2 l3 g1 g2
                (with_table c (Sql.delete_season season (table c))) H G1 G2)
      as (msg & c' & I).
    assert (fst (_db_save_games c season (l1 ++ g1 :: l2 ++ g2 :: l3)) = Raise msg) as R.
    { unfold _db_save_games. rewrite execute_healthy by done. by rewrite I. }
    split; [by exists msg|].
    unfold db_table. simpl. by apply (Atomic msg).
Qed.

(** ** The combined export *)

Lemma scan_collects (d : gmap string json_file) (g : game) :
  In g (scan_season_files d) <->
  exists fname gs,
    is_season_file fname = true /\ d !! fname = Some (JGames gs) /\ In g gs.
Proof.
  unfold scan_season_files. rewrite in_concat. split.
  - intros (l & (fname & <- & I)%in_map_iff & G).
    destruct (is_season_file fname) eqn:SF; [|done].
    destruct (d !! fname) as [[gs| | |]|] eqn:L; try done.
    by exists fname, gs.
  - intros (fname & gs & SF & L & G). exists gs. split; [|done].
    apply in_map_iff. exists fname. rewrite SF, L. split; [done|].
    apply list_elem_of_In, listdir_lookup. by rewrite L.
Qed.

Lemma dump_all_json_collects (m : manager) :
  conn m = None ->
  exists export,
    data_dir (_dump_all m) !! "all_games.json" = Some (JGames export) /\
    forall g,
      In g export <->
      exists fname gs,
        is_season_file fname = true /\
        data_dir m !! fname = Some (JGames gs) /\ In g gs.
Proof.
  intros E. unfold _dump_all. rewrite E. simpl.
  eexists. split; [by rewrite lookup_insert_eq|]. apply scan_collects.
Qed.

(** X7: without a connection [_dump_all] writes into [all_games.json]
    exactly the games of the season files: a game is in the export if and
    only if some season file holds it; no other file, nor the connection or
    [db_error], changes. *)
Theorem dump_all_json_collects_the_season_files (m : manager) :
  conn m = None ->
  conn (_dump_all m) = None /\
  db_error (_dump_all m) = db_error m /\
  (forall path, path <> "all_games.json" ->
     data_dir (_dump_all m) !! path = data_dir m !! path) /\
  exists export,
    data_dir (_dump_all m) !! "all_games.json" = Some (JGames export) /\
    forall g,
      In g export <->
      exists fname gs,
        is_season_file fname = true /\
        data_dir m !! fname = Some (JGames gs) /\ In g gs.
Proof.
  intros E. unfold _dump_all. rewrite E. simpl.
  split; [done|]. split; [done|]. split.
  - intros path N. by rewrite lookup_insert_ne.
  - eexists. split; [by rewrite lookup_insert_eq|]. apply scan_collects.
Qed.

(** X8: with a connection [_dump_all] writes every row of the table, as
    records in table order, into [all_games.json] when its query goes
    through, and an empty list when the query raises; [_dump_json] on a
    failing query writes nothing at all.  Neither changes the table or
    [db_error]. *)
Theorem dump_all_db_exports_the_table (m : manager) (c : connection) (season : string) :
  conn m = Some c ->
  data_dir (_dump_all m) !! "all_games.json"
    = Some (match next_fault c with
            | None => JGames (List.map _row_to_game (table c))
            | Some _ => JGames []
            end) /\
  (forall path, path <> "all_games.json" ->
     data_dir (_dump_all m) !! path = data_dir m !! path) /\
  (forall msg, next_fault c = Some msg -> data_dir (_dump_json m season) = data_dir m) /\
  db_table (_dump_all m) = table c /\
  db_table (_dump_json m season) = table c /\
  db_error (_dump_all m) = db_error m /\
  db_error (_dump_json m season) = db_error m.
Proof.
  intros E. split; [|split; [|split; [|split; [|split; [|split]]]]].
  - unfold _dump_all. rewrite E, execute_spec.
    destruct (next_fault c); simpl; by rewrite lookup_insert_eq.
  - intros path N. by apply dump_all_lookup.
  - intros msg F. unfold _dump_json, _db_load_games. by rewrite E, execute_spec, F.
  - rewrite dump_all_table. unfold db_table. by rewrite E.
  - rewrite dump_json_table. unfold db_table. by rewrite E.
  - apply dump_all_frame.
  - apply dump_json_frame.
Qed.

(** ** Construction without a usable database *)

(** X9: when the schema statement raises, the constructor gives up the
    connection and keeps the message in [db_error]: nothing is migrated, no
    season file and no marker is written, only the export is regenerated
    from the season files; the manager it returns answers every
    [load_games] with the empty list.  Without any database the constructor
    does the same and leaves [db_error] unassigned. *)
Theorem init_without_usable_database
    (files : gmap string json_file) (c : connection) (msg : string) :
  next_fault c = Some msg ->
  __init__ files (Some c)
    = Ok {| data_dir := <["all_games.json" := JGames (scan_season_files files)]> files;
            conn := None;
            db_error := Some (Some msg) |} /\
  __init__ files None
    = Ok {| data_dir := <["all_games.json" := JGames (scan_season_files files)]> files;
            conn := None;
            db_error := None |} /\
  (forall m season,
     __init__ files (Some c) = Ok m \/ __init__ files None = Ok m ->
     fst (load_games m season) = [] /\
     (forall path, path <> "all_games.json" -> data_dir m !! path = files !! path)).
Proof.
  intros F.
  assert (__init__ files (Some c)
          = Ok {| data_dir := <["all_games.json" := JGames (scan_season_files files)]> files;
                  conn := None; db_error := Some (Some msg) |}) as I1.
  { unfold __init__, _ensure_schema. simpl. by rewrite execute_spec, F. }
  split; [exact I1|]. split; [reflexivity|].
  intros m season [I|I].
  - rewrite I1 in I. injection I as <-. split; [done|].
    intros path N. simpl. by rewrite lookup_insert_ne.
  - injection I as <-. split; [done|].
    intros path N. simpl. by rewrite lookup_insert_ne.
Qed.

(** ** Reads and what they agree on *)

(** X10: without a connection [update_game] stores nothing, not even the
    record passed in: it raises nothing and rewrites the season file from
    the empty list [load_games] returned, whatever the file held. *)
Theorem update_game_json_empties_the_file
    (m : manager) (season n : string) (g : game) :
  conn m = None ->
  exists m',
    update_game m season n g = (Ok tt, m') /\
    conn m' = None /\
    data_dir m' !! get_season_file season = Some (JGames []) /\
    (forall path, path <> get_season_file season -> path <> "all_games.json" ->
       data_dir m' !! path = data_dir m !! path).
Proof.
  intros E. unfold update_game. rewrite E, (load_games_json _ _ E).
  unfold save_games. simpl. rewrite E. eexists. split; [reflexivity|].
  split; [unfold _dump_all; simpl; by rewrite E|]. split.
  - rewrite dump_all_lookup by apply season_file_not_export.
    simpl. by rewrite lookup_insert_eq.
  - intros path N1 N2. rewrite dump_all_lookup by done.
    simpl. by rewrite lookup_insert_ne.
Qed.

(** X11: [search_games] on a working database returns exactly the records
    of [load_games] for the season whose game number, location or date the
    engine's LIKE matches against the query between two percent signs;
    without a connection it returns the empty list for every query. *)
Theorem search_games_filters_load_games
    (like : option string -> string -> bool) (m : manager) (season query : string) :
  (forall c, conn m = Some c -> faults c = [] ->
     fst (search_games like m season query)
     = Ok (List.filter
             (fun g => like (gameNumber g) ("%" ++ query ++ "%")%string ||
                       like (location g) ("%" ++ query ++ "%")%string ||
                       like (date g) ("%" ++ query ++ "%")%string)
             (fst (load_games m season)))) /\
  (conn m = None -> fst (search_games like m season query) = Ok []).
Proof.
  split.
  - intros c E H. unfold search_games. rewrite E, execute_healthy by done.
    rewrite (load_games_healthy m c) by done. cbn [fst].
    by rewrite filter_of_map, season_rows_by_number.
  - intros E. unfold search_games. by rewrite E, (load_games_json _ _ E).
Qed.

Lemma row_cells (r : row) : game_cells (_row_to_game r) = amounts_of_row r.
Proof.
  unfold game_cells, amounts_of_row. simpl.
  by destruct (row_transportation r), (row_food r), (row_gamePayment r).
Qed.

(** X12: whatever the state of the connection, [get_summary] is the
    summary of the records [load_games] returns on the same manager: the
    count is the number of records, and the two sums are those of their
    amounts; when the query fails both are empty. *)
Theorem get_summary_agrees_with_load_games (m : manager) (season : string) :
  fst (get_summary m season) = summarize64 (List.map game_cells (fst (load_games m season))) /\
  games_count (fst (get_summary m season)) = length (fst (load_games m season)).
Proof.
  assert (fst (get_summary m season)
          = summarize64 (List.map game_cells (fst (load_games m season)))) as E.
  { destruct (conn m) as [c|] eqn:C.
    - rewrite (get_summary_db m c), (load_games_db m c) by done.
      destruct (next_fault c); [done|]. cbn [fst]. f_equal.
      unfold select_amounts. rewrite List.map_map. apply List.map_ext.
      intros r. by rewrite row_cells.
    - unfold get_summary. by rewrite C, (load_games_json _ _ C). }
  split; [exact E|]. rewrite E. unfold summarize64.
  destruct (summarize_parts PrimFloat.add 0%float float_truthy
              (List.map game_cells (fst (load_games m season)))) as (_ & _ & ->).
  by rewrite length_map.
Qed.

(** ** The table after construction *)

Lemma ids_fresh_filter (c : connection) (p : row -> bool) :
  ids_fresh c -> ids_fresh (with_table c (List.filter p (table c))).
Proof.
  intros [N B]. split; simpl.
  - by apply filter_keeps_unique.
  - intros r I. apply B. apply list_elem_of_In. apply list_elem_of_In in I.
    apply List.filter_In in I. tauto.
Qed.

Lemma ids_fresh_upsert (season : string) (g : game) (c : connection) :
  ids_fresh c -> ids_fresh (upsert season g c).
Proof.
  intros F.
  destruct (ids_fresh_filter c (fun r => negb (Sql.has_key season (gameNumber g) r)) F)
    as [N B].
  simpl in N, B. unfold upsert, Sql.delete_key. split; simpl.
  - rewrite fmap_app. apply NoDup_app. split; [done|]. split; [|apply NoDup_singleton].
    intros i (r & -> & I)%list_elem_of_fmap. simpl. rewrite list_elem_of_singleton.
    specialize (B r I). lia.
  - intros r [I|I%list_elem_of_singleton]%elem_of_app.
    + specialize (B r I). lia.
    + subst r. simpl. lia.
Qed.

Lemma add_all_well_kept (season : string) (gs : list game) (m : manager) :
  well_kept m -> well_kept (add_all m season gs).
Proof.
  revert m. induction gs as [|g gs IH]; intros m W; [done|].
  destruct W as (c & E & H & F). unfold add_all. simpl. apply IH.
  exists (upsert season g c). split; [by apply add_game_healthy_conn|].
  split; [done | by apply ids_fresh_upsert].
Qed.

Lemma import_file_well_kept (st : manager * gset string) (fname : string) :
  well_kept (fst st) -> well_kept (fst (snd (import_file st fname))).
Proof.
  destruct st as [m markers]. cbn [fst]. intros (c & E & H & F).
  rewrite (import_file_healthy m c) by done.
  destruct (is_season_file fname); [|by exists c]. cbv zeta.
  destruct (_ && _); [by exists c|].
  assert (well_kept (clear_season m (season_of_file fname))) as W2.
  { rewrite (clear_season_healthy _ c) by done. eexists. split; [reflexivity|].
    split; [done | by apply ids_fresh_filter]. }
  destruct (iterate m fname) as [gs|msg]; cbn [fst snd]; [|exact W2].
  destruct (add_all_well_kept (season_of_file fname) gs _ W2) as (c' & E' & H' & F').
  by exists c'.
Qed.

Lemma import_files_well_kept (names : list string) (st : manager * gset string) :
  well_kept (fst st) -> well_kept (fst (snd (import_files names st))).
Proof.
  revert st. induction names as [|f names IH]; intros st W; [done|].
  cbn [import_files]. pose proof (import_file_well_kept st f W) as W1.
  destruct (import_file st f) as [[u|msg] st']; [by apply IH | exact W1].
Qed.

Lemma import_json_to_db_well_kept (m : manager) :
  well_kept m -> well_kept (snd (import_json_to_db m)).
Proof.
  intros W. unfold import_json_to_db.
  pose proof (import_files_well_kept (listdir (data_dir m)) (m, _read_markers m) W) as W1.
  destruct (import_files _ _) as [[u|msg] [m' mk]]; cbn [fst snd] in *; [|exact W1].
  destruct W1 as (c & E & H & F).
  rewrite (dump_all_healthy _ c) by done. by exists c.
Qed.

(** X13: over a working database whose ids are distinct and below the next
    id, and a directory none of whose season files holds a scalar, the
    constructor returns a manager whose table has no two rows with the
    same season and game number, rows without a number included;
    migration and deduplication together see to that, whatever else the
    table and the JSON files held. *)
Theorem init_leaves_unique_keys (files : gmap string json_file) (c : connection) :
  faults c = [] -> ids_fresh c -> iterable files ->
  exists m,
    __init__ files (Some c) = Ok m /\
    healthy m /\
    unique_keys (db_table m).
Proof.
  intros H F I.
  assert (next_fault c = None) as N by (unfold next_fault; by rewrite H).
  rewrite init_with_schema by done. cbv zeta. rewrite (advance_healthy c) by done.
  set (m1 := {| data_dir := files; conn := Some c; db_error := None |}).
  pose proof (import_json_to_db_returns m1 I) as R.
  assert (well_kept (snd (import_json_to_db m1))) as W
    by (apply import_json_to_db_well_kept; by exists c).
  destruct (import_json_to_db m1) as [[u|msg] m2]; [|discriminate R].
  destruct W as (c2 & E2 & H2 & [N2 _]). cbn [snd] in E2.
  rewrite E2, (dedupe_db_healthy _ c2) by done.
  eexists. split; [reflexivity|].
  assert (faults (fold_left delete_by_id (to_delete ∅ (scan_index (table c2))) c2) = []) as H3
    by (by apply delete_ids_faults).
  split.
  - apply dump_all_keeps_healthy. eexists. split; [reflexivity | done].
  - rewrite dump_all_table. unfold db_table. simpl.
    rewrite delete_ids_table, dedupe_scan_keeps_first by done.
    apply first_per_key_unique.
Qed.

(** ** Migration: what it marks and what it brings in *)

Lemma add_all_keeps_files (season : string) (gs : list game) (m : manager)
    (fname : string) :
  healthy m -> is_Some (data_dir m !! fname) ->
  is_Some (data_dir (add_all m season gs) !! fname).
Proof.
  revert m. induction gs as [|g gs IH]; intros m H I; [done|].
  unfold add_all. simpl. apply IH; [by apply add_game_keeps_healthy|].
  destruct H as (c & E & H). rewrite (add_game_healthy_files m c) by done.
  rewrite !lookup_insert_is_Some'. auto.
Qed.

Lemma import_files_keeps_files (names : list string) (st : manager * gset string)
    (fname : string) :
  healthy (fst st) -> is_Some (data_dir (fst st) !! fname) ->
  is_Some (data_dir (fst (snd (import_files names st))) !! fname).
Proof.
  revert st. induction names as [|f names IH]; intros st H I; [done|].
  cbn [import_files].
  pose proof (import_file_keeps_healthy st f H) as H1.
  assert (is_Some (data_dir (fst (snd (import_file st f))) !! fname)) as I1.
  { destruct st as [m markers]. simpl in H, I. destruct H as (c & E & H).
    rewrite (import_file_healthy m c) by done.
    destruct (is_season_file f); [|done]. cbv zeta.
    destruct (_ && _); [done|].
    assert (healthy (clear_season m (season_of_file f))) as H2.
    { rewrite (clear_season_healthy _ c) by done. eexists. split; [reflexivity | done]. }
    assert (is_Some (data_dir (clear_season m (season_of_file f)) !! fname)) as I2
      by (by rewrite clear_season_files).
    destruct (iterate m f) as [gs|msg]; cbn [fst snd]; [|exact I2].
    simpl. rewrite lookup_insert_is_Some'. right. by apply add_all_keeps_files. }
  destruct (import_file st f) as [[u|msg] st']; [by apply IH | exact I1].
Qed.

(** X14: after a migration over a working database that returned, every
    season file that was in the directory is still there and its season is
    in the marker file; and either the table holds rows of that season or
    the file holds no game. *)
Theorem migration_marks_every_season_file (m : manager) (fname : string) :
  healthy m -> fst (import_json_to_db m) = Ok tt ->
  is_Some (data_dir m !! fname) -> is_season_file fname = true ->
  let m1 := snd (import_json_to_db m) in
  is_Some (data_dir m1 !! fname) /\
  (season_of_file fname ∈ _read_markers m1) /\
  ((0 < Sql.count_season (season_of_file fname) (db_table m1))%nat \/
   read_games m1 fname = []).
Proof.
  intros H R I SF m1.
  assert (is_Some (data_dir m1 !! fname)) as I1.
  { unfold m1, import_json_to_db.
    pose proof (import_files_keeps_files (listdir (data_dir m)) (m, _read_markers m)
                  fname H I) as K.
    destruct (import_files _ _) as [[u|msg] [m' mk]]; cbn [fst snd] in *; [|exact K].
    by rewrite dump_all_lookup by (by apply season_file_is_not_export). }
  split; [exact I1|].
  destruct (import_json_to_db_settles m H R) as (_ & S & _).
  destruct (S fname) as [M C]; [by apply listdir_lookup | done |].
  split; [exact M|]. destruct C as [C|C]; [by left | right].
  symmetry. by apply iterate_games.
Qed.

Lemma add_all_fresh (season : string) (gs : list game) (m : manager) (c : connection) :
  conn m = Some c -> faults c = [] ->
  NoDup (gameNumber <$> gs) -> keys_free season gs (table c) ->
  exists c',
    conn (add_all m season gs) = Some c' /\
    table c' = table c ++ fresh_rows (next_id c) season gs /\
    faults c' = [].
Proof.
  revert m c. induction gs as [|g gs IH]; intros m c E H N K.
  - exists c. simpl. by rewrite app_nil_r.
  - pose proof (add_game_healthy_conn m c season g E H) as E1.
    assert (table (upsert season g c) = table c ++ [Sql.new_row (next_id c) season g]) as T1.
    { unfold upsert. simpl. f_equal. apply delete_key_absent.
      by apply (keys_free_absent season g gs). }
    destruct (IH (snd (add_game m season g)) (upsert season g c)) as (c' & E' & T' & F').
    + done.
    + done.
    + rewrite fmap_cons in N. by apply NoDup_cons in N as [_ ?].
    + rewrite T1. by apply keys_free_step.
    + exists c'. split; [exact E'|]. split; [|exact F'].
      rewrite T', T1. simpl. by rewrite <- app_assoc.
Qed.

(** X15: over a working SQLite database, a turn of the migration loop on a
    season file whose season is not marked, or is marked but has no row.
    If the file holds a list of games in which no game number is repeated,
    the turn brings it in: [load_games] then returns for the season exactly
    the file's records as stored, in the order of their game numbers, the
    season is marked in the marker file, and the other seasons are as
    before.  If the file holds a scalar, the turn raises [TypeError] once
    the season's rows are deleted: the season is left empty and unmarked,
    and no file is written. *)
Theorem import_file_brings_in_the_games
    (m : manager) (c : connection) (markers : gset string) (fname : string) :
  conn m = Some c -> faults c = [] -> sqlite c = true -> is_season_file fname = true ->
  (season_of_file fname ∉ markers) \/
    Sql.count_season (season_of_file fname) (table c) = 0%nat ->
  let st := import_file (m, markers) fname in
  (forall gs,
     data_dir m !! fname = Some (JGames gs) -> NoDup (gameNumber <$> gs) ->
     fst st = Ok tt /\
     fst (load_games (fst (snd st)) (season_of_file fname))
       = in_number_order (List.map (stored (season_of_file fname)) gs) /\
     snd (snd st) = {[season_of_file fname]} ∪ markers /\
     _read_markers (fst (snd st)) = snd (snd st) /\
     (forall s', s' <> season_of_file fname ->
        fst (load_games (fst (snd st)) s') = fst (load_games m s'))) /\
  (forall k,
     data_dir m !! fname = Some (JScalar k) ->
     fst st = Raise (not_iterable k) /\
     fst (load_games (fst (snd st)) (season_of_file fname)) = [] /\
     snd (snd st) = markers /\
     data_dir (fst (snd st)) = data_dir m /\
     (forall s', s' <> season_of_file fname ->
        fst (load_games (fst (snd st)) s') = fst (load_games m s'))).
Proof.
  intros E H _ SF D st. unfold st.
  rewrite (import_file_healthy m c) by done. rewrite SF. cbv zeta.
  set (s := season_of_file fname) in *.
  assert (bool_decide (s ∈ markers) && (0 <? Sql.count_season s (table c))%nat = false) as ->.
  { destruct D as [D|D].
    - by rewrite bool_decide_eq_false_2.
    - rewrite D. apply andb_false_r. }
  rewrite (clear_season_healthy m c) by done.
  set (c2 := with_table c (Sql.delete_season s (table c))).
  split.
  - intros gs L N. unfold iterate, read_games. rewrite L. cbn [fst snd].
    destruct (add_all_fresh s gs (set_conn m (Some c2)) c2)
      as (c' & E' & T' & F'); [done | done | done | apply keys_free_cleared |].
    set (m3 := add_all (set_conn m (Some c2)) s gs) in *.
    assert (conn (_write_markers m3 ({[s]} ∪ markers)) = Some c') as C by exact E'.
    simpl in T'.
    destruct (season_replaced s (next_id c) gs (table c)) as [R1 R2].
    split; [done|]. split; [|split; [done|split]].
    + rewrite (load_games_healthy _ c') by done. cbn [fst]. by rewrite T'.
    + unfold _read_markers, _write_markers. simpl. by rewrite lookup_insert_eq.
    + intros s' Ns. rewrite (load_games_healthy _ c'), (load_games_healthy m c) by done.
      cbn [fst]. f_equal. rewrite T'. by apply R2.
  - intros k L. unfold iterate. rewrite L. cbn [fst snd].
    assert (conn (set_conn m (Some c2)) = Some c2) as C by done.
    split; [done|]. split; [|split; [done|split; [done|]]].
    + rewrite (load_games_healthy _ c2) by done. cbn [fst].
      unfold Sql.select_season, c2. simpl. by rewrite select_cleared.
    + intros s' Ns. rewrite (load_games_healthy _ c2), (load_games_healthy m c) by done.
      cbn [fst]. f_equal. unfold c2. simpl. by apply select_other_after_clear.
Qed.

(** ** Deduplication of a table that needs none *)

Lemma first_per_key_same (seen : gset (string * option string)) (t : list row) :
  unique_keys t -> (forall r, r ∈ t -> row_key r ∉ seen) ->
  first_per_key seen t = t.
Proof.
  unfold unique_keys. revert seen. induction t as [|r t IH]; intros seen U S; [done|].
  rewrite fmap_cons in U. apply NoDup_cons in U as [U1 U2]. simpl.
  destruct (decide (row_key r ∈ seen)) as [I|_].
  - exfalso. apply (S r); [by left | done].
  - f_equal. apply IH; [done|]. intros r' I' [Q%elem_of_singleton|I]%elem_of_union.
    + apply U1. apply list_elem_of_fmap. by exists r'.
    + apply (S r'); [by right | done].
Qed.

(** X16: on a working database whose ids are distinct, [_dedupe_db] leaves
    a table with unique keys exactly as it is, and running it a second time
    changes nothing. *)
Theorem dedupe_db_is_idempotent (m : manager) (c : connection) :
  conn m = Some c -> faults c = [] -> NoDup (row_id <$> table c) ->
  (unique_keys (table c) -> db_table (snd (_dedupe_db m)) = table c) /\
  db_table (snd (_dedupe_db (snd (_dedupe_db m)))) = db_table (snd (_dedupe_db m)).
Proof.
  intros E H N.
  assert (forall m0 c0, conn m0 = Some c0 -> faults c0 = [] -> NoDup (row_id <$> table c0) ->
            db_table (snd (_dedupe_db m0)) = first_per_key ∅ (table c0)) as D.
  { intros m0 c0 E0 H0 N0. rewrite (dedupe_db_healthy m0 c0) by done.
    unfold db_table. simpl. by rewrite delete_ids_table, dedupe_scan_keeps_first. }
  assert (forall t, unique_keys t -> first_per_key ∅ t = t) as Same.
  { intros t U. apply first_per_key_same; [done|]. intros r _. apply not_elem_of_empty. }
  split.
  - intros U. rewrite (D m c) by done. by apply Same.
  - rewrite (dedupe_db_healthy m c) by done. cbn [snd].
    set (c1 := fold_left delete_by_id (to_delete ∅ (scan_index (table c))) c).
    assert (faults c1 = []) as H1 by (by apply delete_ids_faults).
    assert (table c1 = first_per_key ∅ (table c)) as T1
      by (unfold c1; by rewrite delete_ids_table, dedupe_scan_keeps_first).
    rewrite (D (set_conn m (Some c1)) c1); [| done | done |].
    + unfold db_table. simpl. fold c1. rewrite T1. apply Same, first_per_key_unique.
    + rewrite T1. rewrite <- (dedupe_keeps_first ∅ (table c) N).
      by apply filter_keeps_unique.
Qed.

(** ** The application window *)

Lemma string_le_total : Total string_le.
Proof. intros a b. apply String.leb_total. Qed.

Lemma or_default_not_empty (l : list string) : or_default l <> [].
Proof. by destruct l. Qed.

Lemma sorted_members (l : list string) (s : string) : s ∈ sorted l <-> s ∈ l.
Proof. unfold sorted. by rewrite merge_sort_Permutation. Qed.

Lemma sorted_not_empty (l : list string) : l <> [] -> sorted l <> [].
Proof.
  intros N E. apply N. apply Permutation_nil_r.
  rewrite <- E. unfold sorted. by rewrite merge_sort_Permutation.
Qed.

Lemma or_default_members (l : list string) (s : string) :
  s ∈ or_default l <-> (s ∈ l) \/ (l = [] /\ s = default_season).
Proof.
  destruct l as [|x l]; simpl.
  - rewrite list_elem_of_singleton. split; [by right | intros [I|[_ ?]]; [|done]].
    by apply elem_of_nil in I.
  - split; [by left | by intros [?|[? _]]].
Qed.

(** X17: [get_seasons] never returns an empty list, and the list is in
    ascending order.  Without a connection it lists the seasons of the
    season files of the directory, and "2025/2026" alone when there is no
    season file; on a working database it lists each season of the table
    once, and "2025/2026" alone when the table is empty; when the query
    raises, the error is raised to the caller. *)
Theorem get_seasons_lists_the_seasons (m : manager) :
  (forall l, fst (get_seasons m) = Ok l -> l <> [] /\ Sorted string_le l) /\
  (conn m = None ->
   exists l,
     fst (get_seasons m) = Ok l /\
     forall s,
       s ∈ l <->
       (exists fname,
          is_Some (data_dir m !! fname) /\ is_season_file fname = true /\
          season_of_file fname = s) \/
       ((forall fname, is_Some (data_dir m !! fname) -> is_season_file fname = false) /\
        s = default_season)) /\
  (forall c, conn m = Some c ->
     (forall msg, next_fault c = Some msg -> fst (get_seasons m) = Raise msg) /\
     (faults c = [] ->
      exists l,
        fst (get_seasons m) = Ok l /\ NoDup l /\
        forall s,
          s ∈ l <->
          (exists r, r ∈ table c /\ row_season r = s) \/
          (table c = [] /\ s = default_season))).
Proof.
  split; [|split].
  - intros l. unfold get_seasons. destruct (conn m) as [c|].
    + destruct (execute _ c) as [[seasons|msg] c']; [|discriminate].
      intros [= <-]. split.
      * apply sorted_not_empty, or_default_not_empty.
      * apply Sorted_merge_sort, string_le_total.
    + intros [= <-]. split.
      * apply sorted_not_empty, or_default_not_empty.
      * apply Sorted_merge_sort, string_le_total.
  - intros E. unfold get_seasons. rewrite E. eexists. split; [reflexivity|].
    intros s. rewrite sorted_members, or_default_members.
    set (names := List.filter is_season_file (listdir (data_dir m))).
    assert (forall f, In f names <-> is_Some (data_dir m !! f) /\ is_season_file f = true) as N.
    { intros f. unfold names. rewrite List.filter_In, <- listdir_lookup, list_elem_of_In.
      done. }
    split.
    + intros [I|[Z ->]].
      * left. apply list_elem_of_In, in_map_iff in I as (f & <- & I).
        apply N in I as [? ?]. by exists f.
      * right. split; [|done]. intros f I.
        destruct (is_season_file f) eqn:SF; [|done]. exfalso.
        assert (In f names) as I' by (by apply N).
        apply (in_map season_of_file) in I'. rewrite Z in I'. done.
    + intros [(f & I & SF & <-)|[A ->]].
      * left. apply list_elem_of_In, in_map. by apply N.
      * right. split; [|done].
        destruct names as [|f names']; [done|]. exfalso.
        destruct (proj1 (N f)) as [I SF]; [by left|].
        rewrite (A f I) in SF. done.
  - intros c E. unfold get_seasons. rewrite E. split.
    + intros msg F. by rewrite execute_spec, F.
    + intros H. rewrite execute_healthy by done. eexists. split; [reflexivity|]. split.
      * unfold sorted. rewrite merge_sort_Permutation.
        pose proof (NoDup_remove_dups (List.map row_season (table c))) as D.
        destruct (remove_dups (List.map row_season (table c))) as [|x l].
        -- apply NoDup_singleton.
        -- exact D.
      * intros s. rewrite sorted_members, or_default_members, elem_of_remove_dups.
        assert (s ∈ List.map row_season (table c)
                <-> exists r, r ∈ table c /\ row_season r = s) as ->.
        { rewrite list_elem_of_In, in_map_iff. split.
          - intros (r & <- & I). exists r. by rewrite list_elem_of_In.
          - intros (r & I & <-). exists r. by rewrite <- list_elem_of_In. }
        assert (remove_dups (List.map row_season (table c)) = [] <-> table c = []) as ->.
        { destruct (table c) as [|r t] eqn:T; [done|]. split; [|done].
          intros Z. assert (row_season r ∈ remove_dups (List.map row_season (r :: t))) as I
            by (apply elem_of_remove_dups; by left).
          rewrite Z in I. by apply elem_of_nil in I. }
        done.
Qed.

Lemma display_paid_is_paid (g : game) : display_paid g = is_paid (paidStatus g).
Proof. unfold display_paid, is_paid. by destruct (paidStatus g). Qed.

(** X18: the table line [refresh_table] shows for a record agrees with
    what [get_summary] adds up for it: the paid test is the same, and when
    the three amounts are numbers other than [-0.0] the line shows the row
    total under "totalEarnings" if paid and under "amountLeft" if not.  A
    record with a null amount shows 0.0 in both columns, whatever its other
    amounts are. *)
Theorem refresh_table_row_agrees_with_summary (g : game) :
  display_paid g = is_paid (paidStatus g) /\
  (transportation g = Null \/ food g = Null \/ gamePayment g = Null ->
     display_row g = (0%float, 0%float)) /\
  (forall t f p,
     transportation g = Amount t -> food g = Amount f -> gamePayment g = Amount p ->
     kept_by_or t -> kept_by_or f -> kept_by_or p ->
     display_row g =
       if is_paid (paidStatus g) then (row_total64 (game_cells g), 0%float)
       else (0%float, row_total64 (game_cells g))).
Proof.
  split; [apply display_paid_is_paid|]. split.
  - intros N. unfold display_row, display_total.
    assert (match get_amount (transportation g), get_amount (food g),
                  get_amount (gamePayment g) with
            | Some t, Some f, Some p => (t + f + p)%float
            | _, _, _ => 0%float
            end = 0%float) as ->.
    { destruct N as [-> | [-> | ->]]; simpl; [done | |].
      - by destruct (get_amount (transportation g)).
      - by destruct (get_amount (transportation g)), (get_amount (food g)). }
    by destruct (display_paid g).
  - intros t f p T F P Kt Kf Kp.
    assert (row_total64 (game_cells g) = (t + f + p)%float) as ->.
    { unfold row_total64, game_cells. rewrite T, F, P. cbn [amount_cell].
      change (row_total PrimFloat.add 0%float float_truthy
                (Some t, Some f, Some p, paidStatus g))
        with (float_or_0 0%float float_truthy (Some t)
              + float_or_0 0%float float_truthy (Some f)
              + float_or_0 0%float float_truthy (Some p))%float.
      unfold kept_by_or in Kt, Kf, Kp. rewrite Kt, Kf, Kp. reflexivity. }
    unfold display_row, display_total. rewrite display_paid_is_paid, T, F, P.
    cbn [get_amount]. destruct (is_paid (paidStatus g)); reflexivity.
Qed.

(** ** Worked examples of the further properties *)

(** Game "3", whose amounts are NaN, -0.0 and missing, added beside game
    "1" and read back: null, 0.0 and 0.0. *)
Lemma add_game_then_load_games_witness :
  List.filter (number_is "3")
    (fst (load_games (snd (add_game db_manager_one_row season_2025 odd_amounts_game))
                     season_2025))
  = [ {| season_key := Some season_2025;
         gameNumber := Some "3";
         date := Some "2025-09-15";
         location := Some "Field C";
         transportation := Null;
         food := Amount 0%float;
         gamePayment := Amount 0%float;
         paidStatus := Some "No";
         observations := None;
         paymentDate := None |} ].
Proof.
  exact (proj1 (add_game_then_load_games db_manager_one_row one_row_db
                  season_2025 "3" odd_amounts_game eq_refl eq_refl eq_refl eq_refl)).
Defined.

(** The season file after game "2" was added. *)
Lemma writes_refresh_the_backups_witness :
  let m' := snd (add_game db_manager_one_row season_2025 field_b_game) in
  data_dir m' !! get_season_file season_2025
    = Some (JGames (fst (load_games m' season_2025))).
Proof.
  exact (proj1 (writes_refresh_the_backups db_manager_one_row one_row_db
                  season_2025 "1" field_b_game eq_refl eq_refl _ (or_introl eq_refl))).
Defined.

(** Game "1" deleted from a season that held only it. *)
Lemma delete_game_then_load_games_witness :
  fst (delete_game db_manager_one_row season_2025 "1") = Ok tt /\
  fst (load_games (snd (delete_game db_manager_one_row season_2025 "1")) season_2025)
    = List.filter (fun g => negb (number_is "1" g))
        (fst (load_games db_manager_one_row season_2025)).
Proof.
  destruct (delete_game_then_load_games db_manager_one_row one_row_db
              season_2025 "1" eq_refl eq_refl) as (R & L & _).
  split; [exact R | exact L].
Defined.

(** Game "1" edited with the fields of game "2": it keeps its number. *)
Lemma update_game_then_load_games_witness :
  List.map gameNumber
    (fst (load_games (snd (update_game db_manager_one_row season_2025 "1" field_b_game))
                     season_2025))
  = List.map gameNumber (fst (load_games db_manager_one_row season_2025)).
Proof.
  destruct (update_game_then_load_games db_manager_one_row one_row_db
              season_2025 "1" field_b_game eq_refl eq_refl) as (_ & _ & N & _).
  exact N.
Defined.

(** The season replaced by games "2" and "1", given in that order: they
    come back as "1" and "2". *)
Lemma save_games_replaces_the_season_witness :
  fst (load_games (snd (save_games db_manager_one_row season_2025
                          [field_b_game; field_a_game])) season_2025)
  = [stored season_2025 field_a_game; stored season_2025 field_b_game].
Proof.
  destruct (save_games_replaces_the_season db_manager_one_row one_row_db season_2025
              [field_b_game; field_a_game] eq_refl eq_refl) as (_ & _ & S & _).
  assert (NoDup (gameNumber <$> [field_b_game; field_a_game])) as N
    by (apply (bool_decide_unpack _); vm_compute; reflexivity).
  destruct (S eq_refl N) as (_ & L & _). exact L.
Defined.

(** The export of a directory with one season file. *)
Lemma dump_all_json_collects_the_season_files_witness :
  exists export,
    data_dir (_dump_all json_manager_one_game) !! "all_games.json" = Some (JGames export) /\
    In field_a_game export.
Proof.
  destruct (dump_all_json_collects_the_season_files json_manager_one_game eq_refl)
    as (_ & _ & _ & export & L & M).
  exists export. split; [exact L|]. apply M.
  exists (get_season_file season_2025), [field_a_game].
  split; [reflexivity|]. split; [reflexivity | by left].
Defined.

(** The export when the query raises, and when it goes through. *)
Lemma dump_all_db_exports_the_table_witness :
  data_dir (_dump_all locked_db_manager) !! "all_games.json" = Some (JGames []) /\
  data_dir (_dump_all db_manager_one_row) !! "all_games.json"
    = Some (JGames [stored season_2025 field_a_game]).
Proof.
  split.
  - exact (proj1 (dump_all_db_exports_the_table locked_db_manager locked_db
                    season_2025 eq_refl)).
  - exact (proj1 (dump_all_db_exports_the_table db_manager_one_row one_row_db
                    season_2025 eq_refl)).
Defined.

(** Construction on a database that is locked. *)
Lemma init_without_usable_database_witness :
  exists m,
    __init__ two_game_directory (Some locked_db) = Ok m /\
    conn m = None /\
    db_error m = Some (Some "database is locked").
Proof.
  destruct (init_without_usable_database two_game_directory locked_db
              "database is locked" eq_refl) as (I & _).
  eexists. split; [exact I|]. split; reflexivity.
Defined.

(** An update of game "1" in a season file that held it. *)
Lemma update_game_json_empties_the_file_witness :
  exists m',
    update_game json_manager_one_game season_2025 "1" field_b_game = (Ok tt, m') /\
    data_dir m' !! get_season_file season_2025 = Some (JGames []).
Proof.
  destruct (update_game_json_empties_the_file json_manager_one_game season_2025 "1"
              field_b_game eq_refl) as (m' & U & _ & L & _).
  exists m'. split; [exact U | exact L].
Defined.

(** Construction over an empty database and one season file. *)
Lemma init_leaves_unique_keys_witness :
  exists m,
    __init__ two_game_directory (Some (empty_db true)) = Ok m /\
    unique_keys (db_table m).
Proof.
  assert (ids_fresh (empty_db true)) as F.
  { split; [apply NoDup_nil_2|]. intros r I. by apply elem_of_nil in I. }
  assert (iterable two_game_directory) as It.
  { intros f k _ L. unfold two_game_directory in L.
    apply lookup_singleton_Some in L as [_ L]. discriminate L. }
  destruct (init_leaves_unique_keys two_game_directory (empty_db true) eq_refl F It)
    as (m & I & _ & U).
  exists m. split; [exact I | exact U].
Defined.

(** The season of the one season file is marked by the migration. *)
Lemma migration_marks_every_season_file_witness :
  season_2025 ∈ _read_markers (snd (import_json_to_db fresh_db_manager)).
Proof.
  assert (healthy fresh_db_manager) as H
    by (exists (empty_db true); split; reflexivity).
  assert (fst (import_json_to_db fresh_db_manager) = Ok tt) as R
    by (vm_compute; reflexivity).
  assert (is_Some (data_dir fresh_db_manager !! get_season_file season_2025)) as I
    by (eexists; reflexivity).
  destruct (migration_marks_every_season_file fresh_db_manager
              (get_season_file season_2025) H R I eq_refl) as (_ & M & _).
  exact M.
Defined.

(** One turn of the loop on the season file of two games. *)
Lemma import_file_brings_in_the_games_witness :
  fst (load_games
         (fst (snd (import_file (fresh_db_manager, ∅) (get_season_file season_2025))))
         season_2025)
  = [stored season_2025 field_a_game; stored season_2025 field_b_game].
Proof.
  assert (NoDup (gameNumber <$> [field_a_game; field_b_game]))
    as N by (apply (bool_decide_unpack _); vm_compute; reflexivity).
  destruct (import_file_brings_in_the_games fresh_db_manager (empty_db true) ∅
              (get_season_file season_2025) eq_refl eq_refl eq_refl eq_refl
              (or_introl (not_elem_of_empty _))) as (G & _).
  destruct (G [field_a_game; field_b_game] eq_refl N) as (_ & L & _).
  exact L.
Defined.

(** Deduplication, twice, of the table in which game "1" is repeated. *)
Lemma dedupe_db_is_idempotent_witness :
  db_table (snd (_dedupe_db (snd (_dedupe_db duplicated_manager))))
  = db_table (snd (_dedupe_db duplicated_manager)).
Proof.
  assert (NoDup (row_id <$> duplicated_table)) as N
    by (apply (bool_decide_unpack _); vm_compute; reflexivity).
  exact (proj2 (dedupe_db_is_idempotent duplicated_manager duplicated_db
                  eq_refl eq_refl N)).
Defined.

(** ** When a statement of a write or of the constructor raises *)

(** X19: [add_game] is not atomic.  When its [DELETE] goes through and its
    [INSERT] raises, the error reaches the caller, the rows that carried
    the key are gone and the JSON files are not brought up to date.  When
    its [DELETE] raises (which is swallowed) and a row carries the key, the
    [INSERT] that follows raises the uniqueness error and the table is as
    before. *)
Theorem add_game_when_a_statement_fails
    (m : manager) (c : connection) (season : string) (g : game) :
  conn m = Some c ->
  (forall msg,
     next_fault c = None -> next_fault (advance c) = Some msg ->
     fst (add_game m season g) = Raise msg /\
     db_table (snd (add_game m season g))
       = Sql.delete_key season (gameNumber g) (table c) /\
     data_dir (snd (add_game m season g)) = data_dir m) /\
  (forall msg,
     next_fault c = Some msg -> next_fault (advance c) = None ->
     existsb (Sql.has_key season (gameNumber g)) (table c) = true ->
     fst (add_game m season g) = Raise unique_violation /\
     db_table (snd (add_game m season g)) = table c /\
     data_dir (snd (add_game m season g)) = data_dir m).
Proof.
  intros E. split.
  - intros msg F1 F2. unfold add_game. rewrite E.
    rewrite (execute_spec _ c), F1.
    rewrite (execute_spec (Sql.insert season g)).
    assert (next_fault (with_table (advance c)
                          (Sql.delete_key season (gameNumber g) (table (advance c))))
            = Some msg) as -> by exact F2.
    done.
  - intros msg F1 F2 X. unfold add_game. rewrite E.
    rewrite (execute_spec _ c), F1.
    rewrite (execute_spec (Sql.insert season g)), F2.
    unfold Sql.insert.
    assert (table (advance (advance c)) = table c) as -> by done.
    by rewrite X.
Qed.

(** The [INSERT] of game "2" fails after its [DELETE] went through. *)
Lemma add_game_when_a_statement_fails_witness :
  fst (add_game (set_conn db_manager_one_row (Some insert_fails)) season_2025 field_b_game)
    = Raise "disk I/O error".
Proof.
  destruct (add_game_when_a_statement_fails
              (set_conn db_manager_one_row (Some insert_fails)) insert_fails
              season_2025 field_b_game eq_refl) as (A & _).
  exact (proj1 (A "disk I/O error" eq_refl eq_refl)).
Defined.

Lemma import_files_without_season_files (names : list string) (st : manager * gset string) :
  (forall f, In f names -> is_season_file f = false) ->
  import_files names st = (Ok tt, st).
Proof.
  revert st. induction names as [|f names IH]; intros st A; [done|].
  cbn [import_files].
  assert (import_file st f = (Ok tt, st)) as ->.
  { unfold import_file. destruct st as [m markers]. by rewrite (A f) by (by left). }
  apply IH. intros f' I. apply A. by right.
Qed.

(** X20: the constructor can raise.  On a directory without season files
    the schema statement and the export of the migration are the first two
    statements on the connection; when they are past and the [SELECT] of
    [_dedupe_db], which no [try] guards, raises, the constructor raises the
    error instead of falling back to the JSON files. *)
Theorem init_raises_when_dedupe_cannot_read
    (files : gmap string json_file) (c : connection) (msg : string) :
  (forall f, is_Some (files !! f) -> is_season_file f = false) ->
  next_fault c = None -> next_fault (advance (advance c)) = Some msg ->
  __init__ files (Some c) = Raise msg.
Proof.
  intros A F1 F3. rewrite init_with_schema by done. cbv zeta.
  unfold import_json_to_db.
  rewrite import_files_without_season_files
    by (intros f I; apply A, listdir_lookup; by apply list_elem_of_In).
  unfold _dump_all. cbn [conn]. rewrite execute_spec.
  destruct (next_fault (advance c)); simpl;
    unfold _dedupe_db; simpl; by rewrite execute_spec, F3.
Qed.

(** Construction on an empty directory when the third statement raises. *)
Lemma init_raises_when_dedupe_cannot_read_witness :
  __init__ ∅ (Some third_statement_fails) = Raise "disk I/O error".
Proof.
  apply (init_raises_when_dedupe_cannot_read ∅ third_statement_fails "disk I/O error").
  - intros f [x L]. rewrite lookup_empty in L. discriminate L.
  - reflexivity.
  - reflexivity.
Defined.

(** ** [save_games] without a connection *)

(** X21: without a connection [save_games] raises nothing, leaves the
    season file holding exactly the list it was given, and regenerates the
    export, which then contains every game of the list; no other season
    file changes. *)
Theorem save_games_json_writes_the_file
    (m : manager) (season : string) (gs : list game) :
  conn m = None ->
  exists m' export,
    save_games m season gs = (Ok tt, m') /\
    data_dir m' !! get_season_file season = Some (JGames gs) /\
    data_dir m' !! "all_games.json" = Some (JGames export) /\
    (forall g, In g gs -> In g export) /\
    (forall path, path <> get_season_file season -> path <> "all_games.json" ->
       data_dir m' !! path = data_dir m !! path).
Proof.
  intros E. unfold save_games. rewrite E.
  set (m1 := write_file m (get_season_file season) (JGames gs)).
  assert (conn m1 = None) as E1 by exact E.
  destruct (dump_all_json_collects m1 E1) as (export & L & M).
  exists (_dump_all m1), export. split; [done|]. split; [|split; [exact L|split]].
  - rewrite dump_all_lookup by apply season_file_not_export.
    unfold m1. simpl. by rewrite lookup_insert_eq.
  - intros g I. apply M. exists (get_season_file season), gs.
    split; [apply season_file_is_season_file|].
    split; [|done]. unfold m1. simpl. by rewrite lookup_insert_eq.
  - intros path N1 N2. rewrite dump_all_lookup by done.
    unfold m1. simpl. by rewrite lookup_insert_ne.
Qed.

(** Two games saved over a season file that held one. *)
Lemma save_games_json_writes_the_file_witness :
  exists m',
    save_games json_manager_one_game season_2025 [field_a_game; field_b_game]
      = (Ok tt, m') /\
    data_dir m' !! get_season_file season_2025
      = Some (JGames [field_a_game; field_b_game]).
Proof.
  destruct (save_games_json_writes_the_file json_manager_one_game season_2025
              [field_a_game; field_b_game] eq_refl) as (m' & export & S & L & _).
  exists m'. split; [exact S | exact L].
Defined.
